(** * RAG-Txtbuk: the hierarchical indexer of [src/hierarchical_indexing.py]

    A shallow embedding of [TextNode], [TextbookProcessor] and
    [process_textbooks], with the text primitives they rest on
    ([str.split], [str.strip], [re.finditer]), and of [PDFExtractor] of
    [src/content_extraction.py], which makes the text the builder reads,
    followed by the properties of the tree builder and of the extractor.

    Modelling conventions.
    - A Python [str] is a [string]; a character is a code point below 256
      (Latin-1), and the classes [\s], [\d], [\w] are Python's on that range.
    - [uuid4()] is a supply of names that never repeats: a counter kept in
      the interpreter state.  A [node_id] doubles as the address of the
      [TextNode] object, so [node_map] is at once the processor's index and
      the store in which [children] lists are mutated in place. *)

From Stdlib Require Import Ascii String DecimalString.
From stdpp Require Import base option list gmap strings.

Local Open Scope nat_scope.

(** ** Characters *)

Module Chars.

Definition code (c : ascii) : nat := nat_of_ascii c.

Definition between (lo hi : nat) (c : ascii) : bool :=
  (lo <=? code c) && (code c <=? hi).

Definition newline : ascii := ascii_of_nat 10.

(** [str.isspace] on one character; also the class [\s]. *)
Definition is_space (c : ascii) : bool :=
  between 9 13 c || between 28 32 c
  || (code c =? 133) || (code c =? 160).

(** The class [\d]. *)
Definition is_digit (c : ascii) : bool := between 48 57 c.

(** The class [\w]: alphanumeric or underscore. *)
Definition is_word (c : ascii) : bool :=
  is_digit c || between 65 90 c || between 97 122 c || (code c =? 95)
  || (code c =? 170) || between 178 179 c || (code c =? 181)
  || between 185 186 c || between 188 190 c
  || between 192 214 c || between 216 246 c || between 248 255 c.

(** Lower-casing of the letters A-Z, for [re.IGNORECASE] on ASCII
    literals. *)
Definition lower (c : ascii) : ascii :=
  if between 65 90 c then ascii_of_nat (code c + 32) else c.

Definition eqb_icase (a b : ascii) : bool := Ascii.eqb (lower a) (lower b).

End Chars.

(** ** Strings: [in], [split], [strip], [str(int)] *)

Module Str.

Fixpoint rev_onto (s acc : string) : string :=
  match s with
  | EmptyString => acc
  | String c s' => rev_onto s' (String c acc)
  end.

Definition rev (s : string) : string := rev_onto s EmptyString.

Fixpoint drop (n : nat) (s : string) : string :=
  match n, s with
  | S n', String _ s' => drop n' s'
  | _, _ => s
  end.

Fixpoint take (n : nat) (s : string) : string :=
  match n, s with
  | S n', String c s' => String c (take n' s')
  | _, _ => EmptyString
  end.

Fixpoint starts_with (p s : string) : bool :=
  match p, s with
  | EmptyString, _ => true
  | String a p', String b s' => Ascii.eqb a b && starts_with p' s'
  | String _ _, EmptyString => false
  end.

(** [sep in s] *)
Fixpoint contains (sep s : string) : bool :=
  starts_with sep s ||
  match s with
  | EmptyString => false
  | String _ s' => contains sep s'
  end.

(** [s.split(sep)] for a non-empty [sep]: the pieces between the
    occurrences of [sep], found left to right without overlap.  [cur]
    holds the piece being read, reversed; [skip] counts the characters of
    an occurrence of [sep] still to be passed over. *)
Fixpoint split_go (sep s cur : string) (skip : nat) : list string :=
  match s with
  | EmptyString => [rev cur]
  | String c s' =>
      match skip with
      | S n => split_go sep s' cur n
      | O =>
          if starts_with sep s
          then rev cur :: split_go sep s' EmptyString (String.length sep - 1)
          else split_go sep s' (String c cur) 0
      end
  end.

Definition split (sep s : string) : list string :=
  split_go sep s EmptyString 0.

(** [s.split(sep, 1)[1]], defined when [sep in s]: what follows the first
    occurrence of [sep]. *)
Fixpoint after_first (sep s : string) : option string :=
  if starts_with sep s then Some (drop (String.length sep) s)
  else match s with
       | EmptyString => None
       | String _ s' => after_first sep s'
       end.

Fixpoint lstrip (s : string) : string :=
  match s with
  | String c s' => if Chars.is_space c then lstrip s' else s
  | EmptyString => EmptyString
  end.

(** [s.strip()] *)
Definition strip (s : string) : string := rev (lstrip (rev (lstrip s))).

(** [str(n)] for a non-negative [int]. *)
Definition of_nat (n : nat) : string :=
  NilEmpty.string_of_uint (Nat.to_uint n).

Definition nl : string := String Chars.newline EmptyString.

End Str.

(** ** Regular expressions: the fragment of [re] the indexer uses *)

Module Re.

(** One-character classes. *)
Inductive cclass :=
| Lit (c : ascii)            (* a literal character *)
| OneOf (cs : list ascii)    (* [...] *)
| Space                      (* \s *)
| Digit                      (* \d *)
| Word                       (* \w *)
| Dot.                       (* .  (no DOTALL: anything but a newline) *)

Definition accepts (icase : bool) (k : cclass) (c : ascii) : bool :=
  match k with
  | Lit a => if icase then Chars.eqb_icase a c else Ascii.eqb a c
  | OneOf cs =>
      existsb (fun a => if icase then Chars.eqb_icase a c else Ascii.eqb a c) cs
  | Space => Chars.is_space c
  | Digit => Chars.is_digit c
  | Word => Chars.is_word c
  | Dot => negb (Ascii.eqb c Chars.newline)
  end.

Inductive regex :=
| Eps
| One (k : cclass)           (* k *)
| Many (k : cclass)          (* k*   greedy *)
| Few (k : cclass)           (* k*?  lazy *)
| Seq (r1 r2 : regex)
| Capture (r : regex)        (* ( r ), group 1 *)
| Ahead (r : regex)          (* (?= r ) *)
| NotBehind (k : cclass)     (* (?<! k ) *)
| WordBoundary.              (* \b *)

(** [k+] *)
Definition Many1 (k : cclass) : regex := Seq (One k) (Many k).

Fixpoint lit (s : string) : regex :=
  match s with
  | EmptyString => Eps
  | String c s' => Seq (One (Lit c)) (lit s')
  end.

Definition seq (rs : list regex) : regex := foldr Seq Eps rs.

(** A position of the matcher: the character before it, the text from it
    on, and what group 1 holds. *)
Record cursor := Cursor {
  before : option ascii;
  ahead : string;
  group1 : option string
}.

Definition is_word_opt (o : option ascii) : bool :=
  match o with Some c => Chars.is_word c | None => false end.

Definition next_char (s : string) : option ascii :=
  match s with String c _ => Some c | EmptyString => None end.

Section Matcher.
Variable icase : bool.

(** Greedy repetition: take as many characters as possible, give one
    back at a time while the rest of the pattern [k] fails. *)
Fixpoint many (c : cclass) (k : cursor -> option cursor)
    (g : option string) (p : option ascii) (s : string) : option cursor :=
  match s with
  | String a s' =>
      if accepts icase c a then
        match many c k g (Some a) s' with
        | Some r => Some r
        | None => k (Cursor p s g)
        end
      else k (Cursor p s g)
  | EmptyString => k (Cursor p s g)
  end.

(** Lazy repetition: try the rest of the pattern first, take one more
    character only when it fails. *)
Fixpoint few (c : cclass) (k : cursor -> option cursor)
    (g : option string) (p : option ascii) (s : string) : option cursor :=
  match k (Cursor p s g) with
  | Some r => Some r
  | None =>
      match s with
      | String a s' => if accepts icase c a then few c k g (Some a) s' else None
      | EmptyString => None
      end
  end.

(** Backtracking matcher in continuation-passing style: [run r k m]
    matches [r] at [m] and hands the position reached to [k]. *)
Fixpoint run (r : regex) (k : cursor -> option cursor) (m : cursor)
    : option cursor :=
  match r with
  | Eps => k m
  | One c =>
      match ahead m with
      | String a s' =>
          if accepts icase c a then k (Cursor (Some a) s' (group1 m)) else None
      | EmptyString => None
      end
  | Many c => many c k (group1 m) (before m) (ahead m)
  | Few c => few c k (group1 m) (before m) (ahead m)
  | Seq r1 r2 => run r1 (run r2 k) m
  | Capture r1 =>
      run r1 (fun m' =>
        k (Cursor (before m') (ahead m')
             (Some (Str.take (String.length (ahead m) - String.length (ahead m'))
                      (ahead m))))) m
  | Ahead r1 =>
      match run r1 Some m with
      | Some _ => k m
      | None => None
      end
  | NotBehind c =>
      match before m with
      | Some a => if accepts icase c a then None else k m
      | None => k m
      end
  | WordBoundary =>
      if xorb (is_word_opt (before m)) (is_word_opt (next_char (ahead m)))
      then k m else None
  end.

(** A match object: the text matched and [group(1)]. *)
Record rmatch := Match {
  group0 : string;
  group : option string
}.

(** Try the pattern at one position. *)
Definition match_here (r : regex) (p : option ascii) (s : string)
    : option rmatch :=
  match run r Some (Cursor p s None) with
  | Some m =>
      Some (Match (Str.take (String.length s - String.length (ahead m)) s)
                  (group1 m))
  | None => None
  end.

(** [re.finditer]: scan left to right, resume after each match.
    [skip] counts the characters of the last match still to pass. *)
Fixpoint scan (r : regex) (p : option ascii) (s : string) (skip : nat)
    : list rmatch :=
  match s with
  | EmptyString =>
      match skip with
      | O => match match_here r p s with Some m => [m] | None => [] end
      | S _ => []
      end
  | String c s' =>
      match skip with
      | S n => scan r (Some c) s' n
      | O =>
          match match_here r p s with
          | Some m => m :: scan r (Some c) s' (String.length (group0 m) - 1)
          | None => scan r (Some c) s' 0
          end
      end
  end.

Definition finditer (r : regex) (s : string) : list rmatch :=
  scan r None s 0.

End Matcher.

End Re.

(** ** The node model and the interpreter state *)

(** The values [node_type] takes: "root", "chapter", "section", "leaf". *)
Inductive NodeType := Root | Chapter | Section | Leaf.

Global Instance NodeType_eq_dec : EqDecision NodeType.
Proof. solve_decision. Defined.

(** [TextNode].  [children] lists the children by [node_id], in insertion
    order. *)
Record TextNode := mkTextNode {
  title : string;
  content : option string;
  node_type : NodeType;
  node_id : nat;
  parent_id : option nat;
  children : list nat;
  page_number : list nat;
  metadata : list (string * string)
}.

Inductive exn :=
| ValueError (msg : string)
| FileNotFoundError (msg : string)
| AttributeError (msg : string)
| UnicodeError (msg : string)
| OSError (msg : string)
| RecursionError (msg : string).

Definition exn_msg (e : exn) : string :=
  match e with
  | ValueError m | FileNotFoundError m | AttributeError m
  | UnicodeError m | OSError m | RecursionError m => m
  end.

(** The nested record [node_to_dict] builds and [json.dump] writes. *)
#[warnings="-register-all"]
Inductive JNode :=
| JN (j_title : string) (j_content : option string) (j_node_type : NodeType)
     (j_node_id : nat) (j_parent_id : option nat) (j_page_number : list nat)
     (j_metadata : list (string * string)) (j_children : list JNode).

(** What the program does to the outside: log records, files written. *)
Inductive event :=
| LogInfo (msg : string)
| LogWarning (msg : string)
| LogError (msg : string)
| Wrote (path : string) (record : JNode).

(** The interpreter state: the name supply of [uuid4], the fields of the
    [TextbookProcessor] instance ([root], [node_map]), the two cursors of
    the running [create_textbook_structure] call, and the events so far. *)
Record State := mkState {
  uuid_next : nat;
  root : option nat;
  node_map : gmap nat TextNode;
  current_chapter : option nat;
  current_section : option nat;
  events : list event
}.

(** [TextbookProcessor()] *)
Definition new_processor (supply : nat) (evs : list event) : State :=
  mkState supply None ∅ None None evs.

(** ** Computations that may raise

    A raised exception leaves the state as it was at the point of the
    [raise]: Python undoes nothing. *)

Definition M (A : Type) : Type := State -> (exn + A) * State.

Definition ret {A} (a : A) : M A := fun s => (inr a, s).

Definition bind {A B} (m : M A) (k : A -> M B) : M B :=
  fun s => match m s with
           | (inr a, s') => k a s'
           | (inl e, s') => (inl e, s')
           end.

Definition raise {A} (e : exn) : M A := fun s => (inl e, s).

(** [try: body except Exception as e: handler(e)] *)
Definition try_except {A} (body : M A) (handler : exn -> M A) : M A :=
  fun s => match body s with
           | (inl e, s') => handler e s'
           | r => r
           end.

Definition get {A} (f : State -> A) : M A := fun s => (inr (f s), s).

Definition modify (f : State -> State) : M unit := fun s => (inr tt, f s).

Declare Scope py_scope.
Delimit Scope py_scope with py.
Notation "x <~ m ;; k" := (bind m (fun x => k))
  (at level 100, m at next level, k at level 200, right associativity,
   format "'[v' x  <~  m  ;;  '/' k ']'") : py_scope.
Notation "m >> k" := (bind m (fun _ => k))
  (at level 100, k at level 200, right associativity) : py_scope.

Local Open Scope py_scope.

(** [for x in xs: body(x)] *)
Fixpoint for_each {A} (xs : list A) (body : A -> M unit) : M unit :=
  match xs with
  | [] => ret tt
  | x :: xs' => body x >> for_each xs' body
  end.

Definition emit (e : event) : M unit :=
  modify (fun s => mkState (uuid_next s) (root s) (node_map s)
                     (current_chapter s) (current_section s) (events s ++ [e])).

(** [uuid4()] *)
Definition uuid4 : M nat :=
  fun s => (inr (uuid_next s),
            mkState (S (uuid_next s)) (root s) (node_map s)
              (current_chapter s) (current_section s) (events s)).

Definition set_node_map (f : gmap nat TextNode -> gmap nat TextNode) : M unit :=
  modify (fun s => mkState (uuid_next s) (root s) (f (node_map s))
                     (current_chapter s) (current_section s) (events s)).

Definition set_root (r : option nat) : M unit :=
  modify (fun s => mkState (uuid_next s) r (node_map s)
                     (current_chapter s) (current_section s) (events s)).

Definition set_current_chapter (c : option nat) : M unit :=
  modify (fun s => mkState (uuid_next s) (root s) (node_map s)
                     c (current_section s) (events s)).

Definition set_current_section (c : option nat) : M unit :=
  modify (fun s => mkState (uuid_next s) (root s) (node_map s)
                     (current_chapter s) c (events s)).

(** [node.children.append(child)] *)
Definition append_child (child : nat) (n : TextNode) : TextNode :=
  mkTextNode (title n) (content n) (node_type n) (node_id n) (parent_id n)
    (children n ++ [child]) (page_number n) (metadata n).

(** [node.page_number.append(page_num)] *)
Definition append_page (page_num : nat) (n : TextNode) : TextNode :=
  mkTextNode (title n) (content n) (node_type n) (node_id n) (parent_id n)
    (children n) (page_number n ++ [page_num]) (metadata n).

(** ** [TextbookProcessor] *)

Module Patterns.
Import Re.

Definition newline_ahead : regex := Ahead (One (Lit Chars.newline)).

(** [r"Chapter\s+\d+[.:]\s*(.*?)(?=\n)"], used with [re.IGNORECASE] *)
Definition chapter_heading : regex :=
  seq [lit "Chapter"; Many1 Space; Many1 Digit; One (OneOf ["."; ":"]%char);
       Many Space; Capture (Few Dot); newline_ahead].

(** [r"(?<!\w)\d+\.\d+\s+(.*?)(?=\n)"] *)
Definition section_heading : regex :=
  seq [NotBehind Word; Many1 Digit; One (Lit "."); Many1 Digit; Many1 Space;
       Capture (Few Dot); newline_ahead].

(** The patterns of [detect_structure]:
    [r'\bChapter\s+\d+\:\s+.*'], [r'\b\d+\.\s+.*'], [r'\b\d+\.\d+\.\s+.*'] *)
Definition chapter_pattern : regex :=
  seq [WordBoundary; lit "Chapter"; Many1 Space; Many1 Digit; One (Lit ":");
       Many1 Space; Many Dot].

Definition section_pattern : regex :=
  seq [WordBoundary; Many1 Digit; One (Lit "."); Many1 Space; Many Dot].

Definition subsection_pattern : regex :=
  seq [WordBoundary; Many1 Digit; One (Lit "."); Many1 Digit; One (Lit ".");
       Many1 Space; Many Dot].

End Patterns.

(** The dictionary [detect_structure] returns. *)
Record Structure := mkStructure {
  chapters : list Re.rmatch;
  sections : list Re.rmatch;
  subsections : list Re.rmatch
}.

Definition detect_structure (text : string) : Structure :=
  mkStructure (Re.finditer true Patterns.chapter_pattern text)
              (Re.finditer false Patterns.section_pattern text)
              (Re.finditer false Patterns.subsection_pattern text).

(** [str(match.group(1))] inside an f-string *)
Definition fmt_group (m : Re.rmatch) : string :=
  match Re.group m with Some t => t | None => "None" end.

(** [add_node]; the [TextNode] is built, and its [node_id] drawn, only after
    the parent was found. *)
Definition add_node (parent : nat) (ttl : string) (cnt : option string)
    (ty : NodeType) : M nat :=
  nm <~ get node_map ;;
  match nm !! parent with
  | None =>
      emit (LogError ("Parent node " +:+ Str.of_nat parent +:+ " not found.")) >>
      raise (ValueError ("Parent node " +:+ Str.of_nat parent +:+ " not found"))
  | Some _ =>
      new_id <~ uuid4 ;;
      set_node_map (alter (append_child new_id) parent) >>
      set_node_map (insert new_id
        (mkTextNode ttl cnt ty new_id (Some parent) [] [] [])) >>
      ret new_id
  end.

(** [self.root.node_id] *)
Definition root_node_id : M nat :=
  r <~ get root ;;
  match r with
  | Some i => ret i
  | None => raise (AttributeError "'NoneType' object has no attribute 'node_id'")
  end.

(** [page_content.split("]\n", 1)[1] if "]\n" in page_content else page_content] *)
Definition page_text_of (page_content : string) : string :=
  let sep := "]" +:+ Str.nl in
  if Str.contains sep page_content
  then default page_content (Str.after_first sep page_content)
  else page_content.

Definition chapter_matches (page_text : string) : list Re.rmatch :=
  Re.finditer true Patterns.chapter_heading page_text.

Definition section_matches (page_text : string) : list Re.rmatch :=
  Re.finditer false Patterns.section_heading page_text.

(** [[p.strip() for p in page_text.split('\n\n') if p.strip()]] *)
Definition paragraphs (page_text : string) : list string :=
  filter (fun p => p ≠ EmptyString)
    (map Str.strip (Str.split (Str.nl +:+ Str.nl) page_text)).

(** Body of the loop over chapter matches. *)
Definition chapter_step (page_num : nat) (m : Re.rmatch) : M unit :=
  r <~ root_node_id ;;
  ch <~ add_node r ("Chapter: " +:+ fmt_group m) None Chapter ;;
  set_current_chapter (Some ch) >>
  set_node_map (alter (append_page page_num) ch).

(** Body of the loop over section matches. *)
Definition section_step (page_num : nat) (m : Re.rmatch) : M unit :=
  cur <~ get current_chapter ;;
  match cur with
  | None => raise (AttributeError "'NoneType' object has no attribute 'node_id'")
  | Some ch =>
      sec <~ add_node ch ("Section: " +:+ fmt_group m) None Section ;;
      set_current_section (Some sec) >>
      set_node_map (alter (append_page page_num) sec)
  end.

(** Body of the loop over paragraphs. *)
Definition paragraph_step (page_num : nat) (para : string) : M unit :=
  if 100 <? String.length para then
    cur <~ get current_section ;;
    match cur with
    | None => raise (AttributeError "'NoneType' object has no attribute 'node_id'")
    | Some sec =>
        leaf <~ add_node sec ("Content from page " +:+ Str.of_nat page_num)
                  (Some para) Leaf ;;
        set_node_map (alter (append_page page_num) leaf)
    end
  else ret tt.

(** The three parts of the [try] block of the page loop: chapter headings,
    section headings "if we're in a chapter", paragraphs if a section is
    current. *)
Definition chapter_phase (page_num : nat) (page_text : string) : M unit :=
  for_each (chapter_matches page_text) (chapter_step page_num).

Definition section_phase (page_num : nat) (page_text : string) : M unit :=
  cur <~ get current_chapter ;;
  match cur with
  | Some _ => for_each (section_matches page_text) (section_step page_num)
  | None => ret tt
  end.

Definition leaf_phase (page_num : nat) (page_text : string) : M unit :=
  cur <~ get current_section ;;
  match cur with
  | Some _ => for_each (paragraphs page_text) (paragraph_step page_num)
  | None => ret tt
  end.

Definition page_body (page_num : nat) (page_content : string) : M unit :=
  let page_text := page_text_of page_content in
  chapter_phase page_num page_text >>
  section_phase page_num page_text >>
  leaf_phase page_num page_text.

(** One turn of the page loop, with its [except Exception]. *)
Definition process_page (page : nat * string) : M unit :=
  try_except (page_body page.1 page.2)
    (fun e => emit (LogWarning ("Error processing page " +:+ Str.of_nat page.1
                                 +:+ ": " +:+ exn_msg e))).

(** [enumerate(xs, start)] *)
Fixpoint enumerate {A} (start : nat) (xs : list A) : list (nat * A) :=
  match xs with
  | [] => []
  | x :: xs' => (start, x) :: enumerate (S start) xs'
  end.

(** [create_textbook_structure]; it returns the root node, here its id.
    [content] is a [string] already, so the [isinstance] guard is void. *)
Definition create_textbook_structure (ttl cnt : string) : M nat :=
  r <~ uuid4 ;;
  set_root (Some r) >>
  set_node_map (insert r (mkTextNode ttl None Root r None [] [] [])) >>
  let structure := detect_structure cnt in
  set_current_chapter None >>
  set_current_section None >>
  let pages := Str.split "[PAGE_" cnt in
  for_each (enumerate 1 (tail pages)) process_page >>
  root_node_id.

(** Python's bound on the depth of nested calls
    ([sys.getrecursionlimit()]). *)
Definition recursion_limit : nat := 1000.

(** [node_to_dict], the local function of [save_to_file].  [depth] is the
    number of nested calls still allowed; [None] when it is exhausted (or a
    child is not in the store, which the builder never produces). *)
Fixpoint node_to_dict (depth : nat) (nm : gmap nat TextNode) (i : nat)
    : option JNode :=
  match depth with
  | O => None
  | S d =>
      match nm !! i with
      | None => None
      | Some n =>
          match mapM (node_to_dict d nm) (children n) with
          | None => None
          | Some cs =>
              Some (JN (title n) (content n) (node_type n) (node_id n)
                      (parent_id n) (page_number n) (metadata n) cs)
          end
      end
  end.

(** The part of the file system the batch runs against. *)
Inductive file_state :=
| NoFile
| Undecodable
| Text (s : string).

Record Env := mkEnv {
  file_at : string -> file_state;     (* the input files *)
  makedirs_ok : string -> bool;       (* can the directory be had? *)
  writable : string -> bool           (* can the file be opened for writing? *)
}.

Section Batch.
(** [pathlib.Path(p).stem] and [os.path.join], which depend on the
    platform. *)
Variable stem : string -> string.
Variable path_join : string -> string -> string.
Variable env : Env.

(** [extract_parse_content] *)
Definition extract_parse_content (txt_path : string) : M string :=
  match file_at env txt_path with
  | NoFile =>
      emit (LogError ("Text file " +:+ txt_path +:+ " not found.")) >>
      raise (FileNotFoundError ("Text file " +:+ txt_path +:+ " not found."))
  | Undecodable => raise (UnicodeError "UTF-16 stream does not start with BOM")
  | Text s => ret s
  end.

(** [save_to_file]: the [except] logs and re-raises. *)
Definition save_to_file (filename : string) : M unit :=
  try_except
    (if writable env filename then
       r <~ root_node_id ;;
       nm <~ get node_map ;;
       match node_to_dict recursion_limit nm r with
       | Some j =>
           emit (Wrote filename j) >>
           emit (LogInfo ("Structure saved to " +:+ filename +:+ "."))
       | None => raise (RecursionError "maximum recursion depth exceeded")
       end
     else raise (OSError ("cannot open " +:+ filename)))
    (fun e =>
       emit (LogError ("Error saving to " +:+ filename +:+ ": " +:+ exn_msg e)) >>
       raise e).

(** The [try] block of [process_textbooks]. *)
Definition process_one (txt_path output_dir : string) : M unit :=
  (if makedirs_ok env output_dir then ret tt
   else raise (OSError ("cannot create " +:+ output_dir))) >>
  emit (LogInfo ("Processing textbook " +:+ txt_path +:+ "...")) >>
  cnt <~ extract_parse_content txt_path ;;
  let ttl := stem txt_path in
  emit (LogInfo ("Building hierarchical structure for " +:+ ttl +:+ "...")) >>
  create_textbook_structure ttl cnt >>
  let output_path := path_join output_dir (ttl +:+ "_structure.json") in
  save_to_file output_path >>
  emit (LogInfo ("Textbook " +:+ ttl +:+ " processed successfully.")).

(** The loop of [process_textbooks], run on the one processor the
    function creates. *)
Definition process_all (txt_paths : list string) (output_dir : string) : M unit :=
  for_each txt_paths (fun txt_path =>
    try_except (process_one txt_path output_dir)
      (fun e => emit (LogError ("Failed to process " +:+ txt_path +:+ ": "
                                 +:+ exn_msg e)))).

(** [process_textbooks(txt_paths, output_dir)], started with the name
    supply at [supply] and the log at [evs]. *)
Definition process_textbooks (txt_paths : list string) (output_dir : string)
    (supply : nat) (evs : list event) : (exn + unit) * State :=
  process_all txt_paths output_dir (new_processor supply evs).

End Batch.

(** ** The text the extractor hands over ([src/content_extraction.py])

    The loop of [PDFExtractor.extract_content] that builds the text of a
    document: [page_texts] holds what [page.extract_text()] gives for the
    pages of the reader, in order; [text] is the text so far. *)
Fixpoint page_markup (pg_num : nat) (page_texts : list string) (text : string)
    : string :=
  match page_texts with
  | [] => text
  | p :: ps =>
      page_markup (S pg_num) ps
        (text +:+ ((Str.nl +:+ "[PAGE_" +:+ Str.of_nat (pg_num + 1) +:+ "]"
                    +:+ Str.nl) +:+ p))
  end.

(** [text] when the loop of [extract_content] is over. *)
Definition extract_content_text (page_texts : list string) : string :=
  page_markup 0 page_texts "".

(** ** [PDFExtractor] ([src/content_extraction.py])

    The extractor works on the file system and on PyPDF2.  Both are kept
    outside: a [World] answers for them, and every answer may depend on
    what the run has done so far (its [trace]).  A Python exception is its
    class name and its [str()]. *)

Module PDFExtractor.

Inductive pyexn := PyExn (kind msg : string).

Definition str_exn (e : pyexn) : string :=
  match e with PyExn _ msg => msg end.

Inductive xevent :=
| Info (msg : string)                 (* logging.info *)
| Error (msg : string)                (* logging.error *)
| Opened (path : string)              (* open(path, 'rb') returned *)
| Closed (path : string)              (* pdf_file.close() *)
| WroteText (path text : string).     (* the text file was written and closed *)

(** A [PdfReader]: its [pages], unless reading them raises, and for each
    page what [extract_text()] does. *)
Definition pdf_reader : Type := pyexn + list (pyexn + string).

Record World := mkWorld {
  as_path : string -> string;                     (* str(Path(s)) *)
  is_file : list xevent -> string -> bool;        (* Path.is_file() *)
  is_dir : list xevent -> string -> bool;         (* Path.is_dir() *)
  has_pdf_suffix : string -> bool;                (* suffix.lower() == '.pdf' *)
  listdir : list xevent -> string -> pyexn + list string;
  joinpath : string -> string -> string;          (* str(dir_path / name) *)
  path_stem : string -> string;                   (* Path.stem *)
  path_parent : string -> string;                 (* str(Path.parent) *)
  open_rb : list xevent -> string -> option pyexn;
  read_pdf : list xevent -> string -> pyexn + pdf_reader;   (* PyPDF2.PdfReader(f) *)
  reader_truth : pdf_reader -> bool;              (* bool(reader) *)
  mkdir_parents : list xevent -> string -> option pyexn;
  write_utf16 : list xevent -> string -> string -> option pyexn
}.

(** The attributes of a [PDFExtractor], and what it has done. *)
Record Extractor := mkExtractor {
  file_path : option string;
  dir_path : option string;
  pdfs : option (list string);
  pdf_file : option string;          (* the path the file object was opened on *)
  reader : option pdf_reader;
  trace : list xevent
}.

Definition XM (A : Type) : Type := Extractor -> (pyexn + A) * Extractor.

Definition ret {A} (a : A) : XM A := fun s => (inr a, s).

Definition bind {A B} (m : XM A) (k : A -> XM B) : XM B :=
  fun s => match m s with
           | (inr a, s') => k a s'
           | (inl e, s') => (inl e, s')
           end.

Definition raise {A} (e : pyexn) : XM A := fun s => (inl e, s).

Definition try_except {A} (body : XM A) (handler : pyexn -> XM A) : XM A :=
  fun s => match body s with
           | (inl e, s') => handler e s'
           | r => r
           end.

Definition get {A} (f : Extractor -> A) : XM A := fun s => (inr (f s), s).

Definition modify (f : Extractor -> Extractor) : XM unit := fun s => (inr tt, f s).

Declare Scope pdf_scope.
Delimit Scope pdf_scope with pdf.
Notation "x <~ m ;; k" := (bind m (fun x => k))
  (at level 100, m at next level, k at level 200, right associativity)
  : pdf_scope.
Notation "m >> k" := (bind m (fun _ => k))
  (at level 100, k at level 200, right associativity) : pdf_scope.
Local Open Scope pdf_scope.

Fixpoint for_each {A} (xs : list A) (body : A -> XM unit) : XM unit :=
  match xs with
  | [] => ret tt
  | x :: xs' => body x >> for_each xs' body
  end.

Definition emit (e : xevent) : XM unit :=
  modify (fun s => mkExtractor (file_path s) (dir_path s) (pdfs s) (pdf_file s)
                     (reader s) (trace s ++ [e])).

Definition set_file_path (p : option string) : XM unit :=
  modify (fun s => mkExtractor p (dir_path s) (pdfs s) (pdf_file s) (reader s)
                     (trace s)).

Definition set_pdfs (l : option (list string)) : XM unit :=
  modify (fun s => mkExtractor (file_path s) (dir_path s) l (pdf_file s)
                     (reader s) (trace s)).

Definition set_pdf_file (p : option string) : XM unit :=
  modify (fun s => mkExtractor (file_path s) (dir_path s) (pdfs s) p (reader s)
                     (trace s)).

Definition set_reader (r : option pdf_reader) : XM unit :=
  modify (fun s => mkExtractor (file_path s) (dir_path s) (pdfs s) (pdf_file s)
                     r (trace s)).

(** [str(x)] of an attribute that holds a path or [None]. *)
Definition str_opt (o : option string) : string :=
  match o with Some p => p | None => "None" end.

(** [raise <str>]: Python refuses to raise what is no exception. *)
Definition raise_str {A} : XM A :=
  raise (PyExn "TypeError" "exceptions must derive from BaseException").

Definition attribute_error {A} (attr : string) : XM A :=
  raise (PyExn "AttributeError"
           ("'NoneType' object has no attribute '" +:+ attr +:+ "'")).

Section Methods.
Variable w : World.

(** [PDFExtractor(dir_path, file_path)] *)
Definition init (dir file : option string) : Extractor :=
  let path o := match o with
                | Some p => if String.eqb p "" then None else Some (as_path w p)
                | None => None
                end in
  mkExtractor (path file) (path dir) None None None [].

Definition validate_arguments : XM unit :=
  fp <~ get file_path ;;
  dp <~ get dir_path ;;
  h <~ get trace ;;
  match fp with
  | Some p =>
      if negb (is_file w h p) || negb (has_pdf_suffix w p)
      then raise_str else ret tt
  | None =>
      match dp with
      | Some d => if negb (is_dir w h d) then raise_str else ret tt
      | None => raise_str
      end
  end.

Definition load_file : XM unit :=
  try_except
    (fp <~ get file_path ;;
     match fp with
     | None =>
         raise (PyExn "TypeError"
                  "expected str, bytes or os.PathLike object, not NoneType")
     | Some p =>
         h <~ get trace ;;
         match open_rb w h p with
         | Some e => raise e
         | None =>
             emit (Opened p) >>
             set_pdf_file (Some p) >>
             h' <~ get trace ;;
             match read_pdf w h' p with
             | inl e => raise e
             | inr r =>
                 set_reader (Some r) >>
                 emit (Info ("Successfully loaded the file: " +:+ p))
             end
         end
     end)
    (fun e =>
       emit (Error ("Error in loading PDF document: " +:+ str_exn e)) >>
       raise e).

(** The texts of the pages, up to the first whose [extract_text()]
    raises. *)
Fixpoint page_texts (pages : list (pyexn + string)) : pyexn + list string :=
  match pages with
  | [] => inr []
  | inl e :: _ => inl e
  | inr t :: rest =>
      match page_texts rest with
      | inl e => inl e
      | inr ts => inr (t :: ts)
      end
  end.

Definition extract_content : XM unit :=
  try_except
    (r <~ get reader ;;
     match r with
     | None =>
         emit (Error "PDF not loaded. Load the PDF first.") >>
         raise (PyExn "ValueError" "PDF is not loaded.")
     | Some rd =>
         if negb (reader_truth w rd) then
           emit (Error "PDF not loaded. Load the PDF first.") >>
           raise (PyExn "ValueError" "PDF is not loaded.")
         else
           match rd with
           | inl e => raise e
           | inr pages =>
               match page_texts pages with
               | inl e => raise e
               | inr texts =>
                   let text := extract_content_text texts in
                   fp <~ get file_path ;;
                   emit (Info ("Successfully extracted the text from PDF: "
                               +:+ str_opt fp)) >>
                   match fp with
                   | None => attribute_error "stem"
                   | Some p =>
                       let save_file_name :=
                         "data/extracted/" +:+ path_stem w p +:+ ".txt" in
                       let save_file_path := as_path w save_file_name in
                       h <~ get trace ;;
                       match mkdir_parents w h (path_parent w save_file_path) with
                       | Some e => raise e
                       | None =>
                           match write_utf16 w h save_file_path text with
                           | Some e => raise e
                           | None =>
                               emit (WroteText save_file_path text) >>
                               emit (Info ("Successfully stored the raw extracted content of PDF: "
                                           +:+ p +:+ " at " +:+ save_file_name))
                           end
                       end
                   end
               end
           end
     end)
    (fun e =>
       emit (Error ("Unable to extract the content: " +:+ str_exn e)) >>
       raise e).

Definition close_pdf : XM unit :=
  pf <~ get pdf_file ;;
  match pf with
  | Some p =>
      emit (Closed p) >>
      fp <~ get file_path ;;
      emit (Info ("Closed PDF: " +:+ str_opt fp))
  | None => ret tt
  end.

Definition process_single_pdf : XM unit :=
  load_file >> extract_content >> close_pdf.

Definition process_multiple_pdfs : XM unit :=
  try_except
    (dp <~ get dir_path ;;
     match dp with
     | None => attribute_error "is_dir"
     | Some d =>
         h <~ get trace ;;
         if negb (is_dir w h d) then
           raise (PyExn "ValueError"
                    ("Provided directory path is not valid: " +:+ d))
         else
           match listdir w h d with
           | inl e => raise e
           | inr names =>
               set_pdfs (Some names) >>
               emit (Info ("Loaded all PDF documents from directory: " +:+ d)) >>
               for_each names (fun pdf =>
                 set_file_path (Some (joinpath w d pdf)) >>
                 process_single_pdf) >>
               emit (Info "Successfully extracted content from all PDF documents.")
           end
     end)
    (fun e =>
       emit (Error ("Error while processing PDFs in directory: " +:+ str_exn e)) >>
       raise e).

Definition process : XM unit :=
  try_except
    (fp <~ get file_path ;;
     dp <~ get dir_path ;;
     if negb (bool_decide (is_Some fp)) && negb (bool_decide (is_Some dp)) then
       raise (PyExn "ValueError"
                "Either 'file_path' or 'dir_path' must be provided.")
     else if bool_decide (is_Some dp) then
       validate_arguments >> process_multiple_pdfs
     else if bool_decide (is_Some fp) then
       validate_arguments >> process_single_pdf
     else
       raise (PyExn "ValueError"
                "Both 'file_path' and 'dir_path' cannot be passed simultaneously."))
    (fun e => emit (Error ("Error in processing: " +:+ str_exn e)) >> raise e).

End Methods.

End PDFExtractor.

(** * The vocabulary of the properties *)

(** The node a heading or paragraph of page [k] gives rise to. *)
Definition born (ttl : string) (cnt : option string) (ty : NodeType)
    (i p k : nat) : TextNode :=
  mkTextNode ttl cnt ty i (Some p) [] [k] [].

(** The store once node [i] hangs under [p]. *)
Definition attach (p i : nat) (n : TextNode) (nm : gmap nat TextNode)
    : gmap nat TextNode :=
  <[i := n]> (alter (append_child i) p nm).

(** Names in the store were all drawn from the supply already. *)
Definition fresh (s : State) : Prop :=
  ∀ i, is_Some (node_map s !! i) → i < uuid_next s.

Ltac run_py :=
  unfold bind, ret, raise, get, modify, emit, uuid4, set_node_map, set_root,
    set_current_chapter, set_current_section, try_except; simpl.

Global Arguments add_node : simpl never.
Global Arguments attach : simpl never.

(** The level a node of a given type hangs from. *)
Definition level_above (ty : NodeType) : NodeType :=
  match ty with
  | Leaf => Section
  | Section => Chapter
  | Chapter | Root => Root
  end.

(** What on page [k], of body [text], a node was made from. *)
Definition origin (k : nat) (text : string) (n : TextNode) : Prop :=
  match node_type n with
  | Root => False
  | Chapter =>
      content n = None ∧
      ∃ m, m ∈ chapter_matches text ∧ title n = "Chapter: " +:+ fmt_group m
  | Section =>
      content n = None ∧
      ∃ m, m ∈ section_matches text ∧ title n = "Section: " +:+ fmt_group m
  | Leaf =>
      title n = "Content from page " +:+ Str.of_nat k ∧
      ∃ p, p ∈ paragraphs text ∧ 100 < String.length p ∧ content n = Some p
  end.

(** Node [i] of the tree rooted at [b], when the pages [P] (number and
    content) have been read. *)
Record node_ok (b : nat) (P : list (nat * string)) (nm : gmap nat TextNode)
    (i : nat) (n : TextNode) : Prop := mk_node_ok {
  ok_id : node_id n = i;
  ok_children : ∀ c, c ∈ children n →
      i < c ∧ ∃ cn, nm !! c = Some cn ∧ parent_id cn = Some i;
  ok_root : node_type n = Root →
      i = b ∧ parent_id n = None ∧ page_number n = [] ∧ content n = None;
  ok_inner : node_type n ≠ Root →
      ∃ p pn k pc,
        parent_id n = Some p ∧ b ≤ p ∧ p < i ∧ nm !! p = Some pn ∧
        node_type pn = level_above (node_type n) ∧ i ∈ children pn ∧
        page_number n = [k] ∧ (k, pc) ∈ P ∧ origin k (page_text_of pc) n;
  ok_leaf : node_type n = Leaf → children n = []
}.

Record store_ok (b : nat) (P : list (nat * string)) (nm : gmap nat TextNode)
    (next : nat) : Prop := mk_store_ok {
  so_fresh : ∀ i, is_Some (nm !! i) → i < next;
  so_nodes : ∀ i, b ≤ i → i < next → ∃ n, nm !! i = Some n ∧ node_ok b P nm i n
}.

(** [nm'] holds every node of [nm], changed at most by children appended. *)
Definition grows (nm nm' : gmap nat TextNode) : Prop :=
  ∀ i n, nm !! i = Some n →
    ∃ n', nm' !! i = Some n' ∧
          title n' = title n ∧ content n' = content n ∧
          node_type n' = node_type n ∧ node_id n' = node_id n ∧
          parent_id n' = parent_id n ∧ page_number n' = page_number n ∧
          metadata n' = metadata n ∧ children n `prefix_of` children n'.

(** The state while the document rooted at [b] is built: [nm0] and [ev0]
    are the store and the events when the build began, [P] the pages. *)
Record building (b : nat) (P : list (nat * string))
    (nm0 : gmap nat TextNode) (ev0 : list event) (s : State) : Prop :=
  mk_building {
  bd_store : store_ok b P (node_map s) (uuid_next s);
  bd_root : root s = Some b;
  bd_root_node : ∃ rn, node_map s !! b = Some rn ∧ node_type rn = Root;
  bd_chapter : ∀ c, current_chapter s = Some c →
      b ≤ c ∧ ∃ n, node_map s !! c = Some n ∧ node_type n = Chapter;
  bd_section : ∀ c, current_section s = Some c →
      b ≤ c ∧ ∃ n, node_map s !! c = Some n ∧ node_type n = Section;
  bd_old : ∀ i, i < b → node_map s !! i = nm0 !! i;
  bd_events : events s = ev0
}.

(** The pages [create_textbook_structure] walks through. *)
Definition pages_of (cnt : string) : list (nat * string) :=
  enumerate 1 (tail (Str.split "[PAGE_" cnt)).

(** The state once the root of a document titled [ttl] is in place and the
    cursors are unset. *)
Definition rooted (s : State) (ttl : string) : State :=
  mkState (S (uuid_next s)) (Some (uuid_next s))
    (<[uuid_next s := mkTextNode ttl None Root (uuid_next s) None [] [] []]>
       (node_map s))
    None None (events s).

Definition evolves (s s' : State) : Prop :=
  fresh s →
  fresh s' ∧ grows (node_map s) (node_map s') ∧ uuid_next s ≤ uuid_next s'.

Definition steady {A} (m : M A) : Prop := ∀ s, evolves s (m s).2.

(** [i] is the root [r] or one of its descendants. *)
Inductive in_tree (nm : gmap nat TextNode) (r : nat) : nat → Prop :=
| in_tree_root : in_tree nm r r
| in_tree_child p n c :
    in_tree nm r p → nm !! p = Some n → c ∈ children n → in_tree nm r c.

(** The number of nodes of a serialized tree. *)
Fixpoint jsize (j : JNode) : nat :=
  match j with
  | JN _ _ _ _ _ _ _ cs => S (list_sum (map jsize cs))
  end.

(** The serialized tree under the node a computation returned. *)
Definition tree_of (r : (exn + nat) * State) : option JNode :=
  match r with
  | (inr i, s) => node_to_dict recursion_limit (node_map s) i
  | (inl _, _) => None
  end.

Definition scenario : string :=
  "[PAGE_1]" +:+ Str.nl +:+ "Chapter 1: Intro" +:+ Str.nl +:+
  "1. Overview" +:+ Str.nl +:+
  "This is a long enough paragraph that exceeds one hundred characters in total length to qualify as a leaf node under the rules described above."
  +:+ Str.nl.

Definition marker_five : string :=
  "[PAGE_5]" +:+ Str.nl +:+ "Chapter 1: Intro" +:+ Str.nl.

(** [attach] for each element of [xs] in turn, with names from [i] on. *)
Fixpoint attach_all {A} (mk : nat → A → TextNode) (p i : nat) (xs : list A)
    (nm : gmap nat TextNode) : gmap nat TextNode :=
  match xs with
  | [] => nm
  | x :: xs' => attach_all mk p (S i) xs' (attach p i (mk i x) nm)
  end.

Definition chapter_node (r k i : nat) (m : Re.rmatch) : TextNode :=
  born ("Chapter: " +:+ fmt_group m) None Chapter i r k.

Definition section_node (ch k i : nat) (m : Re.rmatch) : TextNode :=
  born ("Section: " +:+ fmt_group m) None Section i ch k.

Definition leaf_node (sec k i : nat) (para : string) : TextNode :=
  born ("Content from page " +:+ Str.of_nat k) (Some para) Leaf i sec k.

(** Where a cursor stands after a loop that moved it to each new node. *)
Definition moved_to {A} (i : nat) (xs : list A) (old : option nat) : option nat :=
  match xs with
  | [] => old
  | _ :: _ => Some (i + length xs - 1)
  end.

(** The paragraphs of a page that become leaves. *)
Definition substantial (text : string) : list string :=
  filter (fun p => 100 < String.length p) (paragraphs text).

(** [children] extended by [cs]. *)
Definition append_children (cs : list nat) (n : TextNode) : TextNode :=
  mkTextNode (title n) (content n) (node_type n) (node_id n) (parent_id n)
    (children n ++ cs) (page_number n) (metadata n).

(** A state whose only node is a root named 0. *)
Definition lone_root : State :=
  mkState 1 (Some 0) {[0 := mkTextNode "Book" None Root 0 None [] [] []]}
    None None [].

(** The state after one leaf for [para] was attached under [sec]. *)
Definition with_leaf (s : State) (sec k : nat) (para : string) : State :=
  mkState (S (uuid_next s)) (root s)
    (attach sec (uuid_next s) (leaf_node sec k (uuid_next s) para) (node_map s))
    (current_chapter s) (current_section s) (events s).

(** A document whose first page opens chapter 1 and section 1.1, and the
    state the builder of a new processor ends in on it: the root is node 0,
    the chapter node 1, the section node 2, and both cursors are set. *)
Definition one_section : string :=
  "[PAGE_1]" +:+ Str.nl +:+ "Chapter 1: Intro" +:+ Str.nl +:+
  "1.1 Overview" +:+ Str.nl.

Definition in_section : State :=
  Eval vm_compute in
    (create_textbook_structure "Book" one_section (new_processor 0 [])).2.

Fixpoint replicate_char (n : nat) (c : ascii) : string :=
  match n with
  | O => EmptyString
  | S n' => String c (replicate_char n' c)
  end.

(** A second page that opens chapter 2 and goes on, after a blank line,
    with a paragraph of 120 characters, without any section heading. *)
Definition page_two : string :=
  "2]" +:+ Str.nl +:+ "Chapter 2: Next" +:+ Str.nl +:+ Str.nl +:+
  replicate_char 120 "x" +:+ Str.nl.

Module ReVocab.
Import Re.

(** Every character of [s] satisfies [P]. *)
Fixpoint all_of (P : ascii → bool) (s : string) : bool :=
  match s with
  | EmptyString => true
  | String c s' => P c && all_of P s'
  end.

(** The character before the position reached after [s]. *)
Fixpoint last_of (p : option ascii) (s : string) : option ascii :=
  match s with
  | EmptyString => p
  | String c s' => last_of (Some c) s'
  end.

(** The next character, if any, is not in the class. *)
Definition stops (icase : bool) (c : cclass) (s : string) : Prop :=
  match s with
  | EmptyString => True
  | String a _ => accepts icase c a = false
  end.

(** [r] read from [m] reaches [m'], and this is the first way the
    matcher tries: if what follows succeeds at [m'], that is the
    result. *)
Definition leads (icase : bool) (r : regex) (m m' : cursor) : Prop :=
  ∀ k res, k m' = Some res → run icase r k m = Some res.

Definition is_digit_opt (o : option ascii) : bool :=
  match o with Some c => Chars.is_digit c | None => false end.

Definition not_dot (c : ascii) : bool := negb (Ascii.eqb c ".").

End ReVocab.

Definition numbered_title : string := "1. Title" +:+ Str.nl.

(** How many nested calls [node_to_dict] needs at a node of a given type. *)
Definition depth_of (ty : NodeType) : nat :=
  match ty with
  | Leaf => 1
  | Section => 2
  | Chapter => 3
  | Root => 4
  end.

Global Arguments save_to_file : simpl never.
Global Arguments create_textbook_structure : simpl never.

(** The files written, in order. *)
Definition wrote_paths (evs : list event) : list string :=
  omap (fun e => match e with Wrote p _ => Some p | _ => None end) evs.

Section BatchVocab.
Variable stem : string → string.
Variable path_join : string → string → string.
Variable env : Env.
Variable output_dir : string.

(** Where the record of a document goes. *)
Definition output_path (txt_path : string) : string :=
  path_join output_dir (stem txt_path +:+ "_structure.json").

(** Nothing stands in the way of this document. *)
Definition doc_ok (txt_path : string) : bool :=
  makedirs_ok env output_dir
  && match file_at env txt_path with Text _ => true | _ => false end
  && writable env (output_path txt_path).

End BatchVocab.

(** [s] with more events. *)
Definition logged (s : State) (more : list event) : State :=
  mkState (uuid_next s) (root s) (node_map s) (current_chapter s)
    (current_section s) (events s ++ more).

(** Cursors, or parents, at the same offset from the roots [b1], [b2]. *)
Definition same_offset (b1 b2 : nat) (o1 o2 : option nat) : Prop :=
  match o1, o2 with
  | Some c1, Some c2 => b1 ≤ c1 ∧ b2 ≤ c2 ∧ c1 - b1 = c2 - b2
  | None, None => True
  | _, _ => False
  end.

Record alike (b1 b2 : nat) (n1 n2 : TextNode) : Prop := mk_alike {
  al_title : title n1 = title n2;
  al_content : content n1 = content n2;
  al_type : node_type n1 = node_type n2;
  al_pages : page_number n1 = page_number n2;
  al_metadata : metadata n1 = metadata n2;
  al_parent : same_offset b1 b2 (parent_id n1) (parent_id n2);
  al_children : ∃ cs, children n1 = (fun o => b1 + o) <$> cs ∧
                      children n2 = (fun o => b2 + o) <$> cs
}.

Record in_step (b1 b2 : nat) (s1 s2 : State) : Prop := mk_in_step {
  st_b1 : b1 ≤ uuid_next s1;
  st_b2 : b2 ≤ uuid_next s2;
  st_len : uuid_next s1 - b1 = uuid_next s2 - b2;
  st_chapter : same_offset b1 b2 (current_chapter s1) (current_chapter s2);
  st_section : same_offset b1 b2 (current_section s1) (current_section s2);
  st_nodes : ∀ o, o < uuid_next s1 - b1 →
      ∃ n1 n2, node_map s1 !! (b1 + o) = Some n1 ∧
               node_map s2 !! (b2 + o) = Some n2 ∧ alike b1 b2 n1 n2
}.

(** Two builds of the same pages, in step. *)
Definition twin_builds (b1 b2 : nat) (P : list (nat * string))
    (nm1 nm2 : gmap nat TextNode) (ev1 ev2 : list event)
    (s1 s2 : State) : Prop :=
  building b1 P nm1 ev1 s1 ∧ building b2 P nm2 ev2 s2 ∧
  in_step b1 b2 s1 s2.

(** A serialized tree without its names: [node_id] and [parent_id] are
    blanked throughout. *)
Fixpoint erase_ids (j : JNode) : JNode :=
  match j with
  | JN t c ty _ _ pg md cs => JN t c ty 0 None pg md (map erase_ids cs)
  end.

(** A small file system: "a.txt" and "c.txt" exist, "b.txt" does not. *)
Definition demo_stem (p : string) : string :=
  Str.take (String.length p - 4) p.

Definition demo_join (d f : string) : string := d +:+ "/" +:+ f.

Definition demo_env : Env :=
  mkEnv (fun p => if String.eqb p "a.txt" then Text marker_five
                  else if String.eqb p "c.txt" then Text one_section
                  else NoFile)
        (fun _ => true) (fun _ => true).

Definition demo_run (txt_paths : list string) : State :=
  (process_textbooks demo_stem demo_join demo_env txt_paths "out" 0 []).2.

(** The number of levels of a serialized tree. *)
Fixpoint jdepth (j : JNode) : nat :=
  match j with
  | JN _ _ _ _ _ _ _ cs => S (foldr Nat.max 0 (map jdepth cs))
  end.

(** The type a child of a node of type [ty] has; a leaf has no child. *)
Definition child_type (ty : NodeType) : option NodeType :=
  match ty with
  | Root => Some Chapter
  | Chapter => Some Section
  | Section => Some Leaf
  | Leaf => None
  end.

(** A page with a section heading and a long paragraph, but no chapter. *)
Definition chapterless : string :=
  "[PAGE_1]" +:+ Str.nl +:+ "1.1 Overview" +:+ Str.nl +:+ Str.nl +:+
  replicate_char 120 "x" +:+ Str.nl.

(** A page that opens two chapters and, between them, a section. *)
Definition two_chapters : string :=
  "1]" +:+ Str.nl +:+ "Chapter 1: One" +:+ Str.nl +:+ "1.1 First" +:+ Str.nl +:+
  "Chapter 2: Two" +:+ Str.nl.

(** [c in s], for a character. *)
Fixpoint has_char (c : ascii) (s : string) : bool :=
  match s with
  | EmptyString => false
  | String a s' => Ascii.eqb c a || has_char c s'
  end.

(** The page texts as the builder gets them back: the newline that opens
    the next marker stays with the page before it. *)
Fixpoint page_bodies (page_texts : list string) : list string :=
  match page_texts with
  | [] => []
  | p :: ps =>
      match ps with
      | [] => [p]
      | _ :: _ => (p +:+ Str.nl) :: page_bodies ps
      end
  end.

(** The pieces [split("[PAGE_")] finds after the first marker. *)
Fixpoint marked_pieces (k : nat) (page_texts : list string) : list string :=
  match page_texts with
  | [] => []
  | p :: ps =>
      match ps with
      | [] => [Str.of_nat k +:+ "]" +:+ Str.nl +:+ p]
      | _ :: _ =>
          ((Str.of_nat k +:+ "]" +:+ Str.nl +:+ p) +:+ Str.nl)
          :: marked_pieces (S k) ps
      end
  end.

(** A text with two headings ahead of its only marker. *)
Definition with_preamble : string :=
  "Chapter 9: Lost" +:+ Str.nl +:+ "[PAGE_1]" +:+ Str.nl
  +:+ "Chapter 1: Kept" +:+ Str.nl.

(** What the three loops of a page do to the state, as functions: the
    chapter headings hang from the root [r], the section headings from the
    chapter then current, the long paragraphs from the section then
    current. *)
Definition chapters_effect (r k : nat) (text : string) (s : State) : State :=
  mkState (uuid_next s + length (chapter_matches text)) (root s)
    (attach_all (chapter_node r k) r (uuid_next s) (chapter_matches text)
       (node_map s))
    (moved_to (uuid_next s) (chapter_matches text) (current_chapter s))
    (current_section s) (events s).

Definition sections_effect (k : nat) (text : string) (s : State) : State :=
  match current_chapter s with
  | Some ch =>
      mkState (uuid_next s + length (section_matches text)) (root s)
        (attach_all (section_node ch k) ch (uuid_next s) (section_matches text)
           (node_map s))
        (current_chapter s)
        (moved_to (uuid_next s) (section_matches text) (current_section s))
        (events s)
  | None => s
  end.

Definition leaves_effect (k : nat) (text : string) (s : State) : State :=
  match current_section s with
  | Some sec =>
      mkState (uuid_next s + length (substantial text)) (root s)
        (attach_all (leaf_node sec k) sec (uuid_next s) (substantial text)
           (node_map s))
        (current_chapter s) (current_section s) (events s)
  | None => s
  end.

Definition page_effect (r k : nat) (text : string) (s : State) : State :=
  leaves_effect k text (sections_effect k text (chapters_effect r k text s)).

Definition read_pages (r : nat) (P : list (nat * string)) (s : State) : State :=
  foldl (fun st kp => page_effect r kp.1 (page_text_of kp.2) st) s P.

(** The state between two pages of the document rooted at [r]. *)
Record ready (r : nat) (s : State) : Prop := mk_ready {
  rd_fresh : fresh s;
  rd_root : root s = Some r;
  rd_root_node : is_Some (node_map s !! r);
  rd_chapter : ∀ c, current_chapter s = Some c → r < c ∧ is_Some (node_map s !! c);
  rd_section : ∀ c, current_section s = Some c → r < c ∧ is_Some (node_map s !! c)
}.

(** The chapter headings of the pages [P], in reading order, each with the
    number of its page and the title its node gets. *)
Definition chapter_headings (P : list (nat * string)) : list (nat * string) :=
  flat_map (fun kp : nat * string =>
              map (fun m => (kp.1, "Chapter: " +:+ fmt_group m))
                (chapter_matches (page_text_of kp.2))) P.

(** Node [c] is the chapter made from heading [h], under the root [r]. *)
Definition is_chapter_of (nm : gmap nat TextNode) (r c : nat)
    (h : nat * string) : Prop :=
  ∃ cn, nm !! c = Some cn ∧ node_type cn = Chapter ∧ parent_id cn = Some r ∧
        title cn = h.2 ∧ page_number cn = [h.1] ∧ content cn = None.

Definition three_chapters : string :=
  "[PAGE_1]" +:+ Str.nl +:+ "Chapter 1: One" +:+ Str.nl +:+
  "[PAGE_2]" +:+ Str.nl +:+ "no heading here" +:+ Str.nl +:+
  "[PAGE_3]" +:+ Str.nl +:+ "Chapter 2: Two" +:+ Str.nl +:+
  "Chapter 3: Three" +:+ Str.nl.

(** The [node_id]s of a serialized tree, parents ahead of children. *)
Fixpoint jids (j : JNode) : list nat :=
  match j with
  | JN _ _ _ i _ _ _ cs => i :: concat (map jids cs)
  end.

(** From [b] on, no node lists a child twice, or one not yet made. *)
Definition tidy (b : nat) (nm : gmap nat TextNode) (next : nat) : Prop :=
  ∀ i n, b ≤ i → nm !! i = Some n →
    NoDup (children n) ∧ ∀ c, c ∈ children n → c < next.

Definition is_space_opt (o : option ascii) : bool :=
  match o with Some c => Chars.is_space c | None => false end.

(** Neither the first nor the last character of [s] is whitespace. *)
Definition trimmed (s : string) : bool :=
  negb (is_space_opt (Re.next_char s))
  && negb (is_space_opt (ReVocab.last_of None s)).

(** A page with a chapter, a section and one long paragraph set off by
    blanks, and the state the builder of a new processor ends in on it. *)
Definition padded_page : string :=
  "[PAGE_1]" +:+ Str.nl +:+ "Chapter 1: Intro" +:+ Str.nl +:+
  "1.1 Overview" +:+ Str.nl +:+ Str.nl +:+
  "  " +:+ replicate_char 120 "x" +:+ "  " +:+ Str.nl.

Definition after_padded_page : State :=
  Eval vm_compute in
    (create_textbook_structure "Book" padded_page (new_processor 0 [])).2.

(** What a stretch of the extractor's trace did to files: the PDFs opened,
    the PDFs closed, the text files written, each in order. *)
Definition opened (evs : list PDFExtractor.xevent) : list string :=
  omap (fun e => match e with PDFExtractor.Opened p => Some p | _ => None end) evs.

Definition closed (evs : list PDFExtractor.xevent) : list string :=
  omap (fun e => match e with PDFExtractor.Closed p => Some p | _ => None end) evs.

Definition written (evs : list PDFExtractor.xevent) : list (string * string) :=
  omap (fun e => match e with
                 | PDFExtractor.WroteText p t => Some (p, t)
                 | _ => None
                 end) evs.

(** Where the text of a PDF goes. *)
Definition text_path (w : PDFExtractor.World) (pdf : string) : string :=
  PDFExtractor.as_path w
    ("data/extracted/" +:+ PDFExtractor.path_stem w pdf +:+ ".txt").

(** What [validate_arguments] lets through. *)
Definition arguments_valid (w : PDFExtractor.World) (s : PDFExtractor.Extractor)
    : bool :=
  match PDFExtractor.file_path s with
  | Some p =>
      PDFExtractor.is_file w (PDFExtractor.trace s) p
      && PDFExtractor.has_pdf_suffix w p
  | None =>
      match PDFExtractor.dir_path s with
      | Some d => PDFExtractor.is_dir w (PDFExtractor.trace s) d
      | None => false
      end
  end.

(** [s] with one more event. *)
Definition with_event (s : PDFExtractor.Extractor) (e : PDFExtractor.xevent)
    : PDFExtractor.Extractor :=
  PDFExtractor.mkExtractor (PDFExtractor.file_path s) (PDFExtractor.dir_path s)
    (PDFExtractor.pdfs s) (PDFExtractor.pdf_file s) (PDFExtractor.reader s)
    (PDFExtractor.trace s ++ [e]).

(** A directory of three entries, the second of which cannot be read as a
    PDF; the others have one page each. *)
Definition demo_world : PDFExtractor.World :=
  PDFExtractor.mkWorld
    (fun p => p)
    (fun _ _ => false)
    (fun _ _ => true)
    (fun _ => true)
    (fun _ _ => inr ["a.pdf"; "notes.txt"; "c.pdf"])
    (fun d n => d +:+ "/" +:+ n)
    (fun p => p)
    (fun _ => "data/extracted")
    (fun _ _ => None)
    (fun _ p => if String.eqb p "pdfs/notes.txt"
                then inl (PDFExtractor.PyExn "PdfReadError" "EOF marker not found")
                else inr (inr [inr "Chapter 1: One"]))
    (fun _ => true)
    (fun _ _ => None)
    (fun _ _ _ => None).

(** A page whose long paragraph stands ahead of its two section
    headings. *)
Definition paragraph_first : string :=
  "1]" +:+ Str.nl +:+ replicate_char 120 "x" +:+ Str.nl +:+ Str.nl +:+
  "1.1 First" +:+ Str.nl +:+ "1.2 Second" +:+ Str.nl.

(** * Properties *)

(** ** The store after a node is attached *)

Lemma add_node_found s p ttl cnt ty :
  is_Some (node_map s !! p) →
  add_node p ttl cnt ty s =
    (inr (uuid_next s),
     mkState (S (uuid_next s)) (root s)
       (attach p (uuid_next s)
          (mkTextNode ttl cnt ty (uuid_next s) (Some p) [] [] []) (node_map s))
       (current_chapter s) (current_section s) (events s)).
Proof.
  intros [n Hn]. unfold add_node. run_py. rewrite Hn. reflexivity.
Qed.

Lemma add_node_missing s p ttl cnt ty :
  node_map s !! p = None →
  add_node p ttl cnt ty s =
    (inl (ValueError ("Parent node " +:+ Str.of_nat p +:+ " not found")),
     mkState (uuid_next s) (root s) (node_map s) (current_chapter s)
       (current_section s)
       (events s ++ [LogError ("Parent node " +:+ Str.of_nat p +:+ " not found.")])).
Proof.
  intros Hn. unfold add_node. run_py. rewrite Hn. reflexivity.
Qed.

Lemma alter_attach k p i n nm :
  alter (append_page k) i (attach p i n nm) = attach p i (append_page k n) nm.
Proof. unfold attach. by rewrite alter_insert_eq. Qed.

Lemma chapter_step_eq s k m r :
  root s = Some r → is_Some (node_map s !! r) →
  chapter_step k m s =
    (inr tt,
     mkState (S (uuid_next s)) (root s)
       (attach r (uuid_next s)
          (born ("Chapter: " +:+ fmt_group m) None Chapter (uuid_next s) r k)
          (node_map s))
       (Some (uuid_next s)) (current_section s) (events s)).
Proof.
  intros Hr Hn. unfold chapter_step, root_node_id. run_py. rewrite Hr.
  rewrite add_node_found by done. run_py. by rewrite alter_attach, ?Hr.
Qed.

Lemma section_step_eq s k m ch :
  current_chapter s = Some ch → is_Some (node_map s !! ch) →
  section_step k m s =
    (inr tt,
     mkState (S (uuid_next s)) (root s)
       (attach ch (uuid_next s)
          (born ("Section: " +:+ fmt_group m) None Section (uuid_next s) ch k)
          (node_map s))
       (current_chapter s) (Some (uuid_next s)) (events s)).
Proof.
  intros Hr Hn. unfold section_step. run_py. rewrite Hr.
  rewrite add_node_found by done. run_py. by rewrite alter_attach, ?Hr.
Qed.

Lemma paragraph_step_long s k para sec :
  100 < String.length para →
  current_section s = Some sec → is_Some (node_map s !! sec) →
  paragraph_step k para s =
    (inr tt,
     mkState (S (uuid_next s)) (root s)
       (attach sec (uuid_next s)
          (born ("Content from page " +:+ Str.of_nat k) (Some para) Leaf
             (uuid_next s) sec k)
          (node_map s))
       (current_chapter s) (current_section s) (events s)).
Proof.
  intros Hlen Hr Hn. unfold paragraph_step.
  destruct (Nat.ltb_spec 100 (String.length para)); [|lia].
  run_py. rewrite Hr.
  rewrite add_node_found by done. run_py. by rewrite alter_attach, ?Hr.
Qed.

Lemma paragraph_step_short s k para :
  String.length para ≤ 100 → paragraph_step k para s = (inr tt, s).
Proof.
  intros Hlen. unfold paragraph_step.
  destruct (Nat.ltb_spec 100 (String.length para)); [lia|done].
Qed.

Lemma lookup_attach_new p i n nm : attach p i n nm !! i = Some n.
Proof. unfold attach. by rewrite lookup_insert_eq. Qed.

Lemma lookup_attach_old p i n nm j :
  j ≠ i →
  attach p i n nm !! j =
    (if decide (j = p) then append_child i else id) <$> nm !! j.
Proof.
  intros Hj. unfold attach. rewrite lookup_insert_ne by done.
  destruct (decide (j = p)) as [->|].
  - by rewrite lookup_alter_eq.
  - rewrite lookup_alter_ne by done. by destruct (nm !! j).
Qed.

Lemma lookup_attach_Some p i n nm j x :
  j ≠ i → nm !! j = Some x →
  ∃ x', attach p i n nm !! j = Some x' ∧
        title x' = title x ∧ content x' = content x ∧
        node_type x' = node_type x ∧ node_id x' = node_id x ∧
        parent_id x' = parent_id x ∧ page_number x' = page_number x ∧
        (∀ c, c ∈ children x' ↔ c ∈ children x ∨ (j = p ∧ c = i)) ∧
        (j ≠ p → x' = x) ∧ (j = p → x' = append_child i x).
Proof.
  intros Hj Hx. rewrite lookup_attach_old, Hx by done. simpl.
  destruct (decide (j = p)) as [->|].
  - eexists; split; [done|]. simpl. repeat split; try done.
    + rewrite elem_of_app, list_elem_of_singleton. intros [?|?]; auto.
    + rewrite elem_of_app, list_elem_of_singleton. intros [?|[_ ?]]; auto.
  - eexists; split; [done|]. simpl. repeat split; try done; tauto.
Qed.

(** ** The shape of the store while a document is built *)

Lemma level_above_not_leaf ty : level_above ty ≠ Leaf.
Proof. by destruct ty. Qed.

Lemma node_ok_attach b P nm next p pn i n n' x :
  (∀ j, is_Some (nm !! j) → j < next) →
  nm !! p = Some pn → node_type pn ≠ Leaf →
  parent_id x = Some p →
  i ≠ next → nm !! i = Some n → attach p next x nm !! i = Some n' →
  node_ok b P nm i n → node_ok b P (attach p next x nm) i n'.
Proof.
  intros Hfresh Hp Hty Hx Hi Hn Hn' [Hid Hch Hroot Hin Hleaf].
  destruct (lookup_attach_Some p next x nm i n Hi Hn)
    as (n'' & Hn'' & Ht & Hc & Hnt & Hnid & Hpar & Hpg & Hkids & Hne & Heq).
  rewrite Hn' in Hn''. injection Hn'' as <-.
  split.
  - congruence.
  - intros c [Hc'|[-> ->]]%Hkids.
    + destruct (Hch c Hc') as (Hlt & cn & Hcn & Hcp). split; [done|].
      assert (c ≠ next) as Hcne by (specialize (Hfresh c (mk_is_Some _ _ Hcn)); lia).
      destruct (lookup_attach_Some p next x nm c cn Hcne Hcn)
        as (cn' & -> & _ & _ & _ & _ & Hcp' & _).
      exists cn'. split; [done|congruence].
    + split; [specialize (Hfresh p (mk_is_Some _ _ Hp)); lia|].
      exists x. by rewrite lookup_attach_new.
  - rewrite Hnt, Hpar, Hpg, Hc. done.
  - rewrite Hnt. intros Hnr.
    destruct (Hin Hnr) as (q & qn & k & pc & Hq & Hbq & Hqi & Hqn & Hqt & Hiq & Hk & HP & Ho).
    assert (q ≠ next) as Hqne
      by (specialize (Hfresh q (mk_is_Some _ _ Hqn)); lia).
    destruct (lookup_attach_Some p next x nm q qn Hqne Hqn)
      as (qn' & Hqn' & _ & _ & Hqt' & _ & _ & _ & Hqkids & _).
    exists q, qn', k, pc. rewrite Hpar, Hpg, Hqt'. repeat split; try done.
    + apply Hqkids. by left.
    + revert Ho. unfold origin. by rewrite Hnt, Ht, Hc.
  - rewrite Hnt. intros Hl. destruct (decide (i = p)) as [->|Hip].
    + congruence.
    + rewrite (Hne Hip). by apply Hleaf.
Qed.

Lemma store_ok_attach b P nm next p pn ttl cnt ty k pc :
  store_ok b P nm next →
  b ≤ p → nm !! p = Some pn → node_type pn = level_above ty → ty ≠ Root →
  (k, pc) ∈ P → origin k (page_text_of pc) (born ttl cnt ty next p k) →
  store_ok b P (attach p next (born ttl cnt ty next p k) nm) (S next).
Proof.
  intros [Hfresh Hnodes] Hbp Hp Hty Hnr HP Ho.
  assert (p < next) as Hpn by (apply Hfresh; eauto).
  split.
  - intros i Hi. destruct (decide (i = next)) as [->|Hne]; [lia|].
    rewrite lookup_attach_old in Hi by done.
    apply fmap_is_Some, Hfresh in Hi. lia.
  - intros i Hbi Hi. destruct (decide (i = next)) as [->|Hne].
    + eexists. split; [apply lookup_attach_new|]. split; simpl.
      * done.
      * intros c Hc. by apply elem_of_nil in Hc.
      * done.
      * intros _.
        destruct (lookup_attach_Some p next (born ttl cnt ty next p k) nm p pn)
          as (pn' & Hpn' & _ & _ & Hpt & _ & _ & _ & Hkids & _); [lia|done|].
        exists p, pn', k, pc. repeat split; try done.
        -- congruence.
        -- apply Hkids. by right.
      * done.
    + destruct (Hnodes i Hbi) as (n & Hn & Hok); [lia|].
      destruct (lookup_attach_Some p next (born ttl cnt ty next p k) nm i n Hne Hn)
        as (n' & Hn' & _).
      exists n'. split; [done|].
      eapply node_ok_attach; eauto.
      rewrite Hty. apply level_above_not_leaf.
Qed.

Lemma grows_refl nm : grows nm nm.
Proof. intros i n Hn. exists n. repeat split; done. Qed.

Lemma grows_trans nm1 nm2 nm3 : grows nm1 nm2 → grows nm2 nm3 → grows nm1 nm3.
Proof.
  intros H12 H23 i n Hn.
  destruct (H12 i n Hn) as (n2 & Hn2 & ? & ? & ? & ? & ? & ? & ? & ?).
  destruct (H23 i n2 Hn2) as (n3 & Hn3 & ? & ? & ? & ? & ? & ? & ? & ?).
  exists n3. repeat split; try congruence. by etrans.
Qed.

Lemma grows_attach p i x nm :
  (∀ j, is_Some (nm !! j) → j < i) → grows nm (attach p i x nm).
Proof.
  intros Hfresh j n Hn.
  assert (j ≠ i) as Hne by (specialize (Hfresh j (mk_is_Some _ _ Hn)); lia).
  rewrite lookup_attach_old, Hn by done. simpl.
  eexists. split; [done|]. destruct (decide (j = p)); simpl; repeat split; try done.
  by apply prefix_app_r.
Qed.

Lemma typed_after_attach p i x nm c n ty :
  (∀ j, is_Some (nm !! j) → j < i) →
  nm !! c = Some n → node_type n = ty →
  ∃ n', attach p i x nm !! c = Some n' ∧ node_type n' = ty.
Proof.
  intros Hfresh Hn Hty.
  assert (c ≠ i) as Hne by (specialize (Hfresh c (mk_is_Some _ _ Hn)); lia).
  destruct (lookup_attach_Some p i x nm c n Hne Hn) as (n' & Hn' & _ & _ & Ht & _).
  exists n'. split; [done|congruence].
Qed.

(** Attaching a node keeps the state well-formed, whichever cursor is then
    moved to it. *)
Lemma building_attach b P nm0 ev0 s p pn ttl cnt ty k pc cc cs :
  building b P nm0 ev0 s →
  b ≤ p → node_map s !! p = Some pn → node_type pn = level_above ty →
  ty ≠ Root →
  (k, pc) ∈ P → origin k (page_text_of pc) (born ttl cnt ty (uuid_next s) p k) →
  (cc = current_chapter s ∨ (cc = Some (uuid_next s) ∧ ty = Chapter)) →
  (cs = current_section s ∨ (cs = Some (uuid_next s) ∧ ty = Section)) →
  building b P nm0 ev0
    (mkState (S (uuid_next s)) (root s)
       (attach p (uuid_next s) (born ttl cnt ty (uuid_next s) p k) (node_map s))
       cc cs (events s)).
Proof.
  intros [Hst Hroot (rn & Hrn & Hrt) Hch Hsec Hold Hev] Hbp Hp Hty Hnr HP Ho Hcc Hcs.
  pose proof (so_fresh _ _ _ _ Hst) as Hfresh.
  assert (p < uuid_next s) by (apply Hfresh; eauto).
  split; simpl.
  - eapply store_ok_attach; eauto.
  - done.
  - destruct (typed_after_attach p (uuid_next s)
                (born ttl cnt ty (uuid_next s) p k) _ b rn Root Hfresh Hrn Hrt)
      as (rn' & ? & ?). eauto.
  - intros c Hc. destruct Hcc as [->|[-> ->]].
    + destruct (Hch c Hc) as (Hbc & n & Hn & Hnt). split; [done|].
      eapply typed_after_attach; eauto.
    + injection Hc as <-. split; [lia|]. eexists. split; [apply lookup_attach_new|done].
  - intros c Hc. destruct Hcs as [->|[-> ->]].
    + destruct (Hsec c Hc) as (Hbc & n & Hn & Hnt). split; [done|].
      eapply typed_after_attach; eauto.
    + injection Hc as <-. split; [lia|]. eexists. split; [apply lookup_attach_new|done].
  - intros i Hi. rewrite lookup_attach_old by lia.
    destruct (decide (i = p)); [lia|]. rewrite <- Hold by done.
    by destruct (node_map s !! i).
  - done.
Qed.

Lemma chapter_step_building b P nm0 ev0 s k pc m :
  building b P nm0 ev0 s → (k, pc) ∈ P → m ∈ chapter_matches (page_text_of pc) →
  ∃ s', chapter_step k m s = (inr tt, s') ∧ building b P nm0 ev0 s'.
Proof.
  intros Hb HP Hm. pose proof Hb as [_ Hroot (rn & Hrn & Hrt) _ _ _ _].
  eexists. split; [by apply chapter_step_eq with (r := b)|].
  eapply building_attach; eauto.
  split; [done|]. by exists m.
Qed.

Lemma section_step_building b P nm0 ev0 s k pc m :
  building b P nm0 ev0 s → is_Some (current_chapter s) →
  (k, pc) ∈ P → m ∈ section_matches (page_text_of pc) →
  ∃ s', section_step k m s = (inr tt, s') ∧ building b P nm0 ev0 s'
        ∧ is_Some (current_chapter s').
Proof.
  intros Hb [ch Hch] HP Hm.
  destruct (bd_chapter _ _ _ _ _ Hb ch Hch) as (Hbc & n & Hn & Hnt).
  eexists. split; [by apply section_step_eq with (ch := ch)|]. split.
  - eapply building_attach; eauto.
    split; [done|]. by exists m.
  - simpl. eauto.
Qed.

Lemma paragraph_step_building b P nm0 ev0 s k pc para :
  building b P nm0 ev0 s → is_Some (current_section s) →
  (k, pc) ∈ P → para ∈ paragraphs (page_text_of pc) →
  ∃ s', paragraph_step k para s = (inr tt, s') ∧ building b P nm0 ev0 s'
        ∧ is_Some (current_section s').
Proof.
  intros Hb [sec Hsec] HP Hm.
  destruct (bd_section _ _ _ _ _ Hb sec Hsec) as (Hbc & n & Hn & Hnt).
  destruct (le_lt_dec (String.length para) 100) as [Hshort|Hlong].
  - exists s. rewrite paragraph_step_short by done. eauto.
  - eexists. split; [by apply paragraph_step_long with (sec := sec)|]. split.
    + eapply building_attach; eauto.
      split; [done|]. by exists para.
    + simpl. eauto.
Qed.

(** A loop whose body never raises and keeps [I] runs to its end and
    keeps [I]. *)
Lemma for_each_keeps {A} (I : State → Prop) (xs : list A) (body : A → M unit) :
  (∀ x s, x ∈ xs → I s → ∃ s', body x s = (inr tt, s') ∧ I s') →
  ∀ s, I s → ∃ s', for_each xs body s = (inr tt, s') ∧ I s'.
Proof.
  induction xs as [|x xs IH]; intros Hbody s Hs; simpl.
  - by exists s.
  - destruct (Hbody x s) as (s1 & Hx & Hs1); [left|done|].
    destruct (IH (fun y t Hy => Hbody y t (list_elem_of_further _ _ _ Hy)) s1 Hs1)
      as (s2 & Hxs & Hs2).
    exists s2. unfold bind. rewrite Hx. done.
Qed.

Lemma chapter_phase_building b P nm0 ev0 s k pc :
  building b P nm0 ev0 s → (k, pc) ∈ P →
  ∃ s', chapter_phase k (page_text_of pc) s = (inr tt, s') ∧ building b P nm0 ev0 s'.
Proof.
  intros Hb HP. unfold chapter_phase.
  apply (for_each_keeps (building b P nm0 ev0)); [|done].
  intros m t Hm Ht. by eapply chapter_step_building.
Qed.

Lemma section_phase_building b P nm0 ev0 s k pc :
  building b P nm0 ev0 s → (k, pc) ∈ P →
  ∃ s', section_phase k (page_text_of pc) s = (inr tt, s') ∧ building b P nm0 ev0 s'.
Proof.
  intros Hb HP. unfold section_phase. run_py.
  destruct (current_chapter s) as [ch|] eqn:Hch; [|by exists s].
  destruct (for_each_keeps
              (fun t => building b P nm0 ev0 t ∧ is_Some (current_chapter t))
              (section_matches (page_text_of pc)) (section_step k)) with (s := s)
    as (s' & Hrun & Hs' & _).
  - intros m t Hm [Ht Hc]. destruct (section_step_building _ _ _ _ _ _ _ _ Ht Hc HP Hm)
      as (t' & ? & ? & ?). eauto.
  - rewrite Hch. eauto.
  - eauto.
Qed.

Lemma leaf_phase_building b P nm0 ev0 s k pc :
  building b P nm0 ev0 s → (k, pc) ∈ P →
  ∃ s', leaf_phase k (page_text_of pc) s = (inr tt, s') ∧ building b P nm0 ev0 s'.
Proof.
  intros Hb HP. unfold leaf_phase. run_py.
  destruct (current_section s) as [sec|] eqn:Hsec; [|by exists s].
  destruct (for_each_keeps
              (fun t => building b P nm0 ev0 t ∧ is_Some (current_section t))
              (paragraphs (page_text_of pc)) (paragraph_step k)) with (s := s)
    as (s' & Hrun & Hs' & _).
  - intros m t Hm [Ht Hc]. destruct (paragraph_step_building _ _ _ _ _ _ _ _ Ht Hc HP Hm)
      as (t' & ? & ? & ?). eauto.
  - rewrite Hsec. eauto.
  - eauto.
Qed.

(** No page of a document under construction raises: the handler of the
    page loop is never entered. *)
Lemma page_body_building b P nm0 ev0 s k pc :
  building b P nm0 ev0 s → (k, pc) ∈ P →
  ∃ s', page_body k pc s = (inr tt, s') ∧ building b P nm0 ev0 s'.
Proof.
  intros Hb HP. unfold page_body.
  destruct (chapter_phase_building _ _ _ _ _ _ _ Hb HP) as (s1 & H1 & Hb1).
  destruct (section_phase_building _ _ _ _ _ _ _ Hb1 HP) as (s2 & H2 & Hb2).
  destruct (leaf_phase_building _ _ _ _ _ _ _ Hb2 HP) as (s3 & H3 & Hb3).
  exists s3. unfold bind. by rewrite H1, H2, H3.
Qed.

Lemma process_page_building b P nm0 ev0 s page :
  building b P nm0 ev0 s → page ∈ P →
  ∃ s', process_page page s = (inr tt, s') ∧ building b P nm0 ev0 s'.
Proof.
  intros Hb HP. destruct page as [k pc].
  destruct (page_body_building _ _ _ _ _ _ _ Hb HP) as (s' & Hrun & Hs').
  exists s'. unfold process_page, try_except. simpl. by rewrite Hrun.
Qed.

Lemma create_unfold ttl cnt s :
  create_textbook_structure ttl cnt s
  = bind (for_each (pages_of cnt) process_page) (fun _ => root_node_id)
      (rooted s ttl).
Proof. reflexivity. Qed.

Lemma building_rooted s ttl P :
  fresh s →
  building (uuid_next s) P (node_map s) (events s) (rooted s ttl).
Proof.
  intros Hfresh. set (b := uuid_next s).
  split; simpl; try done.
  - split.
    + intros i Hi. destruct (decide (i = b)) as [->|Hne]; [lia|].
      rewrite lookup_insert_ne in Hi by done. apply Hfresh in Hi. fold b in Hi. lia.
    + intros i Hbi Hi. assert (i = b) as -> by lia.
      eexists. split; [apply lookup_insert_eq|].
      split; simpl; try done. intros c Hc. by apply elem_of_nil in Hc.
  - eexists. split; [apply lookup_insert_eq|done].
  - intros i Hi. rewrite lookup_insert_ne by lia. done.
Qed.

(** The builder returns, with a well-formed tree rooted at a new node, and
    leaves the entries and events it found in place. *)
Lemma create_builds s ttl cnt :
  fresh s →
  ∃ s', create_textbook_structure ttl cnt s = (inr (uuid_next s), s') ∧
        building (uuid_next s) (pages_of cnt) (node_map s) (events s) s'.
Proof.
  intros Hfresh.
  destruct (for_each_keeps
              (building (uuid_next s) (pages_of cnt) (node_map s) (events s))
              (pages_of cnt) process_page) with (s := rooted s ttl)
    as (s' & Hrun & Hs').
  - intros page t Hp Ht. by eapply process_page_building.
  - by apply building_rooted.
  - exists s'. split; [|done].
    rewrite create_unfold. unfold bind. rewrite Hrun.
    unfold root_node_id. run_py. by rewrite (bd_root _ _ _ _ _ Hs').
Qed.

(** ** What any page may do to the nodes already there

    Whatever the state, apart from names being fresh, a turn of the page
    loop returns normally and only appends children to existing nodes. *)

Lemma evolves_refl s : evolves s s.
Proof. intros Hf. split; [done|]. split; [apply grows_refl|done]. Qed.

Lemma evolves_trans s1 s2 s3 : evolves s1 s2 → evolves s2 s3 → evolves s1 s3.
Proof.
  intros H12 H23 Hf. destruct (H12 Hf) as (Hf2 & Hg12 & Hle12).
  destruct (H23 Hf2) as (Hf3 & Hg23 & Hle23).
  split; [done|]. split; [by eapply grows_trans|lia].
Qed.

Lemma evolves_same_store s s' :
  node_map s' = node_map s → uuid_next s' = uuid_next s → evolves s s'.
Proof.
  intros Hnm Hnext Hf. split; [|split].
  - intros i. unfold fresh in Hf. rewrite Hnm, Hnext. apply Hf.
  - rewrite Hnm. apply grows_refl.
  - lia.
Qed.

Lemma evolves_attach s p x cc cs :
  evolves s (mkState (S (uuid_next s)) (root s)
               (attach p (uuid_next s) x (node_map s)) cc cs (events s)).
Proof.
  intros Hf. split; [|split]; unfold fresh; simpl.
  - intros i Hi. destruct (decide (i = uuid_next s)) as [->|Hne]; [lia|].
    rewrite lookup_attach_old in Hi by done.
    apply fmap_is_Some, Hf in Hi. lia.
  - by apply grows_attach.
  - lia.
Qed.

Lemma steady_ret {A} (a : A) : steady (ret a).
Proof. intros s. apply evolves_refl. Qed.

Lemma steady_bind {A B} (m : M A) (k : A → M B) :
  steady m → (∀ a, steady (k a)) → steady (bind m k).
Proof.
  intros Hm Hk s. unfold bind. specialize (Hm s).
  destruct (m s) as [[e|a] s1]; simpl in *; [done|].
  eapply evolves_trans; [done|]. apply Hk.
Qed.

Lemma steady_try_except {A} (m : M A) (h : exn → M A) :
  steady m → (∀ e, steady (h e)) → steady (try_except m h).
Proof.
  intros Hm Hh s. unfold try_except. specialize (Hm s).
  destruct (m s) as [[e|a] s1]; simpl in *; [|done].
  eapply evolves_trans; [done|]. apply Hh.
Qed.

Lemma steady_for_each {A} (xs : list A) (body : A → M unit) :
  (∀ x, steady (body x)) → steady (for_each xs body).
Proof.
  intros Hbody. induction xs as [|x xs IH]; simpl.
  - apply steady_ret.
  - apply steady_bind; [apply Hbody|]. intros _. apply IH.
Qed.

Lemma steady_emit e : steady (emit e).
Proof. intros s. by apply evolves_same_store. Qed.

Lemma steady_chapter_step k m : steady (chapter_step k m).
Proof.
  intros s. destruct (root s) as [r|] eqn:Hr.
  - destruct (node_map s !! r) as [rn|] eqn:Hrn.
    + rewrite (chapter_step_eq s k m r) by eauto. apply evolves_attach.
    + unfold chapter_step, root_node_id. run_py. rewrite Hr.
      rewrite add_node_missing by done. by apply evolves_same_store.
  - unfold chapter_step, root_node_id. run_py. rewrite Hr. apply evolves_refl.
Qed.

Lemma steady_section_step k m : steady (section_step k m).
Proof.
  intros s. destruct (current_chapter s) as [r|] eqn:Hr.
  - destruct (node_map s !! r) as [rn|] eqn:Hrn.
    + rewrite (section_step_eq s k m r) by eauto. apply evolves_attach.
    + unfold section_step. run_py. rewrite Hr.
      rewrite add_node_missing by done. by apply evolves_same_store.
  - unfold section_step. run_py. rewrite Hr. apply evolves_refl.
Qed.

Lemma steady_paragraph_step k para : steady (paragraph_step k para).
Proof.
  intros s. destruct (le_lt_dec (String.length para) 100) as [Hshort|Hlong].
  { rewrite paragraph_step_short by done. apply evolves_refl. }
  destruct (current_section s) as [r|] eqn:Hr.
  - destruct (node_map s !! r) as [rn|] eqn:Hrn.
    + rewrite (paragraph_step_long s k para r) by eauto. apply evolves_attach.
    + unfold paragraph_step. destruct (Nat.ltb_spec 100 (String.length para)); [|lia].
      run_py. rewrite Hr.
      rewrite add_node_missing by done. by apply evolves_same_store.
  - unfold paragraph_step. destruct (Nat.ltb_spec 100 (String.length para)); [|lia].
    run_py. rewrite Hr. apply evolves_refl.
Qed.

Lemma steady_process_page page : steady (process_page page).
Proof.
  unfold process_page. apply steady_try_except; [|intros e; apply steady_emit].
  unfold page_body. apply steady_bind; [|intros _; apply steady_bind].
  - apply steady_for_each, steady_chapter_step.
  - unfold section_phase. intros s. run_py.
    destruct (current_chapter s); [|apply evolves_refl].
    apply (steady_for_each _ _ (steady_section_step _)).
  - intros _. unfold leaf_phase. intros s. run_py.
    destruct (current_section s); [|apply evolves_refl].
    apply (steady_for_each _ _ (steady_paragraph_step _)).
Qed.

(** A turn of the page loop never lets an exception out. *)
Lemma process_page_returns page s : (process_page page s).1 = inr tt.
Proof.
  unfold process_page, try_except.
  destruct (page_body page.1 page.2 s) as [[e|[]] s']; done.
Qed.

(** ** The tree under a root *)

Lemma in_tree_range b P nm0 ev0 s i :
  building b P nm0 ev0 s → in_tree (node_map s) b i →
  b ≤ i ∧ i < uuid_next s.
Proof.
  intros Hb Hi. pose proof (bd_store _ _ _ _ _ Hb) as [Hfresh Hnodes].
  induction Hi as [|p n c _ [Hbp Hp] Hn Hc].
  - split; [done|]. destruct (bd_root_node _ _ _ _ _ Hb) as (rn & Hrn & _).
    apply Hfresh. eauto.
  - destruct (Hnodes p Hbp Hp) as (n' & Hn' & Hok).
    assert (n' = n) as -> by congruence.
    destruct (ok_children _ _ _ _ _ Hok c Hc) as (Hlt & cn & Hcn & _).
    split; [lia|]. apply Hfresh. eauto.
Qed.

Lemma in_tree_node_ok b P nm0 ev0 s i n :
  building b P nm0 ev0 s → in_tree (node_map s) b i →
  node_map s !! i = Some n → node_ok b P (node_map s) i n.
Proof.
  intros Hb Hi Hn. destruct (in_tree_range _ _ _ _ _ _ Hb Hi) as [Hbi Hlt].
  destruct (so_nodes _ _ _ _ (bd_store _ _ _ _ _ Hb) i Hbi Hlt) as (n' & Hn' & Hok).
  congruence.
Qed.

Lemma elem_of_enumerate {A} (l : list A) a k x :
  (k, x) ∈ enumerate a l → a ≤ k ∧ l !! (k - a) = Some x.
Proof.
  revert a. induction l as [|y l IH]; intros a Hin; simpl in Hin.
  - by apply elem_of_nil in Hin.
  - apply elem_of_cons in Hin as [Heq|Hin].
    + injection Heq as -> ->. split; [done|]. by rewrite Nat.sub_diag.
    + apply IH in Hin as [Hle Hl]. split; [lia|].
      replace (k - a) with (S (k - S a)) by lia. done.
Qed.

(** ** C1: the single chapter/section scenario *)

(** C1, as stated, fails: on the scenario text the builder returns a tree of
    two nodes, not four; the chapter has no section child. *)
Lemma scenario_has_no_section :
  ∃ j, tree_of (create_textbook_structure "Book" scenario (new_processor 0 []))
         = Some j ∧ jsize j ≠ 4 ∧
       section_matches (page_text_of (Str.drop 6 scenario)) = [].
Proof.
  eexists. split; [vm_compute; reflexivity|]. split; [vm_compute; lia|].
  vm_compute. reflexivity.
Qed.

(** C1, amended: on the scenario text, for any document title, the builder
    of a new processor returns a tree of exactly two nodes, the root and
    one chapter child titled "Chapter: Intro" with page_number [1] and no
    children: "1. Overview" is not a section heading for the builder, so no
    section and no leaf are created. *)
Theorem scenario_tree ttl :
  tree_of (create_textbook_structure ttl scenario (new_processor 0 []))
  = Some (JN ttl None Root 0 None [] []
            [JN "Chapter: Intro" None Chapter 1 (Some 0) [1] [] []]).
Proof. vm_compute. reflexivity. Qed.

(** ** C6: leaves hang from sections *)

(** C6: in the tree the builder returns, every leaf is a child of a
    section node, any node with a leaf among its children is a section
    (so neither the root nor a chapter), and with no section current the
    leaf phase of a page creates nothing. *)
Theorem leaves_hang_from_sections s ttl cnt :
  fresh s →
  ∃ r s',
    create_textbook_structure ttl cnt s = (inr r, s') ∧
    (∀ i n, in_tree (node_map s') r i → node_map s' !! i = Some n →
       node_type n = Leaf →
       ∃ p pn, parent_id n = Some p ∧ node_map s' !! p = Some pn ∧
               node_type pn = Section ∧ i ∈ children pn) ∧
    (∀ p pn c cn, in_tree (node_map s') r p → node_map s' !! p = Some pn →
       c ∈ children pn → node_map s' !! c = Some cn →
       node_type cn = Leaf → node_type pn = Section) ∧
    (∀ t k text, current_section t = None → leaf_phase k text t = (inr tt, t)).
Proof.
  intros Hfresh. destruct (create_builds s ttl cnt Hfresh) as (s' & Hrun & Hb).
  exists (uuid_next s), s'. split; [done|]. split; [|split].
  - intros i n Hi Hn Hleaf.
    pose proof (in_tree_node_ok _ _ _ _ _ _ _ Hb Hi Hn) as Hok.
    destruct (ok_inner _ _ _ _ _ Hok) as (p & pn & k & pc & Hp & _ & _ & Hpn & Hpt & Hin & _).
    { by rewrite Hleaf. }
    exists p, pn. rewrite Hleaf in Hpt. done.
  - intros p pn c cn Hp Hpn Hc Hcn Hleaf.
    assert (in_tree (node_map s') (uuid_next s) c) as Hci by (by eapply in_tree_child).
    pose proof (in_tree_node_ok _ _ _ _ _ _ _ Hb Hp Hpn) as Hokp.
    pose proof (in_tree_node_ok _ _ _ _ _ _ _ Hb Hci Hcn) as Hokc.
    destruct (ok_children _ _ _ _ _ Hokp c Hc) as (_ & cn' & Hcn' & Hpar).
    assert (cn' = cn) as -> by congruence.
    destruct (ok_inner _ _ _ _ _ Hokc) as (q & qn & k & pc & Hq & _ & _ & Hqn & Hqt & _).
    { by rewrite Hleaf. }
    assert (q = p) as -> by congruence.
    assert (qn = pn) as -> by congruence.
    by rewrite Hleaf in Hqt.
  - intros t k text Ht. unfold leaf_phase. run_py. by rewrite Ht.
Qed.

Lemma fresh_new_processor supply evs : fresh (new_processor supply evs).
Proof. intros i [n Hn]. simpl in Hn. by rewrite lookup_empty in Hn. Qed.

Lemma leaves_hang_from_sections_witness :
  fresh (new_processor 0 []) ∧
  ∃ r s',
    create_textbook_structure "Book" scenario (new_processor 0 []) = (inr r, s') ∧
    (∀ i n, in_tree (node_map s') r i → node_map s' !! i = Some n →
       node_type n = Leaf →
       ∃ p pn, parent_id n = Some p ∧ node_map s' !! p = Some pn ∧
               node_type pn = Section ∧ i ∈ children pn) ∧
    (∀ p pn c cn, in_tree (node_map s') r p → node_map s' !! p = Some pn →
       c ∈ children pn → node_map s' !! c = Some cn →
       node_type cn = Leaf → node_type pn = Section) ∧
    (∀ t k text, current_section t = None → leaf_phase k text t = (inr tt, t)).
Proof.
  split; [apply fresh_new_processor|].
  apply (leaves_hang_from_sections (new_processor 0 []) "Book" scenario).
  apply fresh_new_processor.
Defined.

(** ** C10: one page index per node *)

(** C10: in the tree the builder returns, the root has an empty page_number
    and every other node exactly one element, the number of the page on
    which its heading or paragraph was found; and reading one more page
    changes the page_number of no node already there. *)
Theorem one_page_index_per_node s ttl cnt :
  fresh s →
  ∃ r s',
    create_textbook_structure ttl cnt s = (inr r, s') ∧
    (∃ rn, node_map s' !! r = Some rn ∧ node_type rn = Root ∧ page_number rn = []) ∧
    (∀ i n, in_tree (node_map s') r i → node_map s' !! i = Some n →
       (node_type n = Root → i = r ∧ page_number n = []) ∧
       (node_type n ≠ Root →
          ∃ k pc, page_number n = [k] ∧ (k, pc) ∈ pages_of cnt ∧
                  origin k (page_text_of pc) n)) ∧
    (∀ t page i n,
       fresh t → node_map t !! i = Some n →
       ∃ t' n', process_page page t = (inr tt, t') ∧
                node_map t' !! i = Some n' ∧ page_number n' = page_number n).
Proof.
  intros Hfresh. destruct (create_builds s ttl cnt Hfresh) as (s' & Hrun & Hb).
  exists (uuid_next s), s'. split; [done|]. split; [|split].
  - destruct (bd_root_node _ _ _ _ _ Hb) as (rn & Hrn & Hrt).
    exists rn. split; [done|]. split; [done|].
    pose proof (in_tree_node_ok _ _ _ _ _ _ _ Hb (in_tree_root _ _) Hrn) as Hok.
    by destruct (ok_root _ _ _ _ _ Hok Hrt) as (_ & _ & ? & _).
  - intros i n Hi Hn.
    pose proof (in_tree_node_ok _ _ _ _ _ _ _ Hb Hi Hn) as Hok. split.
    + intros Hr. by destruct (ok_root _ _ _ _ _ Hok Hr) as (? & _ & ? & _).
    + intros Hnr.
      destruct (ok_inner _ _ _ _ _ Hok Hnr) as (p & pn & k & pc & _ & _ & _ & _ & _ & _ & Hk & HP & Ho).
      eauto.
  - intros t page i n Ht Hn.
    pose proof (process_page_returns page t) as Hret.
    pose proof (steady_process_page page t Ht) as (_ & Hgr & _).
    destruct (process_page page t) as [res t']. simpl in *. subst res.
    destruct (Hgr i n Hn) as (n' & Hn' & _ & _ & _ & _ & _ & Hpg & _).
    eauto.
Qed.

Lemma one_page_index_per_node_witness :
  fresh (new_processor 0 []) ∧
  ∃ r s',
    create_textbook_structure "Book" scenario (new_processor 0 []) = (inr r, s') ∧
    (∃ rn, node_map s' !! r = Some rn ∧ node_type rn = Root ∧ page_number rn = []) ∧
    (∀ i n, in_tree (node_map s') r i → node_map s' !! i = Some n →
       (node_type n = Root → i = r ∧ page_number n = []) ∧
       (node_type n ≠ Root →
          ∃ k pc, page_number n = [k] ∧ (k, pc) ∈ pages_of scenario ∧
                  origin k (page_text_of pc) n)) ∧
    (∀ t page i n,
       fresh t → node_map t !! i = Some n →
       ∃ t' n', process_page page t = (inr tt, t') ∧
                node_map t' !! i = Some n' ∧ page_number n' = page_number n).
Proof.
  split; [apply fresh_new_processor|].
  apply (one_page_index_per_node (new_processor 0 []) "Book" scenario).
  apply fresh_new_processor.
Defined.

(** ** C4: which number a page gets *)

(** C4, as stated, fails: a chapter found on the page marked [PAGE_5], the
    first page of the text, is recorded with page number 1, not 5. *)
Lemma page_number_is_not_the_marker :
  pages_of marker_five = [(1, "5]" +:+ Str.nl +:+ "Chapter 1: Intro" +:+ Str.nl)] ∧
  tree_of (create_textbook_structure "Book" marker_five (new_processor 0 []))
  = Some (JN "Book" None Root 0 None [] []
            [JN "Chapter: Intro" None Chapter 1 (Some 0) [1] [] []]) ∧
  page_number <$>
    node_map (create_textbook_structure "Book" marker_five (new_processor 0 [])).2 !! 1
  ≠ Some [5].
Proof.
  split; [vm_compute; reflexivity|]. split; [vm_compute; reflexivity|].
  vm_compute. discriminate.
Qed.

(** C4, amended: the page number recorded on each node the builder creates,
    and written in a leaf's title, is the 1-based position [k] of its page
    among the pieces of the text that follow a "[PAGE_" marker; the integer
    the marker carries is not read. *)
Theorem page_number_is_the_position s ttl cnt :
  fresh s →
  ∃ r s',
    create_textbook_structure ttl cnt s = (inr r, s') ∧
    ∀ i n, in_tree (node_map s') r i → node_map s' !! i = Some n →
      node_type n ≠ Root →
      ∃ k pc, page_number n = [k] ∧ 1 ≤ k ∧
              tail (Str.split "[PAGE_" cnt) !! (k - 1) = Some pc ∧
              origin k (page_text_of pc) n ∧
              (node_type n = Leaf →
                 title n = "Content from page " +:+ Str.of_nat k).
Proof.
  intros Hfresh. destruct (create_builds s ttl cnt Hfresh) as (s' & Hrun & Hb).
  exists (uuid_next s), s'. split; [done|].
  intros i n Hi Hn Hnr.
  pose proof (in_tree_node_ok _ _ _ _ _ _ _ Hb Hi Hn) as Hok.
  destruct (ok_inner _ _ _ _ _ Hok Hnr)
    as (p & pn & k & pc & _ & _ & _ & _ & _ & _ & Hk & HP & Ho).
  apply elem_of_enumerate in HP as [Hle Hpc].
  exists k, pc. repeat split; try done.
  intros Hleaf. unfold origin in Ho. rewrite Hleaf in Ho. by destruct Ho.
Qed.

Lemma page_number_is_the_position_witness :
  fresh (new_processor 0 []) ∧
  ∃ r s',
    create_textbook_structure "Book" marker_five (new_processor 0 []) = (inr r, s') ∧
    ∀ i n, in_tree (node_map s') r i → node_map s' !! i = Some n →
      node_type n ≠ Root →
      ∃ k pc, page_number n = [k] ∧ 1 ≤ k ∧
              tail (Str.split "[PAGE_" marker_five) !! (k - 1) = Some pc ∧
              origin k (page_text_of pc) n ∧
              (node_type n = Leaf →
                 title n = "Content from page " +:+ Str.of_nat k).
Proof.
  split; [apply fresh_new_processor|].
  apply (page_number_is_the_position (new_processor 0 []) "Book" marker_five).
  apply fresh_new_processor.
Defined.

(** ** What a whole loop of a page attaches *)

Lemma is_Some_attach p i x nm :
  is_Some (nm !! p) → is_Some (attach p i x nm !! p).
Proof.
  intros Hp. unfold attach. destruct (decide (p = i)) as [->|Hne].
  - rewrite lookup_insert_eq. eauto.
  - rewrite lookup_insert_ne, lookup_alter_eq by done. by apply fmap_is_Some.
Qed.

Lemma chapter_loop_eq k r ms s :
  root s = Some r → is_Some (node_map s !! r) →
  for_each ms (chapter_step k) s =
    (inr tt,
     mkState (uuid_next s + length ms) (root s)
       (attach_all (chapter_node r k) r (uuid_next s) ms (node_map s))
       (moved_to (uuid_next s) ms (current_chapter s))
       (current_section s) (events s)).
Proof.
  revert s. induction ms as [|m ms IH]; intros s Hr Hn; simpl.
  - rewrite Nat.add_0_r. by destruct s.
  - unfold bind. rewrite (chapter_step_eq s k m r) by done.
    rewrite IH; simpl; [|done|by apply is_Some_attach].
    f_equal. f_equal; [lia|].
    destruct ms; simpl; f_equal; lia.
Qed.

Lemma section_loop_eq k ch ms s :
  current_chapter s = Some ch → is_Some (node_map s !! ch) →
  for_each ms (section_step k) s =
    (inr tt,
     mkState (uuid_next s + length ms) (root s)
       (attach_all (section_node ch k) ch (uuid_next s) ms (node_map s))
       (current_chapter s)
       (moved_to (uuid_next s) ms (current_section s)) (events s)).
Proof.
  revert s. induction ms as [|m ms IH]; intros s Hr Hn; simpl.
  - rewrite Nat.add_0_r. by destruct s.
  - unfold bind. rewrite (section_step_eq s k m ch) by done.
    rewrite IH; simpl; [|done|by apply is_Some_attach].
    f_equal. f_equal; [lia|].
    destruct ms; simpl; f_equal; lia.
Qed.

Lemma paragraph_loop_eq k sec ps s :
  current_section s = Some sec → is_Some (node_map s !! sec) →
  for_each ps (paragraph_step k) s =
    (inr tt,
     mkState (uuid_next s + length (filter (fun p => 100 < String.length p) ps))
       (root s)
       (attach_all (leaf_node sec k) sec (uuid_next s)
          (filter (fun p => 100 < String.length p) ps) (node_map s))
       (current_chapter s) (current_section s) (events s)).
Proof.
  revert s. induction ps as [|para ps IH]; intros s Hr Hn; simpl.
  - rewrite Nat.add_0_r. by destruct s.
  - unfold bind. destruct (le_lt_dec (String.length para) 100) as [Hshort|Hlong].
    + rewrite paragraph_step_short by done.
      rewrite filter_cons_False by lia. by apply IH.
    + rewrite (paragraph_step_long s k para sec) by done.
      rewrite filter_cons_True by done.
      rewrite IH; simpl; [|done|by apply is_Some_attach].
      f_equal. f_equal. lia.
Qed.

Lemma chapter_phase_eq s k text r :
  root s = Some r → is_Some (node_map s !! r) →
  chapter_phase k text s =
    (inr tt,
     mkState (uuid_next s + length (chapter_matches text)) (root s)
       (attach_all (chapter_node r k) r (uuid_next s) (chapter_matches text)
          (node_map s))
       (moved_to (uuid_next s) (chapter_matches text) (current_chapter s))
       (current_section s) (events s)).
Proof. apply chapter_loop_eq. Qed.

Lemma section_phase_eq s k text ch :
  current_chapter s = Some ch → is_Some (node_map s !! ch) →
  section_phase k text s =
    (inr tt,
     mkState (uuid_next s + length (section_matches text)) (root s)
       (attach_all (section_node ch k) ch (uuid_next s) (section_matches text)
          (node_map s))
       (current_chapter s)
       (moved_to (uuid_next s) (section_matches text) (current_section s))
       (events s)).
Proof.
  intros Hch Hn. unfold section_phase. run_py. rewrite Hch.
  rewrite <- Hch. by apply section_loop_eq.
Qed.

Lemma leaf_phase_eq s k text sec :
  current_section s = Some sec → is_Some (node_map s !! sec) →
  leaf_phase k text s =
    (inr tt,
     mkState (uuid_next s + length (substantial text)) (root s)
       (attach_all (leaf_node sec k) sec (uuid_next s) (substantial text)
          (node_map s))
       (current_chapter s) (current_section s) (events s)).
Proof.
  intros Hsec Hn. unfold leaf_phase. run_py. rewrite Hsec.
  rewrite <- Hsec. by apply paragraph_loop_eq.
Qed.

Lemma append_children_nil n : append_children [] n = n.
Proof. destruct n. unfold append_children. simpl. by rewrite app_nil_r. Qed.

Lemma lookup_attach_all_parent {A} (mk : nat → A → TextNode) p i xs nm pn :
  p < i → nm !! p = Some pn →
  attach_all mk p i xs nm !! p = Some (append_children (seq i (length xs)) pn).
Proof.
  revert i nm pn. induction xs as [|x xs IH]; intros i nm pn Hlt Hp; simpl.
  - by rewrite append_children_nil.
  - rewrite (IH (S i) _ (append_child i pn)); [|lia|].
    + f_equal. unfold append_children, append_child. simpl.
      by rewrite <- app_assoc.
    + rewrite lookup_attach_old, Hp by lia. simpl.
      by destruct (decide (p = p)).
Qed.

Lemma lookup_attach_all_old {A} (mk : nat → A → TextNode) p i xs nm q :
  q < i → q ≠ p → attach_all mk p i xs nm !! q = nm !! q.
Proof.
  revert i nm. induction xs as [|x xs IH]; intros i nm Hlt Hne; simpl; [done|].
  rewrite IH by lia. rewrite lookup_attach_old by lia.
  destruct (decide (q = p)); [done|]. by destruct (nm !! q).
Qed.

Lemma lookup_attach_all_new {A} (mk : nat → A → TextNode) p i xs nm j x :
  p < i → xs !! j = Some x →
  attach_all mk p i xs nm !! (i + j) = Some (mk (i + j) x).
Proof.
  revert i nm j. induction xs as [|y xs IH]; intros i nm j Hlt Hj; [done|].
  destruct j as [|j]; simpl in *.
  - injection Hj as ->. rewrite Nat.add_0_r.
    rewrite lookup_attach_all_old by lia. apply lookup_attach_new.
  - replace (i + S j) with (S i + j) by lia. apply IH; [lia|done].
Qed.

(** ** C8: [add_node] *)

Lemma fresh_lone_root : fresh lone_root.
Proof.
  intros i [n Hn]. simpl in *.
  apply lookup_singleton_Some in Hn as [<- _]. lia.
Qed.

(** C8: [add_node] with a [parent_id] that is not in the node index raises
    and leaves the root, the node index, the name supply and the cursors as
    they were (it only logs); with a [parent_id] that is in the index it
    returns a node under a name not used before, registered in the index
    with the given fields; the parent's children are those it had followed
    by the new name, once, its other fields are as they were, and every
    other entry is untouched. *)
Theorem add_node_all_or_nothing s p ttl cnt ty :
  fresh s →
  (node_map s !! p = None →
     ∃ e s', add_node p ttl cnt ty s = (inl e, s') ∧
             node_map s' = node_map s ∧ root s' = root s ∧
             uuid_next s' = uuid_next s ∧
             current_chapter s' = current_chapter s ∧
             current_section s' = current_section s) ∧
  (∀ pn, node_map s !! p = Some pn →
     ∃ i s', add_node p ttl cnt ty s = (inr i, s') ∧
             node_map s !! i = None ∧
             node_map s' !! i = Some (mkTextNode ttl cnt ty i (Some p) [] [] []) ∧
             node_map s' !! p
               = Some (mkTextNode (title pn) (content pn) (node_type pn)
                         (node_id pn) (parent_id pn) (children pn ++ [i])
                         (page_number pn) (metadata pn)) ∧
             (∀ j, j ≠ i → j ≠ p → node_map s' !! j = node_map s !! j) ∧
             size (node_map s') = S (size (node_map s)) ∧
             root s' = root s ∧ events s' = events s).
Proof.
  intros Hfresh. split.
  - intros Hp. rewrite add_node_missing by done. eexists _, _. done.
  - intros pn Hp. rewrite add_node_found by eauto.
    assert (node_map s !! uuid_next s = None) as Hnew.
    { destruct (node_map s !! uuid_next s) eqn:E; [|done].
      specialize (Hfresh (uuid_next s) (mk_is_Some _ _ E)). lia. }
    assert (p ≠ uuid_next s) as Hne by congruence.
    eexists _, _. split; [done|]. simpl. repeat split.
    + done.
    + apply lookup_attach_new.
    + rewrite lookup_attach_old, Hp by done. simpl.
      destruct (decide (p = p)); [|done]. unfold append_child. reflexivity.
    + intros j Hji Hjp. rewrite lookup_attach_old by done.
      destruct (decide (j = p)); [done|]. by destruct (node_map s !! j).
    + unfold attach. rewrite map_size_insert_None.
      * f_equal. rewrite <- !size_dom. by rewrite dom_alter_L.
      * rewrite lookup_alter_ne by done. done.
Qed.

Lemma add_node_all_or_nothing_witness :
  fresh lone_root ∧
  (node_map lone_root !! 0 = None →
     ∃ e s', add_node 0 "Chapter: Intro" None Chapter lone_root = (inl e, s') ∧
             node_map s' = node_map lone_root ∧ root s' = root lone_root ∧
             uuid_next s' = uuid_next lone_root ∧
             current_chapter s' = current_chapter lone_root ∧
             current_section s' = current_section lone_root) ∧
  (∀ pn, node_map lone_root !! 0 = Some pn →
     ∃ i s', add_node 0 "Chapter: Intro" None Chapter lone_root = (inr i, s') ∧
             node_map lone_root !! i = None ∧
             node_map s' !! i
               = Some (mkTextNode "Chapter: Intro" None Chapter i (Some 0) [] [] []) ∧
             node_map s' !! 0
               = Some (mkTextNode (title pn) (content pn) (node_type pn)
                         (node_id pn) (parent_id pn) (children pn ++ [i])
                         (page_number pn) (metadata pn)) ∧
             (∀ j, j ≠ i → j ≠ 0 → node_map s' !! j = node_map lone_root !! j) ∧
             size (node_map s') = S (size (node_map lone_root)) ∧
             root s' = root lone_root ∧ events s' = events lone_root) ∧
  ∃ i s', add_node 0 "Chapter: Intro" None Chapter lone_root = (inr i, s') ∧
          node_map s' !! 0 = Some (mkTextNode "Book" None Root 0 None [i] [] []).
Proof.
  split; [apply fresh_lone_root|].
  pose proof (add_node_all_or_nothing lone_root 0 "Chapter: Intro" None Chapter
                fresh_lone_root) as [Hnone Hsome].
  split; [exact Hnone|]. split; [exact Hsome|].
  destruct (Hsome (mkTextNode "Book" None Root 0 None [] [] []) eq_refl)
    as (i & s' & Hrun & _ & _ & Hp & _).
  exists i, s'. split; [exact Hrun|exact Hp].
Defined.

(** ** C7: the paragraph threshold *)


Lemma in_section_eq :
  create_textbook_structure "Book" one_section (new_processor 0 [])
  = (inr 0, in_section).
Proof. vm_compute. reflexivity. Qed.

Lemma fresh_in_section : fresh in_section.
Proof.
  destruct (create_builds (new_processor 0 []) "Book" one_section
              (fresh_new_processor 0 [])) as (s' & Hrun & Hb).
  rewrite in_section_eq in Hrun. injection Hrun as <-.
  intros i Hi. by apply (so_fresh _ _ _ _ (bd_store _ _ _ _ _ Hb)).
Qed.


(** ** C5: a new chapter leaves the section cursor where it was *)

(** C5: on a page with no section heading, whatever chapters it opens, the
    section cursor stays on the section [sec] it was on; the leaves of the
    page are appended to the children of [sec], whose parent is unchanged;
    the new chapter nodes are appended to the children of the root and
    have no children themselves. *)
Theorem stale_section_keeps_leaves s k pc r rn sec secn :
  fresh s →
  root s = Some r → node_map s !! r = Some rn →
  current_section s = Some sec → node_map s !! sec = Some secn → sec ≠ r →
  section_matches (page_text_of pc) = [] →
  let text := page_text_of pc in
  let b := uuid_next s in
  let nc := length (chapter_matches text) in
  ∃ s', process_page (k, pc) s = (inr tt, s') ∧
        current_section s' = Some sec ∧
        current_chapter s' = moved_to b (chapter_matches text) (current_chapter s) ∧
        node_map s' !! sec
          = Some (append_children (seq (b + nc) (length (substantial text))) secn) ∧
        (∀ j para, substantial text !! j = Some para →
           node_map s' !! (b + nc + j) = Some (leaf_node sec k (b + nc + j) para)) ∧
        node_map s' !! r = Some (append_children (seq b nc) rn) ∧
        (∀ j m, chapter_matches text !! j = Some m →
           node_map s' !! (b + j) = Some (chapter_node r k (b + j) m)).
Proof.
  intros Hfresh Hr Hrn Hsec Hsecn Hne Hnosec text b nc.
  assert (r < b) as Hrb by (apply Hfresh; eauto).
  assert (sec < b) as Hsb by (apply Hfresh; eauto).
  set (nm1 := attach_all (chapter_node r k) r b (chapter_matches text) (node_map s)).
  assert (nm1 !! sec = Some secn) as Hsec1.
  { unfold nm1. by rewrite lookup_attach_all_old. }
  eexists. split; [|repeat split].
  - unfold process_page, try_except, page_body. simpl. fold text.
    unfold bind at 1. rewrite (chapter_phase_eq s k text r) by eauto.
    fold b nc nm1.
    unfold bind at 1. unfold section_phase. unfold bind at 1, get at 1. simpl.
    fold text in Hnosec. rewrite Hnosec.
    replace (match moved_to b (chapter_matches text) (current_chapter s) with
             | Some _ => for_each [] (section_step k)
             | None => ret tt
             end) with (@ret unit tt)
      by (by destruct (moved_to b (chapter_matches text) (current_chapter s))).
    unfold ret at 1.
    rewrite (leaf_phase_eq _ k text sec); simpl; [reflexivity|done|eauto].
  - done.
  - done.
  - simpl. fold nm1. by apply lookup_attach_all_parent; [lia|].
  - intros j para Hj. simpl. fold nm1. apply lookup_attach_all_new; [lia|done].
  - simpl. fold nm1. rewrite lookup_attach_all_old by lia.
    by apply lookup_attach_all_parent.
  - intros j m Hj. simpl. fold nm1.
    pose proof (lookup_lt_Some _ _ _ Hj) as Hlt. fold nc in Hlt.
    rewrite lookup_attach_all_old by lia.
    by apply lookup_attach_all_new.
Qed.

Lemma stale_section_keeps_leaves_witness :
  fresh in_section ∧
  root in_section = Some 0 ∧
  node_map in_section !! 0 = Some (mkTextNode "Book" None Root 0 None [1] [] []) ∧
  current_section in_section = Some 2 ∧
  node_map in_section !! 2
    = Some (mkTextNode "Section: Overview" None Section 2 (Some 1) [] [1] []) ∧
  section_matches (page_text_of page_two) = [] ∧
  ∃ s', process_page (2, page_two) in_section = (inr tt, s') ∧
        current_section s' = Some 2 ∧
        current_chapter s' = Some 3 ∧
        node_map s' !! 2
          = Some (mkTextNode "Section: Overview" None Section 2 (Some 1) [4] [1] []) ∧
        node_map s' !! 4
          = Some (leaf_node 2 2 4 (replicate_char 120 "x")) ∧
        node_map s' !! 0 = Some (mkTextNode "Book" None Root 0 None [1; 3] [] []) ∧
        node_map s' !! 3
          = Some (mkTextNode "Chapter: Next" None Chapter 3 (Some 0) [] [2] []).
Proof.
  assert (node_map in_section !! 0
          = Some (mkTextNode "Book" None Root 0 None [1] [] [])) as Hrn
    by (vm_compute; reflexivity).
  assert (node_map in_section !! 2
          = Some (mkTextNode "Section: Overview" None Section 2 (Some 1) [] [1] []))
    as Hsecn by (vm_compute; reflexivity).
  assert (section_matches (page_text_of page_two) = []) as Hnosec
    by (vm_compute; reflexivity).
  assert (2 ≠ 0) as Hne by lia.
  destruct (stale_section_keeps_leaves in_section 2 page_two 0 _ 2 _
              fresh_in_section eq_refl Hrn eq_refl Hsecn Hne Hnosec)
    as (s' & Hrun & Hcs & Hcc & Hsec' & Hleaves & Hroot' & Hchaps).
  assert (chapter_matches (page_text_of page_two)
          = [Re.Match "Chapter 2: Next" (Some "Next")]) as Hch
    by (vm_compute; reflexivity).
  assert (substantial (page_text_of page_two) = [replicate_char 120 "x"]) as Hsub
    by (vm_compute; reflexivity).
  rewrite Hch, Hsub in *. simpl in Hcc, Hsec', Hroot'.
  specialize (Hleaves 0 _ eq_refl). specialize (Hchaps 0 _ eq_refl).
  simpl in Hleaves, Hchaps.
  repeat (split; [first [apply fresh_in_section | done]|]).
  exists s'. repeat (split; [done|]). done.
Defined.

(** ** How the section pattern reads a line *)

Module ReFacts.
Import Re ReVocab.

Lemma app_nil (b : string) : "" +:+ b = b.
Proof. reflexivity. Qed.

Lemma app_cons x (a b : string) : String x a +:+ b = String x (a +:+ b).
Proof. reflexivity. Qed.

Ltac unapp := rewrite ?app_cons, ?app_nil in *; simpl in *.

Lemma append_assoc (a b c : string) : (a +:+ b) +:+ c = a +:+ b +:+ c.
Proof. induction a as [|x a IH]; unapp; [done|by f_equal]. Qed.

Lemma length_append (a b : string) :
  String.length (a +:+ b) = String.length a + String.length b.
Proof. induction a as [|x a IH]; unapp; [done|by f_equal]. Qed.

Lemma take_append (a b : string) :
  Str.take (String.length (a +:+ b) - String.length b) (a +:+ b) = a.
Proof.
  rewrite length_append.
  replace (String.length a + String.length b - String.length b)
    with (String.length a) by lia.
  induction a as [|x a IH]; unapp; [by destruct b|by f_equal].
Qed.

Section Runs.
Variable icase : bool.

Local Abbreviation leads := (ReVocab.leads icase).

Lemma leads_seq r1 r2 m1 m2 m3 :
  leads r1 m1 m2 → leads r2 m2 m3 → leads (Seq r1 r2) m1 m3.
Proof. intros H1 H2 k res Hk. simpl. apply H1. by apply H2. Qed.

Lemma leads_one c p a s g :
  accepts icase c a = true →
  leads (One c) (Cursor p (String a s) g) (Cursor (Some a) s g).
Proof. intros Ha k res Hk. simpl. by rewrite Ha. Qed.

Lemma many_all c k g xs : ∀ p rest res,
  all_of (accepts icase c) xs = true → stops icase c rest →
  k (Cursor (last_of p xs) rest g) = Some res →
  many icase c k g p (xs +:+ rest) = Some res.
Proof.
  induction xs as [|a xs IH]; intros p rest res Hall Hstop Hk; unapp.
  - destruct rest as [|b rest]; simpl in *; [done|]. by rewrite Hstop.
  - apply andb_prop in Hall as [Ha Hall]. rewrite Ha.
    by rewrite (IH (Some a) rest res).
Qed.

Lemma leads_many c p xs rest g :
  all_of (accepts icase c) xs = true → stops icase c rest →
  leads (Many c) (Cursor p (xs +:+ rest) g) (Cursor (last_of p xs) rest g).
Proof. intros Hall Hstop k res Hk. simpl. by apply many_all. Qed.

Lemma leads_many1 c p a xs rest g :
  accepts icase c a = true →
  all_of (accepts icase c) xs = true → stops icase c rest →
  leads (Many1 c) (Cursor p (String a xs +:+ rest) g)
    (Cursor (last_of (Some a) xs) rest g).
Proof.
  intros Ha Hall Hstop. eapply leads_seq.
  - by apply leads_one.
  - by apply leads_many.
Qed.

(** Greedy repetition fails when what follows fails wherever it could
    be tried: at the end of the run and before each character of it. *)
Lemma many_none c k g xs : ∀ p rest,
  all_of (accepts icase c) xs = true → stops icase c rest →
  (∀ p', k (Cursor p' rest g) = None) →
  (∀ p' a s, accepts icase c a = true → k (Cursor p' (String a s) g) = None) →
  many icase c k g p (xs +:+ rest) = None.
Proof.
  induction xs as [|a xs IH]; intros p rest Hall Hstop Hend Hin; unapp.
  - destruct rest as [|b rest]; simpl in *; [done|]. by rewrite Hstop.
  - apply andb_prop in Hall as [Ha Hall]. rewrite Ha.
    rewrite (IH (Some a) rest) by done. by apply Hin.
Qed.

(** Lazy repetition of [.] before [(?=\n)]: it stops at the first
    newline. *)
Lemma few_to_newline k g t : ∀ p rest res,
  all_of (accepts icase Dot) t = true →
  (∀ p' a s, accepts icase Dot a = true → k (Cursor p' (String a s) g) = None) →
  k (Cursor (last_of p t) (String Chars.newline rest) g) = Some res →
  few icase Dot k g p (t +:+ String Chars.newline rest) = Some res.
Proof.
  induction t as [|a t IH]; intros p rest res Hall Hin Hk; unapp.
  - by rewrite Hk.
  - apply andb_prop in Hall as [Ha Hall].
    rewrite (Hin p a _ Ha). rewrite Ha. by apply IH.
Qed.

Lemma leads_not_behind c m :
  match before m with Some a => accepts icase c a | None => false end = false →
  leads (NotBehind c) m m.
Proof.
  intros Hb k res Hk. simpl. destruct (before m); [by rewrite Hb|done].
Qed.

Lemma run_seq r1 r2 k m :
  run icase (Seq r1 r2) k m = run icase r1 (run icase r2 k) m.
Proof. reflexivity. Qed.

End Runs.

(** *** Characters *)

Lemma space_not_digit a : Chars.is_space a = true → Chars.is_digit a = false.
Proof. destruct a as [[] [] [] [] [] [] [] []]; vm_compute; congruence. Qed.

Lemma digit_is_word a : Chars.is_digit a = true → Chars.is_word a = true.
Proof. intros H. unfold Chars.is_word. by rewrite H. Qed.

Lemma digit_not_dot a : Chars.is_digit a = true → Ascii.eqb "." a = false.
Proof. destruct a as [[] [] [] [] [] [] [] []]; vm_compute; congruence. Qed.

Lemma not_word_not_digit o : is_word_opt o = false → is_digit_opt o = false.
Proof.
  destruct o as [c|]; simpl; [|done].
  destruct (Chars.is_digit c) eqn:E; [|done]. by rewrite (digit_is_word c E).
Qed.

(** *** The section pattern at one position *)

Import Patterns.

(** What follows the captured title, [(?=\n)] and the end of the
    pattern, fails before anything but a newline. *)
Lemma newline_ahead_fails k p a s g :
  accepts false Dot a = true →
  run false (Seq newline_ahead Eps) k (Cursor p (String a s) g) = None.
Proof.
  unfold newline_ahead. cbn [run ahead accepts]. intros Ha.
  apply negb_true_iff in Ha. rewrite Ascii.eqb_sym in Ha. by rewrite Ha.
Qed.

Lemma capture_to_newline K q t rest res :
  all_of (accepts false Dot) t = true →
  (∀ p' a s g, accepts false Dot a = true →
     K (Cursor p' (String a s) g) = None) →
  K (Cursor (last_of q t) (String Chars.newline rest) (Some t)) = Some res →
  run false (Capture (Few Dot)) K (Cursor q (t +:+ String Chars.newline rest) None)
  = Some res.
Proof.
  intros Hall HK Hres. cbn [run before ahead group1].
  apply few_to_newline; [done| |].
  - intros p' a s Ha. cbn [before ahead]. by apply HK.
  - cbn [before ahead]. by rewrite take_append.
Qed.

Lemma title_captured q t rest :
  all_of (accepts false Dot) t = true →
  run false (Seq (Capture (Few Dot)) (Seq newline_ahead Eps)) Some
    (Cursor q (t +:+ String Chars.newline rest) None)
  = Some (Cursor (last_of q t) (String Chars.newline rest) (Some t)).
Proof.
  intros Hall. rewrite run_seq. apply capture_to_newline; [done| |].
  - intros p' a s g Ha. by apply newline_ahead_fails.
  - reflexivity.
Qed.

Lemma section_heading_here p a1 d1 a2 d2 wa w ta t rest :
  is_word_opt p = false →
  Chars.is_digit a1 = true → all_of Chars.is_digit d1 = true →
  Chars.is_digit a2 = true → all_of Chars.is_digit d2 = true →
  Chars.is_space wa = true → all_of Chars.is_space w = true →
  Chars.is_space ta = false →
  all_of (accepts false Dot) (String ta t) = true →
  match_here false section_heading p
    (String a1 d1 +:+ "." +:+ String a2 d2 +:+ String wa w +:+ String ta t
     +:+ String Chars.newline rest)
  = Some (Match (String a1 d1 +:+ "." +:+ String a2 d2 +:+ String wa w
                 +:+ String ta t)
                (Some (String ta t))).
Proof.
  intros Hp Ha1 Hd1 Ha2 Hd2 Hwa Hw Hta Ht.
  unfold match_here.
  set (line := String a1 d1 +:+ "." +:+ String a2 d2 +:+ String wa w +:+ String ta t).
  set (text := String a1 d1 +:+ "." +:+ String a2 d2 +:+ String wa w
               +:+ String ta t +:+ String Chars.newline rest).
  assert (text = line +:+ String Chars.newline rest) as Htext
    by (unfold text, line; by rewrite !append_assoc).
  assert (run false section_heading Some (Cursor p text None)
          = Some (Cursor (last_of (last_of (Some wa) w) (String ta t))
                    (String Chars.newline rest) (Some (String ta t)))) as ->.
  { unfold section_heading, seq. simpl foldr.
    apply (leads_not_behind false Word (Cursor p text None)).
    { simpl. destruct p; done. }
    apply (leads_many1 false Digit p a1 d1
             ("." +:+ String a2 d2 +:+ String wa w +:+ String ta t
              +:+ String Chars.newline rest) None); [done|done|done|].
    apply (leads_one false (Lit ".") _ "."
             (String a2 d2 +:+ String wa w +:+ String ta t
              +:+ String Chars.newline rest) None); [done|].
    apply (leads_many1 false Digit _ a2 d2
             (String wa w +:+ String ta t +:+ String Chars.newline rest) None);
      [done|done|by apply space_not_digit|].
    apply (leads_many1 false Space _ wa w
             (String ta t +:+ String Chars.newline rest) None);
      [done|done|done|].
    by apply title_captured. }
  simpl ahead. simpl group1. rewrite Htext, take_append. reflexivity.
Qed.

(** A numeral and a dot not followed by a digit: no heading starts
    there. *)
Lemma numeral_dot_is_no_heading p a d rest :
  Chars.is_digit a = true → all_of Chars.is_digit d = true →
  stops false Digit rest →
  match_here false section_heading p (String a d +:+ String "." rest) = None.
Proof.
  intros Ha Hd Hrest. unfold match_here.
  assert (run false section_heading Some
            (Cursor p (String a d +:+ String "." rest) None) = None) as ->; [|done].
  unfold section_heading, seq. cbn [foldr]. rewrite run_seq.
  cbn [run before]. destruct (match p with Some a0 => accepts false Word a0 | None => false end) eqn:Hp.
  { destruct p; [by rewrite Hp|done]. }
  assert (run false
            (Seq (Many1 Digit)
               (Seq (One (Lit "."))
                  (Seq (Many1 Digit)
                     (Seq (Many1 Space)
                        (Seq (Capture (Few Dot)) (Seq newline_ahead Eps))))))
            Some (Cursor p (String a d +:+ String "." rest) None) = None) as Hnone.
  { unfold Many1 at 1. rewrite !run_seq. rewrite app_cons.
    cbn [run ahead accepts group1 before]. rewrite Ha.
    apply many_none; [done|done| |].
    - intros p'. cbn [run Many1 ahead accepts group1 before]. rewrite Ascii.eqb_refl.
      destruct rest as [|b rest]; [done|]. simpl in Hrest.
      cbn [accepts] in Hrest. by rewrite Hrest.
    - intros p' b s Hb. cbn [run ahead accepts group1 before].
      by rewrite (digit_not_dot b Hb). }
  destruct p; [by rewrite Hp|]; exact Hnone.
Qed.

(** Inside a stretch of text without a dot that does not end in a
    digit, no heading starts. *)
Lemma many_digit_no_dot K g u : ∀ v p,
  (∀ p' a s, Ascii.eqb "." a = false → K (Cursor p' (String a s) g) = None) →
  all_of not_dot u = true → u ≠ EmptyString →
  is_digit_opt (last_of p u) = false →
  many false Digit K g p (u +:+ v) = None.
Proof.
  induction u as [|a u IH]; intros v p HK Hdot Hne Hlast; [done|].
  rewrite app_cons. cbn [many accepts]. cbn [all_of] in Hdot.
  apply andb_prop in Hdot as [Ha Hdot].
  assert (Ascii.eqb "." a = false) as Hne'.
  { unfold not_dot in Ha. apply negb_true_iff in Ha. by rewrite Ascii.eqb_sym. }
  destruct (Chars.is_digit a) eqn:Hdig; [|by apply HK].
  destruct u as [|b u].
  { simpl in Hlast. congruence. }
  rewrite IH; [by apply HK|done|done|done|done].
Qed.

Lemma here_none_no_dot u v p :
  all_of not_dot u = true → u ≠ EmptyString →
  is_digit_opt (last_of p u) = false →
  match_here false section_heading p (u +:+ v) = None.
Proof.
  intros Hdot Hne Hlast. unfold match_here.
  assert (run false section_heading Some (Cursor p (u +:+ v) None) = None)
    as ->; [|done].
  destruct u as [|a u]; [done|]. rewrite app_cons.
  unfold section_heading, seq. cbn [foldr]. rewrite run_seq.
  cbn [run before].
  assert (run false
            (Seq (Many1 Digit)
               (Seq (One (Lit "."))
                  (Seq (Many1 Digit)
                     (Seq (Many1 Space)
                        (Seq (Capture (Few Dot)) (Seq newline_ahead Eps))))))
            Some (Cursor p (String a (u +:+ v)) None) = None) as Hnone.
  { unfold Many1 at 1. rewrite !run_seq.
    cbn [run ahead accepts group1 before].
    destruct (Chars.is_digit a) eqn:Hdig; [|done].
    cbn [all_of] in Hdot. apply andb_prop in Hdot as [Ha Hdot].
    destruct u as [|b u].
    { simpl in Hlast. congruence. }
    apply many_digit_no_dot; [|done|done|done].
    intros p' c s Hc. cbn [run ahead accepts]. by rewrite Hc. }
  destruct p as [c|]; [|exact Hnone].
  destruct (accepts false Word c); [done|exact Hnone].
Qed.

Lemma scan_skips_no_dot u : ∀ v p,
  all_of not_dot u = true →
  (u = EmptyString ∨ is_digit_opt (last_of p u) = false) →
  scan false section_heading p (u +:+ v) 0
  = scan false section_heading (last_of p u) v 0.
Proof.
  induction u as [|a u IH]; intros v p Hdot Hlast; [done|].
  destruct Hlast as [?|Hlast]; [done|].
  rewrite app_cons. cbn [scan].
  rewrite <- app_cons, here_none_no_dot by done.
  cbn [all_of] in Hdot. apply andb_prop in Hdot as [_ Hdot].
  apply IH; [done|]. destruct u; [by left|by right].
Qed.

(** The section pattern finds the heading of a line "n.m  title": after
    text [pre] without a dot that does not end in a word character, the
    first match is the line, and group 1 is the title. *)
Lemma section_line_found pre a1 d1 a2 d2 wa w ta t rest :
  all_of not_dot pre = true → is_word_opt (last_of None pre) = false →
  Chars.is_digit a1 = true → all_of Chars.is_digit d1 = true →
  Chars.is_digit a2 = true → all_of Chars.is_digit d2 = true →
  Chars.is_space wa = true → all_of Chars.is_space w = true →
  Chars.is_space ta = false →
  all_of (accepts false Dot) (String ta t) = true →
  ∃ ms,
    section_matches
      (pre +:+ String a1 d1 +:+ "." +:+ String a2 d2 +:+ String wa w
       +:+ String ta t +:+ String Chars.newline rest)
    = Match (String a1 d1 +:+ "." +:+ String a2 d2 +:+ String wa w
             +:+ String ta t)
            (Some (String ta t)) :: ms.
Proof.
  intros Hpre Hlast Ha1 Hd1 Ha2 Hd2 Hwa Hw Hta Ht.
  unfold section_matches, finditer.
  rewrite scan_skips_no_dot; [|done|right; by apply not_word_not_digit].
  rewrite app_cons. cbn [scan]. rewrite <- app_cons.
  rewrite section_heading_here by done. eauto.
Qed.

End ReFacts.

(** ** C2: what counts as a section heading *)




(** ** Serializing the tree of a document *)

Lemma depth_below ty ty' :
  ty ≠ Root → level_above ty = ty' → S (depth_of ty) = depth_of ty'.
Proof. destruct ty; simpl; intros Hnr <-; done. Qed.

Lemma node_to_dict_in_range b P nm next depth :
  store_ok b P nm next →
  ∀ i n, b ≤ i → i < next → nm !! i = Some n →
    depth_of (node_type n) ≤ depth →
    is_Some (node_to_dict depth nm i).
Proof.
  intros Hst. pose proof Hst as [Hfresh Hnodes].
  induction depth as [|d IH]; intros i n Hbi Hi Hn Hd.
  { destruct (node_type n); simpl in Hd; lia. }
  simpl. rewrite Hn.
  destruct (Hnodes i Hbi Hi) as (n' & Hn' & Hok).
  assert (n' = n) as -> by congruence.
  assert (is_Some (mapM (node_to_dict d nm) (children n))) as [cs Hcs].
  { apply mapM_is_Some_2, Forall_forall. intros c Hc. simpl.
    destruct (ok_children _ _ _ _ _ Hok c Hc) as (Hlt & cn & Hcn & Hpar).
    assert (c < next) as Hcnext by (apply Hfresh; eauto).
    destruct (Hnodes c ltac:(lia) Hcnext) as (cn' & Hcn' & Hokc).
    assert (cn' = cn) as -> by congruence.
    assert (node_type cn ≠ Root) as Hnr.
    { intros Hr. destruct (ok_root _ _ _ _ _ Hokc Hr) as (? & _). lia. }
    destruct (ok_inner _ _ _ _ _ Hokc Hnr)
      as (q & qn & _ & _ & Hq & _ & _ & Hqn & Hqt & _).
    assert (q = i) as -> by congruence.
    assert (qn = n) as -> by congruence.
    apply (IH c cn); [lia|done|done|].
    pose proof (depth_below _ _ Hnr (eq_sym Hqt)). lia. }
  rewrite Hcs. eauto.
Qed.

(** The tree of a document just built can be serialized: four levels are
    well within the recursion limit. *)
Lemma node_to_dict_built b P nm0 ev0 s :
  building b P nm0 ev0 s →
  is_Some (node_to_dict recursion_limit (node_map s) b).
Proof.
  intros Hb. destruct (bd_root_node _ _ _ _ _ Hb) as (rn & Hrn & Hrt).
  pose proof (bd_store _ _ _ _ _ Hb) as Hst.
  eapply (node_to_dict_in_range _ _ _ _ _ Hst b rn); [done| |done|].
  - apply (so_fresh _ _ _ _ Hst). eauto.
  - rewrite Hrt. unfold recursion_limit, depth_of. lia.
Qed.

(** ** C9: the batch *)

Section BatchFacts.
Variable stem : string → string.
Variable path_join : string → string → string.
Variable env : Env.
Variable output_dir : string.

Local Abbreviation out_path := (output_path stem path_join output_dir).
Local Abbreviation all_clear := (doc_ok stem path_join env output_dir).

Lemma logged_logged s a b : logged (logged s a) b = logged s (a ++ b).
Proof. unfold logged. simpl. by rewrite <- app_assoc. Qed.

Lemma emit_logged e s : emit e s = (inr tt, logged s [e]).
Proof. done. Qed.

Lemma save_to_file_built b P nm0 ev0 s filename :
  building b P nm0 ev0 s → writable env filename = true →
  ∃ j, node_to_dict recursion_limit (node_map s) b = Some j ∧
       save_to_file env filename s
       = (inr tt, logged s [Wrote filename j;
                            LogInfo ("Structure saved to " +:+ filename +:+ ".")]).
Proof.
  intros Hb Hw. destruct (node_to_dict_built _ _ _ _ _ Hb) as [j Hj].
  exists j. split; [done|].
  unfold save_to_file, root_node_id, try_except, bind, get, ret, raise.
  rewrite Hw. cbv beta iota. rewrite (bd_root _ _ _ _ _ Hb).
  cbv beta iota. rewrite Hj.
  unfold logged, emit, modify. simpl. by rewrite <- app_assoc.
Qed.

Lemma save_to_file_unwritable s filename :
  writable env filename = false →
  ∃ e, save_to_file env filename s
       = (inl e, logged s [LogError ("Error saving to " +:+ filename +:+ ": "
                                     +:+ exn_msg e)]).
Proof.
  intros Hw. exists (OSError ("cannot open " +:+ filename)).
  unfold save_to_file. run_py. rewrite Hw. reflexivity.
Qed.

(** One document: either it goes through, and its tree is written, or an
    exception comes out of the [try] block and nothing was written. *)
Lemma process_one_outcome txt_path s :
  fresh s →
  ∃ res s' more,
    process_one stem path_join env txt_path output_dir s = (res, s') ∧
    events s' = events s ++ more ∧ fresh s' ∧
    (all_clear txt_path = true →
       res = inr tt ∧ wrote_paths more = [out_path txt_path] ∧
       ∃ cnt t j, file_at env txt_path = Text cnt ∧ fresh t ∧
                  tree_of (create_textbook_structure (stem txt_path) cnt t) = Some j ∧
                  Wrote (out_path txt_path) j ∈ more) ∧
    (all_clear txt_path = false → (∃ e, res = inl e) ∧ wrote_paths more = []).
Proof.
  intros Hfresh. unfold doc_ok, output_path, process_one.
  destruct (makedirs_ok env output_dir) eqn:Hmk; simpl.
  2:{ exists (inl (OSError ("cannot create " +:+ output_dir))), s, [].
      run_py. rewrite app_nil_r. repeat split; try done. eauto. }
  unfold bind at 1. unfold ret at 1.
  unfold bind at 1. rewrite emit_logged.
  unfold bind at 1. unfold extract_parse_content.
  destruct (file_at env txt_path) as [| |cnt] eqn:Hfile.
  - eexists _, _, _. run_py. split; [reflexivity|]. split; [by rewrite <- app_assoc|].
    split; [done|]. split; [done|]. intros _. split; [eauto|done].
  - eexists _, _, _. run_py. split; [reflexivity|]. split; [done|].
    split; [done|]. split; [done|]. intros _. split; [eauto|done].
  - unfold ret at 1. unfold bind at 1. rewrite emit_logged, logged_logged.
    set (t := logged s _).
    assert (fresh t) as Ht by done.
    destruct (create_builds t (stem txt_path) cnt Ht) as (s4 & Hrun & Hb).
    unfold bind at 1. rewrite Hrun.
    pose proof (bd_events _ _ _ _ _ Hb) as Hev.
    assert (fresh s4) as Hf4.
    { intros i Hi. by apply (so_fresh _ _ _ _ (bd_store _ _ _ _ _ Hb)). }
    fold (out_path txt_path).
    destruct (writable env (out_path txt_path)) eqn:Hw.
    + destruct (save_to_file_built _ _ _ _ _ _ Hb Hw) as (j & Hj & Hsave).
      unfold bind at 1. rewrite Hsave. rewrite emit_logged, logged_logged.
      eexists _, _, _. split; [reflexivity|]. split.
      { simpl. rewrite Hev. unfold t. simpl. rewrite <- app_assoc. reflexivity. }
      split; [done|]. split; [|done]. intros _.
      split; [done|]. split; [done|].
      exists cnt, t, j. split; [done|]. split; [done|]. split.
      * rewrite Hrun. exact Hj.
      * apply list_elem_of_further, list_elem_of_further. left.
    + destruct (save_to_file_unwritable s4 (out_path txt_path) Hw) as (e & Hsave).
      unfold bind at 1. rewrite Hsave.
      eexists _, _, _. split; [reflexivity|]. split.
      { simpl. rewrite Hev. unfold t. simpl. rewrite <- app_assoc. reflexivity. }
      split; [done|]. split; [done|]. intros _. split; [eauto|done].
Qed.

Lemma wrote_paths_app a b : wrote_paths (a ++ b) = wrote_paths a ++ wrote_paths b.
Proof. unfold wrote_paths. apply omap_app. Qed.

Lemma process_all_outcome txt_paths : ∀ s,
  fresh s →
  ∃ s' more,
    process_all stem path_join env txt_paths output_dir s = (inr tt, s') ∧
    events s' = events s ++ more ∧ fresh s' ∧
    wrote_paths more
      = map out_path (filter (fun p => all_clear p = true) txt_paths) ∧
    (∀ p, p ∈ txt_paths → all_clear p = false →
       ∃ msg, LogError ("Failed to process " +:+ p +:+ ": " +:+ msg) ∈ more) ∧
    (∀ p, p ∈ txt_paths → all_clear p = true →
       ∃ cnt t j, file_at env p = Text cnt ∧ fresh t ∧
                  tree_of (create_textbook_structure (stem p) cnt t) = Some j ∧
                  Wrote (out_path p) j ∈ more).
Proof.
  induction txt_paths as [|p ps IH]; intros s Hfresh.
  - exists s, []. rewrite app_nil_r. repeat split; try done.
    + intros p Hp. by apply elem_of_nil in Hp.
    + intros p Hp. by apply elem_of_nil in Hp.
  - destruct (process_one_outcome p s Hfresh)
      as (res & s1 & more1 & Hrun & Hev1 & Hf1 & Hok & Hko).
    set (s2 := match res with
               | inr _ => s1
               | inl e => logged s1 [LogError ("Failed to process " +:+ p +:+ ": "
                                               +:+ exn_msg e)]
               end).
    assert (fresh s2) as Hf2 by (unfold s2; by destruct res).
    destruct (IH s2 Hf2) as (s' & more2 & Hrun2 & Hev2 & Hf' & Hw2 & Herr2 & Hwr2).
    assert (process_all stem path_join env (p :: ps) output_dir s = (inr tt, s'))
      as Hall.
    { unfold process_all in *. simpl. unfold bind, try_except. rewrite Hrun.
      unfold s2 in Hrun2. destruct res as [e|[]]; [|done].
      rewrite emit_logged. done. }
    destruct (all_clear p) eqn:Hp.
    + destruct (Hok eq_refl) as (-> & Hw1 & cnt & t & j & Hfile & Ht & Htree & Hin).
      exists s', (more1 ++ more2). split; [done|]. split.
      { rewrite Hev2. unfold s2. rewrite Hev1. by rewrite <- app_assoc. }
      split; [done|]. split; [|split].
      * rewrite wrote_paths_app, Hw1, Hw2.
        rewrite filter_cons_True by done. done.
      * intros q [->|Hq]%elem_of_cons Hqk; [congruence|].
        destruct (Herr2 q Hq Hqk) as (msg & Hmsg). exists msg.
        apply elem_of_app. by right.
      * intros q [->|Hq]%elem_of_cons Hqk.
        -- exists cnt, t, j. repeat split; try done. apply elem_of_app. by left.
        -- destruct (Hwr2 q Hq Hqk) as (c' & t' & j' & ? & ? & ? & ?).
           exists c', t', j'. repeat split; try done. apply elem_of_app. by right.
    + destruct (Hko eq_refl) as ((e & ->) & Hw1).
      exists s', (more1 ++ LogError ("Failed to process " +:+ p +:+ ": "
                                     +:+ exn_msg e) :: more2).
      split; [done|]. split.
      { rewrite Hev2. unfold s2, logged. simpl. rewrite Hev1.
        rewrite <- !app_assoc. done. }
      split; [done|]. split; [|split].
      * rewrite wrote_paths_app, Hw1. simpl.
        rewrite filter_cons_False by congruence.
        change (wrote_paths (LogError ("Failed to process " +:+ p +:+ ": "
                                       +:+ exn_msg e) :: more2))
          with (wrote_paths more2). done.
      * intros q [->|Hq]%elem_of_cons Hqk.
        -- exists (exn_msg e). apply elem_of_app. right. left.
        -- destruct (Herr2 q Hq Hqk) as (msg & Hmsg). exists msg.
           apply elem_of_app. right. by right.
      * intros q [->|Hq]%elem_of_cons Hqk; [congruence|].
        destruct (Hwr2 q Hq Hqk) as (c' & t' & j' & ? & ? & ? & ?).
        exists c', t', j'. repeat split; try done.
        apply elem_of_app. right. by right.
Qed.

End BatchFacts.

(** C9: whatever the input files and the file system do to single
    documents, the batch returns normally; the files written are, in order,
    those of the documents nothing stood in the way of; each such record is
    the tree the builder makes of that document's text; and each failed
    document left a "Failed to process" error in the log. *)
Theorem batch_survives_failures stem path_join env txt_paths output_dir supply evs :
  ∃ s' more,
    process_textbooks stem path_join env txt_paths output_dir supply evs
      = (inr tt, s') ∧
    events s' = evs ++ more ∧
    wrote_paths more
      = map (output_path stem path_join output_dir)
          (filter (fun p => doc_ok stem path_join env output_dir p = true)
             txt_paths) ∧
    (∀ p, p ∈ txt_paths → doc_ok stem path_join env output_dir p = false →
       ∃ msg, LogError ("Failed to process " +:+ p +:+ ": " +:+ msg) ∈ more) ∧
    (∀ p, p ∈ txt_paths → doc_ok stem path_join env output_dir p = true →
       ∃ cnt t j, file_at env p = Text cnt ∧ fresh t ∧
                  tree_of (create_textbook_structure (stem p) cnt t) = Some j ∧
                  Wrote (output_path stem path_join output_dir p) j ∈ more).
Proof.
  unfold process_textbooks.
  destruct (process_all_outcome stem path_join env output_dir txt_paths
              (new_processor supply evs) (fresh_new_processor supply evs))
    as (s' & more & Hrun & Hev & _ & Hw & Herr & Hwr).
  exists s', more. done.
Qed.

(** ** C3: two builds of one document

    Two runs of the builder on the same title and text, from any two
    states, go in step: node [b1 + o] of the one is node [b2 + o] of the
    other, up to the names. *)

Lemma alike_append_child b1 b2 n1 n2 o :
  alike b1 b2 n1 n2 →
  alike b1 b2 (append_child (b1 + o) n1) (append_child (b2 + o) n2).
Proof.
  intros [Ht Hc Hty Hpg Hmd Hpar (cs & Hc1 & Hc2)]. split; simpl; try done.
  exists (cs ++ [o]). rewrite !fmap_app, Hc1, Hc2. done.
Qed.

Lemma in_step_attach b1 b2 s1 s2 p1 p2 ttl cnt ty k cc1 cc2 cs1 cs2 :
  in_step b1 b2 s1 s2 →
  same_offset b1 b2 (Some p1) (Some p2) →
  p1 < uuid_next s1 → p2 < uuid_next s2 →
  same_offset b1 b2 cc1 cc2 → same_offset b1 b2 cs1 cs2 →
  in_step b1 b2
    (mkState (S (uuid_next s1)) (root s1)
       (attach p1 (uuid_next s1) (born ttl cnt ty (uuid_next s1) p1 k) (node_map s1))
       cc1 cs1 (events s1))
    (mkState (S (uuid_next s2)) (root s2)
       (attach p2 (uuid_next s2) (born ttl cnt ty (uuid_next s2) p2 k) (node_map s2))
       cc2 cs2 (events s2)).
Proof.
  intros [Hb1 Hb2 Hlen Hch Hsec Hnodes] (Hbp1 & Hbp2 & Hp) Hp1 Hp2 Hcc Hcs.
  split; simpl; try done; try lia.
  intros o Ho.
  destruct (decide (o = uuid_next s1 - b1)) as [->|Hne].
  - replace (b1 + (uuid_next s1 - b1)) with (uuid_next s1) by lia.
    replace (b2 + (uuid_next s1 - b1)) with (uuid_next s2) by lia.
    eexists _, _. rewrite !lookup_attach_new. split; [done|]. split; [done|].
    split; simpl; try done. by exists [].
  - destruct (Hnodes o) as (n1 & n2 & Hn1 & Hn2 & Hal); [lia|].
    rewrite !lookup_attach_old by lia. rewrite Hn1, Hn2. simpl.
    eexists _, _. split; [done|]. split; [done|].
    destruct (decide (b1 + o = p1)) as [He1|He1];
      destruct (decide (b2 + o = p2)) as [He2|He2]; try lia; [|done].
    replace (uuid_next s1) with (b1 + (uuid_next s1 - b1)) by lia.
    replace (uuid_next s2) with (b2 + (uuid_next s1 - b1)) by lia.
    by apply alike_append_child.
Qed.

Section Twins.
Variables (b1 b2 : nat) (P : list (nat * string)).
Variables (nm1 nm2 : gmap nat TextNode) (ev1 ev2 : list event).

Local Abbreviation twins := (twin_builds b1 b2 P nm1 nm2 ev1 ev2).

Lemma for_each_twins {A} (I : State → State → Prop) (xs : list A)
    (body : A → M unit) :
  (∀ x s1 s2, x ∈ xs → I s1 s2 →
     ∃ s1' s2', body x s1 = (inr tt, s1') ∧ body x s2 = (inr tt, s2') ∧ I s1' s2') →
  ∀ s1 s2, I s1 s2 →
    ∃ s1' s2', for_each xs body s1 = (inr tt, s1') ∧
               for_each xs body s2 = (inr tt, s2') ∧ I s1' s2'.
Proof.
  induction xs as [|x xs IH]; intros Hbody s1 s2 Hs; simpl.
  - by exists s1, s2.
  - destruct (Hbody x s1 s2) as (t1 & t2 & Hx1 & Hx2 & Ht); [left|done|].
    destruct (IH (fun y u1 u2 Hy => Hbody y u1 u2 (list_elem_of_further _ _ _ Hy))
                t1 t2 Ht) as (u1 & u2 & Hxs1 & Hxs2 & Hu).
    exists u1, u2. unfold bind. rewrite Hx1, Hx2. done.
Qed.

Lemma same_offset_new s1 s2 :
  in_step b1 b2 s1 s2 →
  same_offset b1 b2 (Some (uuid_next s1)) (Some (uuid_next s2)).
Proof. intros [? ? ? _ _ _]. simpl. lia. Qed.

Lemma chapter_step_twins k pc m s1 s2 :
  twins s1 s2 → (k, pc) ∈ P → m ∈ chapter_matches (page_text_of pc) →
  ∃ s1' s2', chapter_step k m s1 = (inr tt, s1') ∧
             chapter_step k m s2 = (inr tt, s2') ∧ twins s1' s2'.
Proof.
  intros (Hb1 & Hb2 & Hst) HP Hm.
  pose proof Hb1 as [Hs1 Hroot1 (rn1 & Hrn1 & Hrt1) _ _ _ _].
  pose proof Hb2 as [Hs2 Hroot2 (rn2 & Hrn2 & Hrt2) _ _ _ _].
  eexists _, _. split; [by apply chapter_step_eq with (r := b1)|].
  split; [by apply chapter_step_eq with (r := b2)|].
  assert (origin k (page_text_of pc)
            (born ("Chapter: " +:+ fmt_group m) None Chapter 0 0 k)) as Ho
    by (split; [done|by exists m]).
  split; [|split].
  - eapply building_attach; eauto.
  - eapply building_attach; eauto.
  - apply in_step_attach; try done.
    + pose proof (st_b1 _ _ _ _ Hst). pose proof (st_b2 _ _ _ _ Hst).
      simpl. lia.
    + apply (so_fresh _ _ _ _ Hs1). eauto.
    + apply (so_fresh _ _ _ _ Hs2). eauto.
    + by apply same_offset_new.
    + apply (st_section _ _ _ _ Hst).
Qed.

Lemma section_step_twins k pc m s1 s2 :
  twins s1 s2 → is_Some (current_chapter s1) →
  (k, pc) ∈ P → m ∈ section_matches (page_text_of pc) →
  ∃ s1' s2', section_step k m s1 = (inr tt, s1') ∧
             section_step k m s2 = (inr tt, s2') ∧
             twins s1' s2' ∧ is_Some (current_chapter s1').
Proof.
  intros (Hb1 & Hb2 & Hst) [c1 Hc1] HP Hm.
  pose proof (st_chapter _ _ _ _ Hst) as Hoff. rewrite Hc1 in Hoff.
  destruct (current_chapter s2) as [c2|] eqn:Hc2; [|done].
  destruct (bd_chapter _ _ _ _ _ Hb1 c1 Hc1) as (Hbc1 & n1 & Hn1 & Hnt1).
  destruct (bd_chapter _ _ _ _ _ Hb2 c2 Hc2) as (Hbc2 & n2 & Hn2 & Hnt2).
  eexists _, _. split; [by apply section_step_eq with (ch := c1)|].
  split; [by apply section_step_eq with (ch := c2)|].
  assert (origin k (page_text_of pc)
            (born ("Section: " +:+ fmt_group m) None Section 0 0 k)) as Ho
    by (split; [done|by exists m]).
  split; [split; [|split]|by rewrite Hc1].
  - eapply building_attach; eauto.
  - eapply building_attach; eauto.
  - apply in_step_attach; try done.
    + apply (so_fresh _ _ _ _ (bd_store _ _ _ _ _ Hb1)). eauto.
    + apply (so_fresh _ _ _ _ (bd_store _ _ _ _ _ Hb2)). eauto.
    + rewrite Hc1, Hc2. done.
    + by apply same_offset_new.
Qed.

Lemma paragraph_step_twins k pc para s1 s2 :
  twins s1 s2 → is_Some (current_section s1) →
  (k, pc) ∈ P → para ∈ paragraphs (page_text_of pc) →
  ∃ s1' s2', paragraph_step k para s1 = (inr tt, s1') ∧
             paragraph_step k para s2 = (inr tt, s2') ∧
             twins s1' s2' ∧ is_Some (current_section s1').
Proof.
  intros (Hb1 & Hb2 & Hst) [c1 Hc1] HP Hm.
  destruct (le_lt_dec (String.length para) 100) as [Hshort|Hlong].
  { exists s1, s2. rewrite !paragraph_step_short by done.
    split; [done|]. split; [done|]. split; [done|]. by rewrite Hc1. }
  pose proof (st_section _ _ _ _ Hst) as Hoff. rewrite Hc1 in Hoff.
  destruct (current_section s2) as [c2|] eqn:Hc2; [|done].
  destruct (bd_section _ _ _ _ _ Hb1 c1 Hc1) as (Hbc1 & n1 & Hn1 & Hnt1).
  destruct (bd_section _ _ _ _ _ Hb2 c2 Hc2) as (Hbc2 & n2 & Hn2 & Hnt2).
  eexists _, _. split; [by apply paragraph_step_long with (sec := c1)|].
  split; [by apply paragraph_step_long with (sec := c2)|].
  assert (origin k (page_text_of pc)
            (born ("Content from page " +:+ Str.of_nat k) (Some para) Leaf 0 0 k))
    as Ho by (split; [done|by exists para]).
  split; [split; [|split]|by rewrite Hc1].
  - eapply building_attach; eauto.
  - eapply building_attach; eauto.
  - apply in_step_attach; try done.
    + apply (so_fresh _ _ _ _ (bd_store _ _ _ _ _ Hb1)). eauto.
    + apply (so_fresh _ _ _ _ (bd_store _ _ _ _ _ Hb2)). eauto.
    + apply (st_chapter _ _ _ _ Hst).
    + rewrite Hc1, Hc2. done.
Qed.

Lemma page_body_twins k pc s1 s2 :
  twins s1 s2 → (k, pc) ∈ P →
  ∃ s1' s2', page_body k pc s1 = (inr tt, s1') ∧
             page_body k pc s2 = (inr tt, s2') ∧ twins s1' s2'.
Proof.
  intros Htw HP. unfold page_body.
  destruct (for_each_twins twins (chapter_matches (page_text_of pc))
              (chapter_step k)) with (s1 := s1) (s2 := s2)
    as (t1 & t2 & Hc1 & Hc2 & Ht); [|done|].
  { intros m u1 u2 Hm Hu. by eapply chapter_step_twins. }
  assert (∃ u1 u2, section_phase k (page_text_of pc) t1 = (inr tt, u1) ∧
                   section_phase k (page_text_of pc) t2 = (inr tt, u2) ∧
                   twins u1 u2) as (u1 & u2 & Hs1 & Hs2 & Hu).
  { unfold section_phase. run_py.
    pose proof (st_chapter _ _ _ _ (proj2 (proj2 Ht))) as Hoff.
    destruct (current_chapter t1) as [c1|] eqn:Hcc1;
      destruct (current_chapter t2) as [c2|] eqn:Hcc2; try done; [|by exists t1, t2].
    destruct (for_each_twins
                (fun u1 u2 => twins u1 u2 ∧ is_Some (current_chapter u1))
                (section_matches (page_text_of pc)) (section_step k))
      with (s1 := t1) (s2 := t2) as (u1 & u2 & H1 & H2 & Hu & _).
    - intros m v1 v2 Hm [Hv Hsome].
      destruct (section_step_twins k pc m v1 v2 Hv Hsome HP Hm)
        as (w1 & w2 & ? & ? & ? & ?). eauto 10.
    - rewrite Hcc1. eauto.
    - eauto. }
  assert (∃ v1 v2, leaf_phase k (page_text_of pc) u1 = (inr tt, v1) ∧
                   leaf_phase k (page_text_of pc) u2 = (inr tt, v2) ∧
                   twins v1 v2) as (v1 & v2 & Hl1 & Hl2 & Hv).
  { unfold leaf_phase. run_py.
    pose proof (st_section _ _ _ _ (proj2 (proj2 Hu))) as Hoff.
    destruct (current_section u1) as [c1|] eqn:Hcc1;
      destruct (current_section u2) as [c2|] eqn:Hcc2; try done; [|by exists u1, u2].
    destruct (for_each_twins
                (fun v1 v2 => twins v1 v2 ∧ is_Some (current_section v1))
                (paragraphs (page_text_of pc)) (paragraph_step k))
      with (s1 := u1) (s2 := u2) as (v1 & v2 & H1 & H2 & Hv & _).
    - intros m w1 w2 Hm [Hw Hsome].
      destruct (paragraph_step_twins k pc m w1 w2 Hw Hsome HP Hm)
        as (x1 & x2 & ? & ? & ? & ?). eauto 10.
    - rewrite Hcc1. eauto.
    - eauto. }
  exists v1, v2. unfold bind, chapter_phase.
  rewrite Hc1, Hc2, Hs1, Hs2, Hl1, Hl2. done.
Qed.

Lemma process_page_twins page s1 s2 :
  twins s1 s2 → page ∈ P →
  ∃ s1' s2', process_page page s1 = (inr tt, s1') ∧
             process_page page s2 = (inr tt, s2') ∧ twins s1' s2'.
Proof.
  intros Htw HP. destruct page as [k pc].
  destruct (page_body_twins k pc s1 s2 Htw HP) as (t1 & t2 & H1 & H2 & Ht).
  exists t1, t2. unfold process_page, try_except. simpl. by rewrite H1, H2.
Qed.

End Twins.

Lemma in_step_rooted s1 s2 ttl :
  in_step (uuid_next s1) (uuid_next s2) (rooted s1 ttl) (rooted s2 ttl).
Proof.
  split; simpl; try done; try lia.
  intros o Ho. assert (o = 0) as -> by lia. rewrite !Nat.add_0_r.
  eexists _, _. rewrite !lookup_insert_eq. split; [done|]. split; [done|].
  split; simpl; try done. by exists [].
Qed.

Lemma create_twins s1 s2 ttl cnt :
  fresh s1 → fresh s2 →
  ∃ s1' s2',
    create_textbook_structure ttl cnt s1 = (inr (uuid_next s1), s1') ∧
    create_textbook_structure ttl cnt s2 = (inr (uuid_next s2), s2') ∧
    twin_builds (uuid_next s1) (uuid_next s2) (pages_of cnt)
      (node_map s1) (node_map s2) (events s1) (events s2) s1' s2'.
Proof.
  intros Hf1 Hf2.
  destruct (for_each_twins
              (twin_builds (uuid_next s1) (uuid_next s2) (pages_of cnt)
                 (node_map s1) (node_map s2) (events s1) (events s2))
              (pages_of cnt) process_page)
    with (s1 := rooted s1 ttl) (s2 := rooted s2 ttl)
    as (t1 & t2 & H1 & H2 & Ht).
  - intros page u1 u2 Hp Hu. by eapply process_page_twins.
  - split; [by apply building_rooted|]. split; [by apply building_rooted|].
    apply in_step_rooted.
  - exists t1, t2. rewrite !create_unfold. unfold bind. rewrite H1, H2.
    unfold root_node_id. run_py.
    pose proof Ht as (Hb1 & Hb2 & _).
    rewrite (bd_root _ _ _ _ _ Hb1), (bd_root _ _ _ _ _ Hb2). done.
Qed.

Lemma mapM_alike (f1 f2 : nat → option JNode) l1 l2 :
  Forall2 (fun x y => erase_ids <$> f1 x = erase_ids <$> f2 y) l1 l2 →
  map erase_ids <$> mapM f1 l1 = map erase_ids <$> mapM f2 l2.
Proof.
  induction 1 as [|x y l1 l2 Hxy _ IH]; [done|]. simpl.
  destruct (f1 x) as [j1|]; destruct (f2 y) as [j2|]; simpl in *; try done.
  injection Hxy as Hxy.
  destruct (mapM f1 l1) as [k1|]; destruct (mapM f2 l2) as [k2|];
    simpl in *; try done.
  injection IH as IH. by rewrite Hxy, IH.
Qed.

Lemma trees_alike b1 b2 P nm01 ev01 s1 s2 depth :
  building b1 P nm01 ev01 s1 → in_step b1 b2 s1 s2 →
  ∀ o, o < uuid_next s1 - b1 →
    erase_ids <$> node_to_dict depth (node_map s1) (b1 + o)
    = erase_ids <$> node_to_dict depth (node_map s2) (b2 + o).
Proof.
  intros Hb1 Hst. pose proof (bd_store _ _ _ _ _ Hb1) as [Hfresh Hnodes].
  induction depth as [|d IH]; intros o Ho; [done|].
  destruct (st_nodes _ _ _ _ Hst o Ho) as (n1 & n2 & Hn1 & Hn2 & Hal).
  simpl. rewrite Hn1, Hn2.
  destruct Hal as [Ht Hc Hty Hpg Hmd _ (cs & Hc1 & Hc2)].
  assert (Forall (fun c => c < uuid_next s1 - b1) cs) as Hcs.
  { apply Forall_forall. intros c Hc'.
    destruct (Hnodes (b1 + o)) as (n1' & Hn1' & Hok); [lia|lia|].
    assert (n1' = n1) as -> by congruence.
    destruct (ok_children _ _ _ _ _ Hok (b1 + c)) as (_ & cn & Hcn & _).
    { rewrite Hc1. apply list_elem_of_fmap. eauto. }
    specialize (Hfresh (b1 + c) (mk_is_Some _ _ Hcn)). lia. }
  assert (map erase_ids <$> mapM (node_to_dict d (node_map s1)) (children n1)
          = map erase_ids <$> mapM (node_to_dict d (node_map s2)) (children n2))
    as Hkids.
  { apply mapM_alike. rewrite Hc1, Hc2. apply Forall2_fmap, Forall_Forall2_diag.
    eapply Forall_impl; [exact Hcs|]. intros c Hc'. by apply IH. }
  destruct (mapM (node_to_dict d (node_map s1)) (children n1)) as [k1|];
    destruct (mapM (node_to_dict d (node_map s2)) (children n2)) as [k2|];
    simpl in *; try done.
  injection Hkids as Hkids. by rewrite Ht, Hc, Hty, Hpg, Hmd, Hkids.
Qed.

(** The batch of the specification's scenario: three documents, the second
    missing. *)
Example three_documents_second_missing :
  (process_textbooks demo_stem demo_join demo_env
     ["a.txt"; "b.txt"; "c.txt"] "out" 0 []).1 = inr tt ∧
  wrote_paths (events (demo_run ["a.txt"; "b.txt"; "c.txt"]))
  = ["out/a_structure.json"; "out/c_structure.json"] ∧
  LogError "Failed to process b.txt: Text file b.txt not found."
  ∈ events (demo_run ["a.txt"; "b.txt"; "c.txt"]).
Proof.
  split; [vm_compute; reflexivity|]. split; [vm_compute; reflexivity|].
  vm_compute. do 7 right. left.
Qed.

(** C3, as stated, fails: the node index is the processor's, and the
    processor is made once for the batch.  Built alone, "c.txt" leaves an
    index of three nodes; built after "a.txt", it leaves one of five, in
    which node 0 is still the root of "a.txt". *)
Lemma node_index_is_shared :
  size (node_map (demo_run ["c.txt"])) = 3 ∧
  size (node_map (demo_run ["a.txt"; "c.txt"])) = 5 ∧
  root (demo_run ["a.txt"; "c.txt"]) = Some 2 ∧
  title <$> node_map (demo_run ["a.txt"; "c.txt"]) !! 0 = Some "a".
Proof. repeat split; vm_compute; reflexivity. Qed.

(** C3, amended: for each document the builder starts from a new root and
    unset cursors, and the tree it returns is, up to node ids, the same
    whatever state the processor was left in by earlier documents; the node
    index is not emptied: the entries of earlier documents stay in it,
    unchanged, beside those of the new document. *)
Theorem documents_share_only_the_index s1 s2 ttl cnt :
  fresh s1 → fresh s2 →
  ∃ s1' s2' j1 j2,
    create_textbook_structure ttl cnt s1 = (inr (uuid_next s1), s1') ∧
    create_textbook_structure ttl cnt s2 = (inr (uuid_next s2), s2') ∧
    create_textbook_structure ttl cnt s1
      = bind (for_each (pages_of cnt) process_page) (fun _ => root_node_id)
          (rooted s1 ttl) ∧
    current_chapter (rooted s1 ttl) = None ∧
    current_section (rooted s1 ttl) = None ∧
    node_map s1 !! uuid_next s1 = None ∧
    node_to_dict recursion_limit (node_map s1') (uuid_next s1) = Some j1 ∧
    node_to_dict recursion_limit (node_map s2') (uuid_next s2) = Some j2 ∧
    erase_ids j1 = erase_ids j2 ∧
    (∀ i n, node_map s1 !! i = Some n → node_map s1' !! i = Some n).
Proof.
  intros Hf1 Hf2.
  destruct (create_twins s1 s2 ttl cnt Hf1 Hf2) as (s1' & s2' & H1 & H2 & Hb1 & Hb2 & Hst).
  destruct (node_to_dict_built _ _ _ _ _ Hb1) as [j1 Hj1].
  destruct (node_to_dict_built _ _ _ _ _ Hb2) as [j2 Hj2].
  exists s1', s2', j1, j2. repeat split; try done.
  - destruct (node_map s1 !! uuid_next s1) eqn:E; [|done].
    specialize (Hf1 _ (mk_is_Some _ _ E)). lia.
  - pose proof (trees_alike _ _ _ _ _ _ _ recursion_limit Hb1 Hst 0) as Heq.
    rewrite !Nat.add_0_r, Hj1, Hj2 in Heq.
    assert (0 < uuid_next s1' - uuid_next s1) as Hpos.
    { destruct (bd_root_node _ _ _ _ _ Hb1) as (rn & Hrn & _).
      pose proof (so_fresh _ _ _ _ (bd_store _ _ _ _ _ Hb1) _ (mk_is_Some _ _ Hrn)).
      lia. }
    specialize (Heq Hpos). by injection Heq.
  - intros i n Hn. rewrite (bd_old _ _ _ _ _ Hb1); [done|].
    apply Hf1. eauto.
Qed.

Lemma documents_share_only_the_index_witness :
  fresh (new_processor 0 []) ∧ fresh in_section ∧
  ∃ s1' s2' j1 j2,
    create_textbook_structure "Book" scenario (new_processor 0 []) = (inr 0, s1') ∧
    create_textbook_structure "Book" scenario in_section = (inr 3, s2') ∧
    node_to_dict recursion_limit (node_map s1') 0 = Some j1 ∧
    node_to_dict recursion_limit (node_map s2') 3 = Some j2 ∧
    erase_ids j1 = erase_ids j2 ∧
    (∀ i n, node_map in_section !! i = Some n → node_map s2' !! i = Some n).
Proof.
  split; [apply fresh_new_processor|]. split; [apply fresh_in_section|].
  destruct (documents_share_only_the_index (new_processor 0 []) in_section
              "Book" scenario (fresh_new_processor 0 []) fresh_in_section)
    as (s1' & s2' & j1 & j2 & H1 & H2 & _ & _ & _ & _ & Hj1 & Hj2 & Heq & _).
  destruct (documents_share_only_the_index in_section (new_processor 0 [])
              "Book" scenario fresh_in_section (fresh_new_processor 0 []))
    as (t2 & _ & _ & _ & H2' & _ & _ & _ & _ & _ & _ & _ & _ & Hold).
  rewrite H2 in H2'. injection H2' as <-.
  exists s1', s2', j1, j2.
  split; [exact H1|]. split; [exact H2|]. split; [exact Hj1|].
  split; [exact Hj2|]. split; [exact Heq|exact Hold].
Defined.

(** ** Every node made is in the tree *)

Lemma all_in_tree b P nm0 ev0 s :
  building b P nm0 ev0 s →
  ∀ i, b ≤ i → i < uuid_next s → in_tree (node_map s) b i.
Proof.
  intros Hb. pose proof (bd_store _ _ _ _ _ Hb) as [Hfresh Hnodes].
  destruct (bd_root_node _ _ _ _ _ Hb) as (rn & Hrn & Hrt).
  intros i. induction (lt_wf i) as [i _ IH]. intros Hbi Hi.
  destruct (Hnodes i Hbi Hi) as (n & Hn & Hok).
  destruct (decide (node_type n = Root)) as [Hr|Hnr].
  - destruct (ok_root _ _ _ _ _ Hok Hr) as (-> & _). apply in_tree_root.
  - destruct (ok_inner _ _ _ _ _ Hok Hnr)
      as (p & pn & _ & _ & _ & Hbp & Hpi & Hpn & _ & Hin & _).
    eapply in_tree_child; [apply (IH p); lia|done|done].
Qed.

Lemma child_type_level ty ty' :
  ty ≠ Root → level_above ty = ty' → child_type ty' = Some ty.
Proof. destruct ty; simpl; intros Hnr <-; done. Qed.

(** X1: the tree the builder returns is a tree: names are keys, every node but
    the root hangs in the children of its parent, which was made before
    it, and every child points back to its parent. *)
Theorem tree_is_well_linked s ttl cnt :
  fresh s →
  ∃ r s',
    create_textbook_structure ttl cnt s = (inr r, s') ∧
    (∀ i, in_tree (node_map s') r i ↔ r ≤ i ∧ i < uuid_next s') ∧
    ∀ i, in_tree (node_map s') r i →
      ∃ n, node_map s' !! i = Some n ∧ node_id n = i ∧
           (i = r → parent_id n = None ∧ node_type n = Root) ∧
           (i ≠ r →
              ∃ p pn, parent_id n = Some p ∧ p < i ∧
                      in_tree (node_map s') r p ∧
                      node_map s' !! p = Some pn ∧ i ∈ children pn) ∧
           (∀ c, c ∈ children n →
              i < c ∧ ∃ cn, node_map s' !! c = Some cn ∧ parent_id cn = Some i).
Proof.
  intros Hfresh. destruct (create_builds s ttl cnt Hfresh) as (s' & Hrun & Hb).
  exists (uuid_next s), s'. split; [done|].
  pose proof (bd_store _ _ _ _ _ Hb) as [Hfr Hnodes].
  split.
  { intros i. split.
    - by apply in_tree_range with (P := pages_of cnt) (nm0 := node_map s)
                                  (ev0 := events s).
    - intros [? ?]. by eapply all_in_tree. }
  intros i Hi. destruct (in_tree_range _ _ _ _ _ _ Hb Hi) as [Hbi Hlt].
  destruct (Hnodes i Hbi Hlt) as (n & Hn & Hok).
  exists n. split; [done|]. split; [apply (ok_id _ _ _ _ _ Hok)|].
  split; [|split].
  - intros ->. destruct (bd_root_node _ _ _ _ _ Hb) as (rn & Hrn & Hrt).
    assert (rn = n) as -> by congruence.
    by destruct (ok_root _ _ _ _ _ Hok Hrt) as (_ & ? & _).
  - intros Hne.
    assert (node_type n ≠ Root) as Hnr.
    { intros Hr. by destruct (ok_root _ _ _ _ _ Hok Hr) as (? & _). }
    destruct (ok_inner _ _ _ _ _ Hok Hnr)
      as (p & pn & _ & _ & Hp & Hbp & Hpi & Hpn & _ & Hin & _).
    exists p, pn. repeat split; try done.
    eapply all_in_tree; [done|done|lia].
  - apply (ok_children _ _ _ _ _ Hok).
Qed.

Lemma tree_is_well_linked_witness :
  fresh in_section ∧
  ∃ r s',
    create_textbook_structure "Book" one_section in_section = (inr r, s') ∧
    (∀ i, in_tree (node_map s') r i ↔ r ≤ i ∧ i < uuid_next s').
Proof.
  split; [apply fresh_in_section|].
  destruct (tree_is_well_linked in_section "Book" one_section fresh_in_section)
    as (r & s' & Hrun & Hrange & _).
  by exists r, s'.
Defined.

(** ** Four levels *)

Lemma jdepth_in_range b P nm next depth :
  store_ok b P nm next →
  ∀ i n j, b ≤ i → i < next → nm !! i = Some n →
    node_to_dict depth nm i = Some j → jdepth j ≤ depth_of (node_type n).
Proof.
  intros Hst. pose proof Hst as [Hfresh Hnodes].
  induction depth as [|d IH]; intros i n j Hbi Hi Hn Hj; [done|].
  simpl in Hj. rewrite Hn in Hj.
  destruct (mapM (node_to_dict d nm) (children n)) as [cs|] eqn:Hcs; [|done].
  injection Hj as <-. simpl.
  destruct (Hnodes i Hbi Hi) as (n' & Hn' & Hok).
  assert (n' = n) as -> by congruence.
  assert (∀ c jc, c ∈ children n → node_to_dict d nm c = Some jc →
            jdepth jc < depth_of (node_type n)) as Hkid.
  { intros c jc Hin Hc.
    destruct (ok_children _ _ _ _ _ Hok c Hin) as (Hlt & cn & Hcn & Hpar).
    assert (c < next) as Hcnext by (apply Hfresh; eauto).
    destruct (Hnodes c ltac:(lia) Hcnext) as (cn' & Hcn' & Hokc).
    assert (cn' = cn) as -> by congruence.
    assert (node_type cn ≠ Root) as Hnr.
    { intros Hr. destruct (ok_root _ _ _ _ _ Hokc Hr) as (? & _). lia. }
    destruct (ok_inner _ _ _ _ _ Hokc Hnr)
      as (q & qn & _ & _ & Hq & _ & _ & Hqn & Hqt & _).
    assert (q = i) as -> by congruence.
    assert (qn = n) as -> by congruence.
    pose proof (IH c cn jc ltac:(lia) Hcnext Hcn Hc).
    pose proof (depth_below _ _ Hnr (eq_sym Hqt)). lia. }
  assert (Forall (fun c => jdepth c < depth_of (node_type n)) cs) as Hall.
  { apply mapM_Some_1 in Hcs. revert Hkid Hcs. generalize (children n).
    intros kids Hkid Hcs. revert Hkid.
    induction Hcs as [|c jc l k Hc _ IHl]; intros Hkid; [done|].
    apply Forall_cons. split.
    - apply (Hkid c); [left|done].
    - apply IHl. intros c' jc' Hc'. apply Hkid. by right. }
  assert (0 < depth_of (node_type n)) as Hpos by (destruct (node_type n); simpl; lia).
  clear -Hall Hpos. induction Hall as [|c l Hc _ IHl]; simpl; lia.
Qed.

(** X2: the tree has at most four levels, typed from the top: the children of
    the root are chapters, those of a chapter sections, those of a section
    leaves, and a leaf has no child. *)
Theorem tree_has_four_levels s ttl cnt :
  fresh s →
  ∃ r s' j,
    create_textbook_structure ttl cnt s = (inr r, s') ∧
    node_to_dict recursion_limit (node_map s') r = Some j ∧ jdepth j ≤ 4 ∧
    ∀ p pn c cn, in_tree (node_map s') r p → node_map s' !! p = Some pn →
      c ∈ children pn → node_map s' !! c = Some cn →
      child_type (node_type pn) = Some (node_type cn).
Proof.
  intros Hfresh. destruct (create_builds s ttl cnt Hfresh) as (s' & Hrun & Hb).
  destruct (node_to_dict_built _ _ _ _ _ Hb) as [j Hj].
  exists (uuid_next s), s', j. split; [done|]. split; [done|].
  pose proof (bd_store _ _ _ _ _ Hb) as Hst.
  destruct (bd_root_node _ _ _ _ _ Hb) as (rn & Hrn & Hrt).
  split.
  - pose proof (jdepth_in_range _ _ _ _ recursion_limit Hst (uuid_next s) rn j) as Hd.
    rewrite Hrt in Hd. apply Hd; try done.
    apply (so_fresh _ _ _ _ Hst). eauto.
  - intros p pn c cn Hp Hpn Hc Hcn.
    assert (in_tree (node_map s') (uuid_next s) c) as Hci by (by eapply in_tree_child).
    pose proof (in_tree_node_ok _ _ _ _ _ _ _ Hb Hp Hpn) as Hokp.
    pose proof (in_tree_node_ok _ _ _ _ _ _ _ Hb Hci Hcn) as Hokc.
    destruct (ok_children _ _ _ _ _ Hokp c Hc) as (Hlt & cn' & Hcn' & Hpar).
    assert (cn' = cn) as -> by congruence.
    destruct (in_tree_range _ _ _ _ _ _ Hb Hp) as [Hbp _].
    assert (node_type cn ≠ Root) as Hnr.
    { intros Hr. destruct (ok_root _ _ _ _ _ Hokc Hr) as (? & _). lia. }
    destruct (ok_inner _ _ _ _ _ Hokc Hnr)
      as (q & qn & _ & _ & Hq & _ & _ & Hqn & Hqt & _).
    assert (q = p) as -> by congruence.
    assert (qn = pn) as -> by congruence.
    by apply child_type_level.
Qed.

Lemma tree_has_four_levels_witness :
  fresh in_section ∧
  ∃ r s' j,
    create_textbook_structure "Book" one_section in_section = (inr r, s') ∧
    node_to_dict recursion_limit (node_map s') r = Some j ∧ jdepth j ≤ 4.
Proof.
  split; [apply fresh_in_section|].
  destruct (tree_has_four_levels in_section "Book" one_section fresh_in_section)
    as (r & s' & j & Hrun & Hj & Hd & _).
  by exists r, s', j.
Defined.

(** ** The builder on well-formed states *)

(** X3: from any state whose names are fresh the builder returns a new root
    without raising and without logging: the handler of the page loop is
    never entered. *)
Theorem builder_is_silent s ttl cnt :
  fresh s →
  ∃ s',
    create_textbook_structure ttl cnt s = (inr (uuid_next s), s') ∧
    events s' = events s ∧
    root s' = Some (uuid_next s) ∧
    node_map s !! uuid_next s = None ∧
    (∃ rn, node_map s' !! uuid_next s = Some rn ∧ title rn = ttl ∧
           node_type rn = Root ∧ content rn = None) ∧
    fresh s' ∧ uuid_next s < uuid_next s'.
Proof.
  intros Hfresh. destruct (create_builds s ttl cnt Hfresh) as (s' & Hrun & Hb).
  exists s'. split; [done|].
  pose proof (bd_store _ _ _ _ _ Hb) as Hst.
  destruct (bd_root_node _ _ _ _ _ Hb) as (rn & Hrn & Hrt).
  assert (uuid_next s < uuid_next s') as Hlt
    by (apply (so_fresh _ _ _ _ Hst); eauto).
  split; [apply (bd_events _ _ _ _ _ Hb)|].
  split; [apply (bd_root _ _ _ _ _ Hb)|].
  split.
  { destruct (node_map s !! uuid_next s) eqn:E; [|done].
    specialize (Hfresh _ (mk_is_Some _ _ E)). lia. }
  split; [|split; [|done]].
  - pose proof (steady_for_each (pages_of cnt) process_page steady_process_page
                  (rooted s ttl)) as Hev.
    destruct Hev as (_ & Hgr & _).
    { intros i Hi. simpl in *. destruct (decide (i = uuid_next s)) as [->|Hne]; [lia|].
      rewrite lookup_insert_ne in Hi by done. apply Hfresh in Hi. lia. }
    rewrite create_unfold in Hrun. unfold bind in Hrun.
    destruct (for_each (pages_of cnt) process_page (rooted s ttl)) as [[e|[]] t] eqn:Hloop;
      [done|].
    unfold root_node_id in Hrun. simpl in Hgr.
    destruct (Hgr (uuid_next s) (mkTextNode ttl None Root (uuid_next s) None [] [] []))
      as (n' & Hn' & Ht & Hc & Hty & _); [apply lookup_insert_eq|].
    assert (t = s') as ->.
    { revert Hrun. unfold bind, get, ret, raise. destruct (root t); congruence. }
    exists n'. done.
  - intros i Hi. by apply (so_fresh _ _ _ _ Hst).
Qed.

Lemma builder_is_silent_witness :
  fresh in_section ∧
  ∃ s',
    create_textbook_structure "Book" scenario in_section = (inr 3, s') ∧
    events s' = events in_section.
Proof.
  split; [apply fresh_in_section|].
  destruct (builder_is_silent in_section "Book" scenario fresh_in_section)
    as (s' & Hrun & Hev & _).
  by exists s'.
Defined.

(** X4: whatever the cursors, a turn of the page loop returns normally, draws
    only new names, and leaves every node it found as it was but for
    children appended. *)
Theorem page_only_appends t page :
  fresh t →
  ∃ t',
    process_page page t = (inr tt, t') ∧ fresh t' ∧
    uuid_next t ≤ uuid_next t' ∧
    ∀ i n, node_map t !! i = Some n →
      ∃ n', node_map t' !! i = Some n' ∧
            title n' = title n ∧ content n' = content n ∧
            node_type n' = node_type n ∧ node_id n' = node_id n ∧
            parent_id n' = parent_id n ∧ page_number n' = page_number n ∧
            metadata n' = metadata n ∧ children n `prefix_of` children n'.
Proof.
  intros Ht.
  pose proof (process_page_returns page t) as Hret.
  pose proof (steady_process_page page t Ht) as (Hf & Hgr & Hle).
  destruct (process_page page t) as [res t']. simpl in *. subst res.
  exists t'. done.
Qed.

Lemma page_only_appends_witness :
  fresh in_section ∧
  ∃ t', process_page (2, page_two) in_section = (inr tt, t') ∧ fresh t'.
Proof.
  split; [apply fresh_in_section|].
  destruct (page_only_appends in_section (2, page_two) fresh_in_section)
    as (t' & Hrun & Hf & _).
  by exists t'.
Defined.

(** ** Before the first chapter *)

Lemma page_without_chapter k pc t :
  current_chapter t = None → current_section t = None →
  chapter_matches (page_text_of pc) = [] →
  process_page (k, pc) t = (inr tt, t).
Proof.
  intros Hch Hsec Hnone.
  unfold process_page, try_except, page_body, chapter_phase, section_phase,
    leaf_phase. simpl. rewrite Hnone. run_py. by rewrite Hch, Hsec.
Qed.

(** X5: a document in which no page has a chapter heading gives the root
    alone, whatever section headings and paragraphs it holds. *)
Theorem no_chapter_no_tree s ttl cnt :
  (∀ k pc, (k, pc) ∈ pages_of cnt → chapter_matches (page_text_of pc) = []) →
  create_textbook_structure ttl cnt s = (inr (uuid_next s), rooted s ttl).
Proof.
  intros Hnone. rewrite create_unfold.
  assert (∀ ps, (∀ k pc, (k, pc) ∈ ps → chapter_matches (page_text_of pc) = []) →
            for_each ps process_page (rooted s ttl) = (inr tt, rooted s ttl)) as Hloop.
  { induction ps as [|[k pc] ps IH]; intros Hps; [done|].
    simpl. unfold bind. rewrite page_without_chapter; try done.
    - apply IH. intros k' pc' Hin. apply (Hps k' pc'). by right.
    - apply (Hps k pc). left. }
  unfold bind. rewrite Hloop by done. reflexivity.
Qed.

Lemma no_chapter_no_tree_witness :
  (∀ k pc, (k, pc) ∈ pages_of chapterless →
     chapter_matches (page_text_of pc) = []) ∧
  section_matches (page_text_of (Str.drop 6 chapterless)) ≠ [] ∧
  substantial (page_text_of (Str.drop 6 chapterless)) ≠ [] ∧
  create_textbook_structure "Book" chapterless (new_processor 0 [])
  = (inr 0, rooted (new_processor 0 []) "Book").
Proof.
  assert (∀ k pc, (k, pc) ∈ pages_of chapterless →
            chapter_matches (page_text_of pc) = []) as Hnone.
  { intros k pc Hin.
    assert (pages_of chapterless = [(1, Str.drop 6 chapterless)]) as Heq
      by (vm_compute; reflexivity).
    rewrite Heq in Hin. apply list_elem_of_singleton in Hin. injection Hin as -> ->.
    vm_compute. reflexivity. }
  split; [exact Hnone|]. split; [vm_compute; discriminate|].
  split; [vm_compute; discriminate|].
  apply (no_chapter_no_tree (new_processor 0 []) "Book" chapterless Hnone).
Defined.

(** ** Several chapters on one page *)

Lemma moved_to_snoc {A} i (xs : list A) x old :
  moved_to i (xs ++ [x]) old = Some (i + length xs).
Proof.
  unfold moved_to. destruct xs; simpl; f_equal; rewrite ?length_app; simpl; lia.
Qed.

(** X6: all the chapter headings of a page are read before any of its section
    headings: every section of the page hangs from the last chapter the
    page opens, and the chapters opened before it on that page get no
    child. *)
Theorem sections_hang_from_last_chapter s k pc r rn ms m :
  fresh s → root s = Some r → node_map s !! r = Some rn →
  (∀ sec, current_section s = Some sec → is_Some (node_map s !! sec)) →
  chapter_matches (page_text_of pc) = ms ++ [m] →
  let ch := uuid_next s + length ms in
  ∃ s',
    process_page (k, pc) s = (inr tt, s') ∧
    current_chapter s' = Some ch ∧
    (∃ kids, node_map s' !! ch = Some (append_children kids (chapter_node r k ch m)) ∧
             length kids = length (section_matches (page_text_of pc))) ∧
    (∀ j sm, section_matches (page_text_of pc) !! j = Some sm →
       ∃ kids, node_map s' !! (ch + 1 + j)
               = Some (append_children kids (section_node ch k (ch + 1 + j) sm))) ∧
    (∀ j cm, ms !! j = Some cm →
       node_map s' !! (uuid_next s + j)
       = Some (chapter_node r k (uuid_next s + j) cm)).
Proof.
  intros Hfresh Hr Hrn Hstale Hms ch.
  set (text := page_text_of pc) in *.
  set (b := uuid_next s).
  set (ss := section_matches text).
  assert (r < b) as Hrb by (apply Hfresh; eauto).
  assert (ch = b + length ms) as Hch by reflexivity.
  set (nm1 := attach_all (chapter_node r k) r b (ms ++ [m]) (node_map s)).
  set (next1 := b + length (ms ++ [m])).
  assert (next1 = ch + 1) as Hnext1
    by (unfold next1, ch; rewrite length_app; simpl; lia).
  assert (nm1 !! ch = Some (chapter_node r k ch m)) as Hch1.
  { unfold nm1, ch. apply lookup_attach_all_new; [done|].
    rewrite lookup_app_r by done. by rewrite Nat.sub_diag. }
  set (nm2 := attach_all (section_node ch k) ch next1 ss nm1).
  set (next2 := next1 + length ss).
  set (cs2 := moved_to next1 ss (current_section s)).
  assert (∀ sec, cs2 = Some sec → is_Some (nm2 !! sec) ∧ sec ≠ ch ∧
                                   (sec < b ∨ next1 ≤ sec) ∧ sec < next2) as Hcs2.
  { intros sec Hsec. unfold cs2, moved_to in Hsec.
    destruct ss as [|sm ss'] eqn:Hss.
    - destruct (Hstale sec Hsec) as [n Hn].
      assert (sec < b) by (apply Hfresh; eauto).
      unfold nm2. simpl. split; [|unfold next2; simpl; lia].
      unfold nm1. destruct (decide (sec = r)) as [->|Hne].
      + erewrite lookup_attach_all_parent by eauto. eauto.
      + rewrite lookup_attach_all_old by lia. eauto.
    - injection Hsec as <-. unfold nm2, next2. simpl length.
      split; [|lia].
      replace (next1 + S (length ss') - 1) with (next1 + length ss') by lia.
      destruct (lookup_lt_is_Some_2 (sm :: ss') (length ss')) as [x Hx];
        [simpl; lia|].
      rewrite (lookup_attach_all_new _ ch next1 (sm :: ss') nm1 (length ss') x);
        [eauto|lia|done]. }
  assert (process_page (k, pc) s =
            (inr tt,
             match cs2 with
             | Some sec =>
                 mkState (next2 + length (substantial text)) (root s)
                   (attach_all (leaf_node sec k) sec next2 (substantial text) nm2)
                   (Some ch) cs2 (events s)
             | None => mkState next2 (root s) nm2 (Some ch) cs2 (events s)
             end)) as Hrun.
  { unfold process_page, try_except, page_body. simpl. fold text.
    unfold bind at 1. rewrite (chapter_phase_eq s k text r) by eauto.
    fold text in Hms. rewrite Hms. fold b nm1 next1.
    rewrite moved_to_snoc, <- Hch.
    set (s1 := mkState next1 (root s) nm1 (Some ch) (current_section s) (events s)).
    unfold bind at 1. rewrite (section_phase_eq s1 k text ch); [|done|simpl; eauto].
    simpl. fold ss nm2 next2 cs2.
    set (s2 := mkState next2 (root s) nm2 (Some ch) cs2 (events s)).
    destruct cs2 as [sec|] eqn:Hsec.
    - destruct (Hcs2 sec eq_refl) as (Hsome & _).
      rewrite (leaf_phase_eq s2 k text sec); [reflexivity|done|done].
    - unfold leaf_phase. run_py. reflexivity. }
  eexists. split; [exact Hrun|].
  destruct cs2 as [sec|] eqn:Hsec; simpl.
  - destruct (Hcs2 sec eq_refl) as (Hsome & Hne & Hside & Hlt).
    split; [done|]. split; [|split].
    + exists (seq next1 (length ss)). split; [|by rewrite length_seq].
      rewrite lookup_attach_all_old by (unfold next2; lia).
      unfold nm2. by apply lookup_attach_all_parent; [lia|].
    + intros j sm Hj. fold ss in Hj.
      pose proof (lookup_lt_Some _ _ _ Hj) as Hjlt.
      assert (nm2 !! (ch + 1 + j) = Some (section_node ch k (ch + 1 + j) sm)) as H2.
      { unfold nm2. rewrite <- Hnext1. apply lookup_attach_all_new; [lia|done]. }
      destruct (decide (ch + 1 + j = sec)) as [<-|Hns].
      * eexists. by apply lookup_attach_all_parent; [unfold next2; lia|].
      * exists []. rewrite append_children_nil.
        rewrite lookup_attach_all_old by (unfold next2; lia). done.
    + intros j cm Hj. pose proof (lookup_lt_Some _ _ _ Hj) as Hjlt.
      rewrite lookup_attach_all_old by (unfold next2, ch in *; lia).
      unfold nm2. rewrite lookup_attach_all_old by (unfold ch; lia).
      unfold nm1. apply lookup_attach_all_new; [done|].
      by rewrite lookup_app_l.
  - split; [done|]. split; [|split].
    + exists (seq next1 (length ss)). split; [|by rewrite length_seq].
      unfold nm2. by apply lookup_attach_all_parent; [lia|].
    + intros j sm Hj. fold ss in Hj. exists []. rewrite append_children_nil.
      unfold nm2. rewrite <- Hnext1. apply lookup_attach_all_new; [lia|done].
    + intros j cm Hj. pose proof (lookup_lt_Some _ _ _ Hj) as Hjlt.
      unfold nm2. rewrite lookup_attach_all_old by (unfold ch; lia).
      unfold nm1. apply lookup_attach_all_new; [done|].
      by rewrite lookup_app_l.
Qed.

Lemma sections_hang_from_last_chapter_witness :
  fresh lone_root ∧ root lone_root = Some 0 ∧
  chapter_matches (page_text_of two_chapters)
  = [Re.Match "Chapter 1: One" (Some "One")]
    ++ [Re.Match "Chapter 2: Two" (Some "Two")] ∧
  ∃ s',
    process_page (1, two_chapters) lone_root = (inr tt, s') ∧
    current_chapter s' = Some 2 ∧
    node_map s' !! 1 = Some (chapter_node 0 1 1 (Re.Match "Chapter 1: One" (Some "One"))) ∧
    (∃ kids, node_map s' !! 3
             = Some (append_children kids
                       (section_node 2 1 3 (Re.Match "1.1 First" (Some "First"))))).
Proof.
  assert (node_map lone_root !! 0
          = Some (mkTextNode "Book" None Root 0 None [] [] [])) as Hrn
    by (vm_compute; reflexivity).
  assert (∀ sec, current_section lone_root = Some sec →
            is_Some (node_map lone_root !! sec)) as Hstale by (intros sec H; discriminate H).
  assert (chapter_matches (page_text_of two_chapters)
          = [Re.Match "Chapter 1: One" (Some "One")]
            ++ [Re.Match "Chapter 2: Two" (Some "Two")]) as Hms
    by (vm_compute; reflexivity).
  destruct (sections_hang_from_last_chapter lone_root 1 two_chapters 0 _ _ _
              fresh_lone_root eq_refl Hrn Hstale Hms)
    as (s' & Hrun & Hcc & _ & Hsecs & Hchaps).
  split; [apply fresh_lone_root|]. split; [reflexivity|]. split; [exact Hms|].
  exists s'. split; [exact Hrun|]. split; [exact Hcc|]. split.
  - apply (Hchaps 0). reflexivity.
  - apply (Hsecs 0). vm_compute. reflexivity.
Defined.

(** ** [str.split] around a separator *)

Lemma starts_with_cut d p a X :
  has_char d p = false →
  Str.starts_with p (a +:+ String d X) = true → Str.starts_with p a = true.
Proof.
  revert a. induction p as [|b p IH]; intros a Hd Hs; [done|].
  simpl in Hd. apply orb_false_iff in Hd as [Hdb Hd].
  destruct a as [|e a]; rewrite ?ReFacts.app_cons, ?ReFacts.app_nil in Hs;
    simpl in *.
  - rewrite Ascii.eqb_sym, Hdb in Hs. done.
  - apply andb_true_iff in Hs as [-> Hs]. simpl. by apply IH.
Qed.

Lemma starts_with_self sep rest : Str.starts_with sep (sep +:+ rest) = true.
Proof.
  induction sep as [|c sep IH]; [done|]. rewrite ReFacts.app_cons. simpl.
  by rewrite Ascii.eqb_refl.
Qed.

Lemma split_go_plain sep s : ∀ cur,
  Str.contains sep s = false → Str.split_go sep s cur 0 = [Str.rev_onto cur s].
Proof.
  induction s as [|c s IH]; intros cur Hc; [done|].
  simpl in Hc. apply orb_false_iff in Hc as [Hs Hc].
  cbn [Str.split_go]. rewrite Hs. by rewrite IH.
Qed.

Lemma split_go_skip sep x rest cur :
  Str.split_go sep (x +:+ rest) cur (String.length x) = Str.split_go sep rest cur 0.
Proof.
  induction x as [|c x IH]; [done|]. rewrite ReFacts.app_cons. simpl. exact IH.
Qed.

Lemma split_go_at c0 sep' a rest : ∀ cur,
  has_char c0 sep' = false →
  Str.contains (String c0 sep') a = false →
  Str.split_go (String c0 sep') (a +:+ String c0 sep' +:+ rest) cur 0
  = Str.rev_onto cur a :: Str.split (String c0 sep') rest.
Proof.
  induction a as [|c a IH]; intros cur Hno Hc.
  - rewrite ReFacts.app_nil, ReFacts.app_cons. cbn [Str.split_go].
    rewrite <- ReFacts.app_cons, starts_with_self.
    cbn [String.length]. rewrite Nat.sub_succ, Nat.sub_0_r.
    by rewrite split_go_skip.
  - cbn [Str.contains] in Hc. apply orb_false_iff in Hc as [Hs Hc].
    rewrite ReFacts.app_cons. cbn [Str.split_go].
    destruct (Str.starts_with (String c0 sep')
                (String c (a +:+ String c0 sep' +:+ rest))) eqn:Hhere.
    + exfalso. simpl in Hhere, Hs. apply andb_true_iff in Hhere as [Hcc Hhere].
      rewrite ReFacts.app_cons in Hhere.
      apply starts_with_cut in Hhere; [|done].
      by rewrite Hcc, Hhere in Hs.
    + by rewrite IH.
Qed.

Lemma split_at c0 sep' a rest :
  has_char c0 sep' = false →
  Str.contains (String c0 sep') a = false →
  Str.split (String c0 sep') (a +:+ String c0 sep' +:+ rest)
  = a :: Str.split (String c0 sep') rest.
Proof. intros Hno Hc. unfold Str.split at 1. by rewrite split_go_at. Qed.

Lemma contains_skip c0 sep' x y :
  has_char c0 x = false →
  Str.contains (String c0 sep') (x +:+ y) = Str.contains (String c0 sep') y.
Proof.
  induction x as [|a x IH]; intros Hx; [done|].
  simpl in Hx. apply orb_false_iff in Hx as [Ha Hx].
  rewrite ReFacts.app_cons. cbn [Str.contains Str.starts_with].
  rewrite Ha. simpl. by apply IH.
Qed.

Lemma contains_app_foreign sep p d t :
  has_char d sep = false →
  Str.contains sep p = false →
  Str.contains sep (String d t) = false →
  Str.contains sep (p +:+ String d t) = false.
Proof.
  intros Hd. induction p as [|e p IH]; intros Hp Ht; [done|].
  pose proof Hp as Hp'. cbn [Str.contains] in Hp.
  apply orb_false_iff in Hp as [Hs Hp].
  rewrite ReFacts.app_cons. cbn [Str.contains].
  rewrite (IH Hp Ht), orb_false_r.
  destruct (Str.starts_with sep (String e (p +:+ String d t))) eqn:Hhere; [|done].
  rewrite <- ReFacts.app_cons in Hhere.
  apply starts_with_cut in Hhere; [|done]. by rewrite Hhere in Hs.
Qed.

(** ** Text without a page marker *)

(** X7: a text in which [[PAGE_] does not occur has no page for the builder:
    whatever headings it holds, the tree is the root alone, no exception is
    raised and nothing is logged. *)
Theorem no_marker_no_page s ttl cnt :
  Str.contains "[PAGE_" cnt = false →
  create_textbook_structure ttl cnt s = (inr (uuid_next s), rooted s ttl).
Proof.
  intros Hc. rewrite create_unfold. unfold pages_of, Str.split.
  rewrite split_go_plain by done. reflexivity.
Qed.

Lemma no_marker_no_page_witness :
  create_textbook_structure "Book" ("Chapter 1: Intro" +:+ Str.nl) lone_root
  = (inr 1, rooted lone_root "Book").
Proof. apply no_marker_no_page. vm_compute. reflexivity. Defined.

(** X8: what stands ahead of the first [[PAGE_] marker is dropped: the
    builder does on the whole text what it does on the text from the first
    marker on. *)
Theorem text_before_first_marker_is_dropped s ttl pre rest :
  Str.contains "[PAGE_" pre = false →
  create_textbook_structure ttl (pre +:+ "[PAGE_" +:+ rest) s
  = create_textbook_structure ttl ("[PAGE_" +:+ rest) s.
Proof.
  intros Hc. rewrite !create_unfold. unfold pages_of.
  rewrite (split_at "[" "PAGE_" pre rest) by done.
  change ("[PAGE_" +:+ rest) with ("" +:+ "[PAGE_" +:+ rest).
  rewrite (split_at "[" "PAGE_" "" rest) by done. reflexivity.
Qed.

Lemma text_before_first_marker_is_dropped_witness :
  create_textbook_structure "Book" with_preamble lone_root
  = create_textbook_structure "Book"
      ("[PAGE_" +:+ "1]" +:+ Str.nl +:+ "Chapter 1: Kept" +:+ Str.nl) lone_root.
Proof.
  apply (text_before_first_marker_is_dropped lone_root "Book"
           ("Chapter 9: Lost" +:+ Str.nl)
           ("1]" +:+ Str.nl +:+ "Chapter 1: Kept" +:+ Str.nl)).
  vm_compute. reflexivity.
Defined.

(** ** From the extractor to the builder *)

Lemma page_markup_app ps : ∀ n text,
  page_markup n ps text = text +:+ page_markup n ps "".
Proof.
  induction ps as [|p ps IH]; intros n text; simpl.
  - clear. induction text as [|c t IH]; [done|].
    rewrite ReFacts.app_cons. by f_equal.
  - rewrite IH. rewrite (IH _ ("" +:+ _)). rewrite ReFacts.app_nil.
    by rewrite ReFacts.append_assoc.
Qed.

Lemma no_digit_in_uint c d :
  Chars.is_digit c = false → has_char c (NilEmpty.string_of_uint d) = false.
Proof.
  intros Hc.
  assert (∀ a, Chars.is_digit a = true → Ascii.eqb c a = false) as Hne.
  { intros a Ha. destruct (Ascii.eqb_spec c a) as [->|]; [congruence|done]. }
  induction d as [|d IH|d IH|d IH|d IH|d IH|d IH|d IH|d IH|d IH|d IH]; simpl;
    [done|..]; by rewrite IH, Hne.
Qed.

Lemma no_digit_in_of_nat c n :
  Chars.is_digit c = false → has_char c (Str.of_nat n) = false.
Proof. apply no_digit_in_uint. Qed.

Lemma has_char_app c a b : has_char c (a +:+ b) = has_char c a || has_char c b.
Proof.
  induction a as [|x a IH]; [done|]. rewrite ReFacts.app_cons. simpl.
  by rewrite IH, orb_assoc.
Qed.

Lemma clean_piece k p :
  Str.contains "[PAGE_" p = false →
  Str.contains "[PAGE_" ((Str.of_nat k +:+ "]" +:+ Str.nl +:+ p) +:+ Str.nl) = false.
Proof.
  intros Hp. rewrite !ReFacts.append_assoc.
  rewrite contains_skip by (by apply no_digit_in_of_nat).
  rewrite (contains_skip "[" "PAGE_" "]") by done.
  rewrite (contains_skip "[" "PAGE_" Str.nl) by done.
  by apply contains_app_foreign.
Qed.

Lemma clean_last_piece k p :
  Str.contains "[PAGE_" p = false →
  Str.contains "[PAGE_" (Str.of_nat k +:+ "]" +:+ Str.nl +:+ p) = false.
Proof.
  intros Hp. rewrite contains_skip by (by apply no_digit_in_of_nat).
  rewrite (contains_skip "[" "PAGE_" "]") by done.
  by rewrite (contains_skip "[" "PAGE_" Str.nl) by done.
Qed.

Lemma split_markup ps : ∀ n p,
  Forall (fun q => Str.contains "[PAGE_" q = false) (p :: ps) →
  Str.split "[PAGE_"
    ((Str.of_nat (n + 1) +:+ "]" +:+ Str.nl +:+ p) +:+ page_markup (S n) ps "")
  = marked_pieces (n + 1) (p :: ps).
Proof.
  induction ps as [|q ps IH]; intros n p Hall.
  - simpl. unfold Str.split. rewrite split_go_plain.
    + simpl. f_equal. clear. generalize (Str.of_nat (n + 1) +:+ "]" +:+ Str.nl +:+ p).
      intros t. induction t as [|c t IH]; [done|].
      rewrite ReFacts.app_cons. by f_equal.
    + replace ((Str.of_nat (n + 1) +:+ "]" +:+ Str.nl +:+ p) +:+ "")
        with (Str.of_nat (n + 1) +:+ "]" +:+ Str.nl +:+ p).
      * apply clean_last_piece. by inversion Hall.
      * generalize (Str.of_nat (n + 1) +:+ "]" +:+ Str.nl +:+ p).
        intros t. induction t as [|c t IHt]; [done|].
        rewrite ReFacts.app_cons. by f_equal.
  - inversion Hall as [|? ? Hp Hrest]; subst.
    cbn [page_markup marked_pieces]. rewrite (page_markup_app ps).
    rewrite ReFacts.app_nil.
    replace ((Str.of_nat (n + 1) +:+ "]" +:+ Str.nl +:+ p)
             +:+ ((Str.nl +:+ "[PAGE_" +:+ Str.of_nat (S n + 1) +:+ "]" +:+ Str.nl)
                  +:+ q) +:+ page_markup (S (S n)) ps "")
      with (((Str.of_nat (n + 1) +:+ "]" +:+ Str.nl +:+ p) +:+ Str.nl)
            +:+ "[PAGE_"
            +:+ ((Str.of_nat (S n + 1) +:+ "]" +:+ Str.nl +:+ q)
                 +:+ page_markup (S (S n)) ps ""))
      by (by rewrite !ReFacts.append_assoc).
    rewrite (split_at "[" "PAGE_") by (done || by apply clean_piece).
    rewrite (IH (S n) q Hrest). f_equal.
Qed.

Lemma page_text_of_piece x y :
  has_char "]" x = false →
  page_text_of (x +:+ "]" +:+ Str.nl +:+ y) = y.
Proof.
  intros Hx. unfold page_text_of.
  change ("]" +:+ Str.nl) with (String "]" Str.nl).
  assert (Str.after_first (String "]" Str.nl) (x +:+ "]" +:+ Str.nl +:+ y) = Some y
          ∧ Str.contains (String "]" Str.nl) (x +:+ "]" +:+ Str.nl +:+ y) = true)
    as [-> ->]; [|done].
  induction x as [|a x IH].
  - rewrite ReFacts.app_nil. split; reflexivity.
  - cbn [has_char] in Hx. apply orb_false_iff in Hx as [Ha Hx].
    destruct (IH Hx) as [IH1 IH2].
    rewrite (ReFacts.app_cons a x). split.
    + cbn [Str.after_first Str.starts_with]. rewrite Ha. exact IH1.
    + cbn [Str.contains]. rewrite IH2. by rewrite orb_true_r.
Qed.

Lemma bodies_of_pieces ps : ∀ k,
  map (fun kp : nat * string => (kp.1, page_text_of kp.2))
    (enumerate k (marked_pieces k ps))
  = enumerate k (page_bodies ps).
Proof.
  assert (∀ k, has_char "]" (Str.of_nat k) = false) as Hk
    by (intros k; by apply no_digit_in_of_nat).
  induction ps as [|p ps IH]; intros k; [done|].
  destruct ps as [|q ps].
  - simpl. by rewrite page_text_of_piece.
  - cbn [marked_pieces page_bodies enumerate map]. rewrite IH. f_equal.
    simpl. rewrite !ReFacts.append_assoc. by rewrite page_text_of_piece.
Qed.

(** X9: applied to the text [extract_content] builds from the pages of a
    PDF, none of which holds [[PAGE_] itself, the builder walks through as
    many pages as the PDF has, numbers them 1, 2, ... in the PDF's order,
    and reads as the text of each what [extract_text] gave for it, followed
    on every page but the last by the newline that opens the next marker. *)
Theorem builder_reads_the_extracted_pages page_texts :
  Forall (fun p => Str.contains "[PAGE_" p = false) page_texts →
  map (fun kp : nat * string => (kp.1, page_text_of kp.2))
    (pages_of (extract_content_text page_texts))
  = enumerate 1 (page_bodies page_texts).
Proof.
  intros Hall. unfold pages_of, extract_content_text.
  destruct page_texts as [|p ps]; [done|].
  cbn [page_markup]. rewrite page_markup_app, ReFacts.app_nil.
  replace (((Str.nl +:+ "[PAGE_" +:+ Str.of_nat (0 + 1) +:+ "]" +:+ Str.nl) +:+ p)
           +:+ page_markup 1 ps "")
    with (Str.nl +:+ "[PAGE_"
          +:+ ((Str.of_nat (0 + 1) +:+ "]" +:+ Str.nl +:+ p) +:+ page_markup 1 ps ""))
    by (by rewrite !ReFacts.append_assoc).
  rewrite (split_at "[" "PAGE_" Str.nl) by done.
  rewrite split_markup by done. cbn [tail]. apply bodies_of_pieces.
Qed.

Lemma builder_reads_the_extracted_pages_witness :
  map (fun kp : nat * string => (kp.1, page_text_of kp.2))
    (pages_of (extract_content_text ["Chapter 1: One"; "1.1 First"]))
  = [(1, "Chapter 1: One" +:+ Str.nl); (2, "1.1 First")].
Proof.
  apply (builder_reads_the_extracted_pages ["Chapter 1: One"; "1.1 First"]).
  repeat constructor.
Defined.

(** ** The page loop as a fold *)

Lemma fresh_attach p i x nm :
  (∀ j, is_Some (nm !! j) → j < i) →
  ∀ j, is_Some (attach p i x nm !! j) → j < S i.
Proof.
  intros Hf j Hj. destruct (decide (j = i)) as [->|Hne]; [lia|].
  rewrite lookup_attach_old in Hj by done.
  apply fmap_is_Some, Hf in Hj. lia.
Qed.

Lemma fresh_attach_all {A} (mk : nat → A → TextNode) p xs : ∀ i nm,
  (∀ j, is_Some (nm !! j) → j < i) →
  ∀ j, is_Some (attach_all mk p i xs nm !! j) → j < i + length xs.
Proof.
  induction xs as [|x xs IH]; intros i nm Hf j Hj; simpl in *.
  - apply Hf in Hj. lia.
  - apply IH in Hj; [lia|]. by apply fresh_attach.
Qed.

Lemma grows_attach_all {A} (mk : nat → A → TextNode) p xs : ∀ i nm,
  (∀ j, is_Some (nm !! j) → j < i) → grows nm (attach_all mk p i xs nm).
Proof.
  induction xs as [|x xs IH]; intros i nm Hf; simpl; [apply grows_refl|].
  eapply grows_trans; [by apply grows_attach|].
  apply IH. by apply fresh_attach.
Qed.

Lemma is_Some_attach_all {A} (mk : nat → A → TextNode) p xs : ∀ i nm q,
  is_Some (nm !! q) → is_Some (attach_all mk p i xs nm !! q).
Proof.
  induction xs as [|x xs IH]; intros i nm q Hq; simpl; [done|].
  apply IH. unfold attach. destruct (decide (q = i)) as [->|Hne].
  - rewrite lookup_insert_eq. eauto.
  - rewrite lookup_insert_ne by done. destruct (decide (q = p)) as [->|Hnp].
    + rewrite lookup_alter_eq. by apply fmap_is_Some.
    + by rewrite lookup_alter_ne.
Qed.

(** Where a loop leaves its cursor, there is a node. *)
Lemma cursor_in_store {A} (mk : nat → A → TextNode) r p i xs nm old c :
  (∀ c', old = Some c' → r < c' ∧ is_Some (nm !! c')) →
  r < i → p < i →
  moved_to i xs old = Some c →
  r < c ∧ is_Some (attach_all mk p i xs nm !! c).
Proof.
  intros Hold Hri Hpi Hmv. destruct xs as [|x xs]; simpl in Hmv.
  - destruct (Hold c Hmv) as [? ?]. split; [done|]. by apply is_Some_attach_all.
  - injection Hmv as Hc.
    assert (c = i + length xs) as -> by (simpl in Hc; lia).
    split; [lia|].
    destruct (lookup_lt_is_Some_2 (x :: xs) (length xs)) as [y Hy]; [simpl; lia|].
    rewrite (lookup_attach_all_new mk p i (x :: xs) nm (length xs) y); eauto.
Qed.

Lemma ready_chapters_effect r k text s :
  ready r s → ready r (chapters_effect r k text s).
Proof.
  intros [Hf Hr Hrn Hcc Hcs].
  assert (r < uuid_next s) as Hlt by (by apply Hf).
  split; simpl; try done.
  - intros j Hj. by apply fresh_attach_all in Hj.
  - by apply is_Some_attach_all.
  - intros c Hc.
    exact (cursor_in_store (chapter_node r k) r r (uuid_next s)
             (chapter_matches text) (node_map s) (current_chapter s) c
             Hcc Hlt Hlt Hc).
  - intros c Hc. destruct (Hcs c Hc). split; [done|]. by apply is_Some_attach_all.
Qed.

Lemma ready_sections_effect r k text s :
  ready r s → ready r (sections_effect k text s).
Proof.
  intros Hs. pose proof Hs as [Hf Hr Hrn Hcc Hcs]. unfold sections_effect.
  destruct (current_chapter s) as [ch|] eqn:Hch; [|done].
  assert (r < uuid_next s) as Hlt by (by apply Hf).
  destruct (Hcc ch eq_refl) as [Hrch Hchn].
  assert (ch < uuid_next s) as Hlt' by (by apply Hf).
  split; simpl; try done.
  - intros j Hj. by apply fresh_attach_all in Hj.
  - by apply is_Some_attach_all.
  - intros c Hc. injection Hc as <-. split; [done|].
    by apply is_Some_attach_all.
  - intros c Hc.
    exact (cursor_in_store (section_node ch k) r ch (uuid_next s)
             (section_matches text) (node_map s) (current_section s) c
             Hcs Hlt Hlt' Hc).
Qed.

Lemma ready_leaves_effect r k text s :
  ready r s → ready r (leaves_effect k text s).
Proof.
  intros Hs. pose proof Hs as [Hf Hr Hrn Hcc Hcs]. unfold leaves_effect.
  destruct (current_section s) as [sec|] eqn:Hsec; [|done].
  split; simpl; try done.
  - intros j Hj. by apply fresh_attach_all in Hj.
  - by apply is_Some_attach_all.
  - intros c Hc. destruct (Hcc c Hc). split; [done|]. by apply is_Some_attach_all.
  - intros c Hc. injection Hc as <-.
    destruct (Hcs sec eq_refl). split; [done|]. by apply is_Some_attach_all.
Qed.

Lemma ready_page_effect r k text s :
  ready r s → ready r (page_effect r k text s).
Proof.
  intros H. by apply ready_leaves_effect, ready_sections_effect,
    ready_chapters_effect.
Qed.

Lemma process_page_eq r k pc s :
  ready r s →
  process_page (k, pc) s = (inr tt, page_effect r k (page_text_of pc) s).
Proof.
  intros Hs. set (text := page_text_of pc).
  pose proof (ready_chapters_effect r k text s Hs) as H1.
  pose proof (ready_sections_effect r k text _ H1) as H2.
  set (s1 := chapters_effect r k text s) in *.
  set (s2 := sections_effect k text s1) in *.
  assert (chapter_phase k text s = (inr tt, s1)) as E1.
  { apply chapter_phase_eq; [apply (rd_root _ _ Hs)|apply (rd_root_node _ _ Hs)]. }
  assert (section_phase k text s1 = (inr tt, s2)) as E2.
  { unfold s2, sections_effect. destruct (current_chapter s1) as [ch|] eqn:Hch.
    - rewrite (section_phase_eq s1 k text ch);
        [congruence|done|by apply (rd_chapter _ _ H1)].
    - unfold section_phase, bind, get. cbv beta iota. by rewrite Hch. }
  assert (leaf_phase k text s2 = (inr tt, leaves_effect k text s2)) as E3.
  { unfold leaves_effect. destruct (current_section s2) as [sec|] eqn:Hsec.
    - rewrite (leaf_phase_eq s2 k text sec);
        [congruence|done|by apply (rd_section _ _ H2)].
    - unfold leaf_phase, bind, get. cbv beta iota. by rewrite Hsec. }
  unfold process_page, try_except, page_body, page_effect. simpl. fold text.
  unfold bind at 1. rewrite E1.
  unfold bind at 1. rewrite E2. rewrite E3. reflexivity.
Qed.

Lemma ready_read_pages r P : ∀ s, ready r s → ready r (read_pages r P s).
Proof.
  induction P as [|[k pc] P IH]; intros s Hs; [done|].
  simpl. apply IH. by apply ready_page_effect.
Qed.

Lemma page_loop_eq r P : ∀ s,
  ready r s → for_each P process_page s = (inr tt, read_pages r P s).
Proof.
  induction P as [|[k pc] P IH]; intros s Hs; [done|].
  simpl. unfold bind. rewrite (process_page_eq r) by done.
  apply IH. by apply ready_page_effect.
Qed.

Lemma ready_rooted s ttl : fresh s → ready (uuid_next s) (rooted s ttl).
Proof.
  intros Hf. split; simpl; try done.
  - unfold fresh. simpl. intros j Hj.
    destruct (decide (j = uuid_next s)) as [->|Hne]; [lia|].
    rewrite lookup_insert_ne in Hj by done. apply Hf in Hj. lia.
  - rewrite lookup_insert_eq. eauto.
Qed.

Lemma create_eq s ttl cnt :
  fresh s →
  create_textbook_structure ttl cnt s
  = (inr (uuid_next s), read_pages (uuid_next s) (pages_of cnt) (rooted s ttl)).
Proof.
  intros Hf. rewrite create_unfold. unfold bind.
  rewrite (page_loop_eq (uuid_next s)) by (by apply ready_rooted).
  pose proof (ready_read_pages _ (pages_of cnt) _ (ready_rooted s ttl Hf)) as Hr.
  unfold root_node_id. run_py. by rewrite (rd_root _ _ Hr).
Qed.

Lemma grows_sections_effect r k text s :
  ready r s → grows (node_map s) (node_map (sections_effect k text s)).
Proof.
  intros Hs. unfold sections_effect.
  destruct (current_chapter s); [|apply grows_refl].
  simpl. apply grows_attach_all, (rd_fresh _ _ Hs).
Qed.

Lemma grows_leaves_effect r k text s :
  ready r s → grows (node_map s) (node_map (leaves_effect k text s)).
Proof.
  intros Hs. unfold leaves_effect.
  destruct (current_section s); [|apply grows_refl].
  simpl. apply grows_attach_all, (rd_fresh _ _ Hs).
Qed.

Lemma grows_page_effect r k text s :
  ready r s → grows (node_map s) (node_map (page_effect r k text s)).
Proof.
  intros Hs. pose proof (ready_chapters_effect r k text s Hs) as H1.
  pose proof (ready_sections_effect r k text _ H1) as H2.
  unfold page_effect.
  eapply grows_trans; [|eapply grows_trans].
  - apply (grows_attach_all (chapter_node r k) r (chapter_matches text)
             (uuid_next s)), (rd_fresh _ _ Hs).
  - apply (grows_sections_effect r k text _ H1).
  - apply (grows_leaves_effect r k text _ H2).
Qed.

(** ** The chapters under the root *)

(** What a page does to the root and with its chapter headings. *)
Lemma page_effect_root r k text s rn :
  ready r s → node_map s !! r = Some rn →
  ∃ rn',
    node_map (page_effect r k text s) !! r = Some rn' ∧
    children rn'
    = children rn ++ seq (uuid_next s) (length (chapter_matches text)) ∧
    ∀ j m, chapter_matches text !! j = Some m →
      is_chapter_of (node_map (page_effect r k text s)) r (uuid_next s + j)
        (k, "Chapter: " +:+ fmt_group m).
Proof.
  intros Hs Hrn. pose proof (ready_chapters_effect r k text s Hs) as H1.
  pose proof (ready_sections_effect r k text _ H1) as H2.
  assert (r < uuid_next s) as Hlt by (apply (rd_fresh _ _ Hs); eauto).
  set (s1 := chapters_effect r k text s) in *.
  set (s2 := sections_effect k text s1) in *.
  assert (node_map s1 !! r
          = Some (append_children
                    (seq (uuid_next s) (length (chapter_matches text))) rn)) as Hr1
    by (by apply lookup_attach_all_parent).
  pose proof (grows_sections_effect r k text _ H1) as Hg2.
  pose proof (grows_leaves_effect r k text _ H2) as Hg3.
  fold s2 in Hg2, Hg3.
  assert (node_map s2 !! r = node_map s1 !! r) as Hr2.
  { unfold s2, sections_effect.
    destruct (current_chapter s1) as [ch|] eqn:Hch; [|done].
    destruct (rd_chapter _ _ H1 ch Hch) as [Hrc _]. simpl.
    apply lookup_attach_all_old; lia. }
  assert (r < uuid_next s2) as Hlt2 by (apply (rd_fresh _ _ H2), (rd_root_node _ _ H2)).
  assert (node_map (leaves_effect k text s2) !! r = node_map s2 !! r) as Hr3.
  { unfold leaves_effect.
    destruct (current_section s2) as [sec|] eqn:Hsec; [|done].
    destruct (rd_section _ _ H2 sec Hsec) as [Hrc _]. simpl.
    apply lookup_attach_all_old; lia. }
  eexists. split; [unfold page_effect; fold s1; fold s2; by rewrite Hr3, Hr2|].
  split; [done|].
  intros j m Hj.
  assert (node_map s1 !! (uuid_next s + j)
          = Some (chapter_node r k (uuid_next s + j) m)) as Hn1
    by (by apply lookup_attach_all_new).
  destruct (Hg2 _ _ Hn1) as (n2 & Hn2 & ? & ? & ? & ? & ? & ? & ? & ?).
  destruct (Hg3 _ _ Hn2) as (n3 & Hn3 & ? & ? & ? & ? & ? & ? & ? & ?).
  exists n3. unfold page_effect. fold s1. fold s2.
  split; [done|]. unfold chapter_node, born in *. cbn [title content node_type parent_id page_number fst snd] in *.
  repeat split; congruence.
Qed.

Lemma is_chapter_of_grows nm nm' r c h :
  grows nm nm' → is_chapter_of nm r c h → is_chapter_of nm' r c h.
Proof.
  intros Hg (cn & Hcn & ? & ? & ? & ? & ?).
  destruct (Hg _ _ Hcn) as (n' & Hn' & ? & ? & ? & ? & ? & ? & ? & ?).
  exists n'. split; [done|]. repeat split; congruence.
Qed.

Lemma read_pages_snoc r P kp s :
  read_pages r (P ++ [kp]) s
  = page_effect r kp.1 (page_text_of kp.2) (read_pages r P s).
Proof. unfold read_pages. by rewrite foldl_app. Qed.

Lemma chapter_headings_snoc P kp :
  chapter_headings (P ++ [kp])
  = chapter_headings P
    ++ map (fun m => (kp.1, "Chapter: " +:+ fmt_group m))
         (chapter_matches (page_text_of kp.2)).
Proof. unfold chapter_headings. rewrite flat_map_app. simpl. by rewrite app_nil_r. Qed.

Lemma read_pages_chapters r s rn P :
  ready r s → node_map s !! r = Some rn → children rn = [] →
  ∃ rn', node_map (read_pages r P s) !! r = Some rn' ∧
         Forall2 (is_chapter_of (node_map (read_pages r P s)) r)
           (children rn') (chapter_headings P).
Proof.
  intros Hs Hrn Hkids. induction P as [|[k pc] P IH] using rev_ind.
  - exists rn. split; [done|]. rewrite Hkids. constructor.
  - destruct IH as (rn1 & Hrn1 & Hall).
    pose proof (ready_read_pages r P s Hs) as Hready.
    rewrite read_pages_snoc, chapter_headings_snoc. simpl.
    set (st := read_pages r P s) in *.
    destruct (page_effect_root r k (page_text_of pc) st rn1 Hready Hrn1)
      as (rn' & Hrn' & Hkids' & Hnew).
    exists rn'. split; [done|]. rewrite Hkids'. apply Forall2_app.
    + eapply Forall2_impl; [exact Hall|]. intros c h.
      apply is_chapter_of_grows. by apply grows_page_effect.
    + apply Forall2_same_length_lookup_2.
      { by rewrite length_seq, length_map. }
      intros j c h Hc Hh. apply lookup_seq in Hc as [-> Hj].
      rewrite list_lookup_fmap in Hh.
      destruct (chapter_matches (page_text_of pc) !! j) as [m|] eqn:Hm; [|done].
      injection Hh as <-. by apply Hnew.
Qed.

(** X10: the children of the root are the chapters, one for every chapter
    heading of every page, in reading order, and nothing else: the i-th
    child is the node made from the i-th heading, titled after it and
    carrying the number of its page. *)
Theorem chapters_in_reading_order s ttl cnt :
  fresh s →
  ∃ s' rn,
    create_textbook_structure ttl cnt s = (inr (uuid_next s), s') ∧
    node_map s' !! uuid_next s = Some rn ∧
    Forall2 (is_chapter_of (node_map s') (uuid_next s))
      (children rn) (chapter_headings (pages_of cnt)).
Proof.
  intros Hf. rewrite (create_eq s ttl cnt Hf).
  destruct (read_pages_chapters (uuid_next s) (rooted s ttl)
              (mkTextNode ttl None Root (uuid_next s) None [] [] [])
              (pages_of cnt) (ready_rooted s ttl Hf)) as (rn & Hrn & Hall).
  - simpl. by rewrite lookup_insert_eq.
  - done.
  - eauto.
Qed.

Lemma chapters_in_reading_order_witness :
  chapter_headings (pages_of three_chapters)
  = [(1, "Chapter: One"); (3, "Chapter: Two"); (3, "Chapter: Three")] ∧
  ∃ s' rn,
    create_textbook_structure "Book" three_chapters (new_processor 0 [])
    = (inr 0, s') ∧
    node_map s' !! 0 = Some rn ∧
    Forall2 (is_chapter_of (node_map s') 0) (children rn)
      [(1, "Chapter: One"); (3, "Chapter: Two"); (3, "Chapter: Three")].
Proof.
  split; [vm_compute; reflexivity|].
  destruct (chapters_in_reading_order (new_processor 0 []) "Book" three_chapters
              (fresh_new_processor 0 [])) as (s' & rn & Hrun & Hrn & Hall).
  exists s', rn. split; [exact Hrun|]. split; [exact Hrn|].
  assert (chapter_headings (pages_of three_chapters)
          = [(1, "Chapter: One"); (3, "Chapter: Two"); (3, "Chapter: Three")]) as Heq
    by (vm_compute; reflexivity).
  rewrite Heq in Hall. exact Hall.
Defined.

(** ** No child is listed twice *)

Lemma tidy_attach b nm i p x :
  tidy b nm i → children x = [] → tidy b (attach p i x nm) (S i).
Proof.
  intros Ht Hx q n Hbq Hq. destruct (decide (q = i)) as [->|Hne].
  - rewrite lookup_attach_new in Hq. injection Hq as <-. rewrite Hx.
    split; [constructor|]. intros c Hc. by apply elem_of_nil in Hc.
  - rewrite lookup_attach_old in Hq by done.
    destruct (nm !! q) as [n0|] eqn:Hn0; [|done]. simpl in Hq. injection Hq as <-.
    destruct (Ht q n0 Hbq Hn0) as [Hnd Hlt].
    destruct (decide (q = p)) as [->|Hnp]; simpl.
    + split.
      * apply NoDup_app. split; [done|]. split; [|apply NoDup_singleton].
        intros c Hc Hi. apply list_elem_of_singleton in Hi as ->.
        specialize (Hlt _ Hc). lia.
      * intros c [Hc| ->%list_elem_of_singleton]%elem_of_app; [|lia].
        specialize (Hlt _ Hc). lia.
    + split; [done|]. intros c Hc. specialize (Hlt _ Hc). lia.
Qed.

Lemma tidy_attach_all {A} (mk : nat → A → TextNode) b p xs : ∀ i nm,
  (∀ i x, children (mk i x) = []) →
  tidy b nm i → tidy b (attach_all mk p i xs nm) (i + length xs).
Proof.
  induction xs as [|x xs IH]; intros i nm Hmk Ht; simpl.
  - by rewrite Nat.add_0_r.
  - replace (i + S (length xs)) with (S i + length xs) by lia.
    apply IH; [done|]. by apply tidy_attach.
Qed.

Lemma tidy_page_effect b r k text s :
  tidy b (node_map s) (uuid_next s) →
  tidy b (node_map (page_effect r k text s)) (uuid_next (page_effect r k text s)).
Proof.
  intros Ht. unfold page_effect.
  assert (tidy b (node_map (chapters_effect r k text s))
            (uuid_next (chapters_effect r k text s))) as H1
    by (by apply tidy_attach_all).
  set (s1 := chapters_effect r k text s) in *.
  assert (tidy b (node_map (sections_effect k text s1))
            (uuid_next (sections_effect k text s1))) as H2.
  { unfold sections_effect. destruct (current_chapter s1); [|done].
    by apply tidy_attach_all. }
  set (s2 := sections_effect k text s1) in *.
  unfold leaves_effect. destruct (current_section s2); [|done].
  by apply tidy_attach_all.
Qed.

Lemma tidy_read_pages b r P : ∀ s,
  tidy b (node_map s) (uuid_next s) →
  tidy b (node_map (read_pages r P s)) (uuid_next (read_pages r P s)).
Proof.
  induction P as [|[k pc] P IH]; intros s Ht; [done|].
  simpl. apply IH. by apply tidy_page_effect.
Qed.

Lemma tidy_rooted s ttl :
  fresh s →
  tidy (uuid_next s) (node_map (rooted s ttl)) (uuid_next (rooted s ttl)).
Proof.
  intros Hf i n Hbi Hn. simpl in Hn.
  destruct (decide (i = uuid_next s)) as [->|Hne].
  - rewrite lookup_insert_eq in Hn. injection Hn as <-. simpl.
    split; [constructor|]. intros c Hc. by apply elem_of_nil in Hc.
  - rewrite lookup_insert_ne in Hn by done.
    assert (i < uuid_next s) by (apply Hf; eauto). lia.
Qed.

(** ** Subtrees *)

Lemma in_tree_from b P nm next c x :
  store_ok b P nm next → b ≤ c → c < next →
  in_tree nm c x → c ≤ x ∧ x < next.
Proof.
  intros [Hfresh Hnodes] Hbc Hc Hx.
  induction Hx as [|p n x _ [Hcp Hp] Hn Hin]; [lia|].
  destruct (Hnodes p ltac:(lia) Hp) as (n' & Hn' & Hok).
  assert (n' = n) as -> by congruence.
  destruct (ok_children _ _ _ _ _ Hok x Hin) as (Hlt & cn & Hcn & _).
  split; [lia|]. apply Hfresh. eauto.
Qed.

Lemma in_tree_graft nm i n c x :
  nm !! i = Some n → c ∈ children n → in_tree nm c x → in_tree nm i x.
Proof.
  intros Hn Hc Hx. induction Hx as [|p pn x _ IH Hp Hin].
  - by eapply in_tree_child; [apply in_tree_root| |].
  - by eapply in_tree_child.
Qed.

Lemma in_tree_parent b P nm next c x :
  store_ok b P nm next → b ≤ c → c < next →
  in_tree nm c x → x ≠ c →
  ∃ p xn, nm !! x = Some xn ∧ parent_id xn = Some p ∧ in_tree nm c p ∧ p < x.
Proof.
  intros Hst Hbc Hc Hx Hne. pose proof Hst as [Hfresh Hnodes].
  destruct Hx as [|p n x Hp Hn Hin]; [done|].
  destruct (in_tree_from _ _ _ _ _ _ Hst Hbc Hc Hp) as [Hcp Hpn].
  destruct (Hnodes p ltac:(lia) Hpn) as (n' & Hn' & Hok).
  assert (n' = n) as -> by congruence.
  destruct (ok_children _ _ _ _ _ Hok x Hin) as (Hlt & xn & Hxn & Hpar).
  exists p, xn. done.
Qed.

(** Two children of one node head subtrees that share no node. *)
Lemma disjoint_subtrees b P nm next i n c1 c2 :
  store_ok b P nm next → b ≤ i → i < next → nm !! i = Some n →
  c1 ∈ children n → c2 ∈ children n → c1 ≠ c2 →
  ∀ x, in_tree nm c1 x → in_tree nm c2 x → False.
Proof.
  intros Hst Hbi Hi Hn H1 H2 Hne. pose proof Hst as [Hfresh Hnodes].
  destruct (Hnodes i Hbi Hi) as (n' & Hn' & Hok).
  assert (n' = n) as -> by congruence.
  destruct (ok_children _ _ _ _ _ Hok c1 H1) as (Hlt1 & cn1 & Hcn1 & Hpar1).
  destruct (ok_children _ _ _ _ _ Hok c2 H2) as (Hlt2 & cn2 & Hcn2 & Hpar2).
  assert (c1 < next) as Hc1 by (apply Hfresh; eauto).
  assert (c2 < next) as Hc2 by (apply Hfresh; eauto).
  assert (∀ c c' cn, c ∈ children n → c' ∈ children n → c ≠ c' →
            nm !! c = Some cn → parent_id cn = Some i → i < c' → c' < next →
            in_tree nm c' c → False) as Hhead.
  { intros c c' cn _ _ Hcc Hcn Hpar Hlt Hnext Hin.
    destruct (in_tree_parent b P nm next c' c Hst ltac:(lia) Hnext Hin Hcc)
      as (p & xn & Hxn & Hp & Hinp & _).
    assert (p = i) as -> by congruence.
    destruct (in_tree_from b P nm next c' i Hst ltac:(lia) Hnext Hinp). lia. }
  intros x. induction (lt_wf x) as [x _ IH]. intros Hx1 Hx2.
  destruct (decide (x = c1)) as [->|Hx1'].
  { by apply (Hhead c1 c2 cn1). }
  destruct (decide (x = c2)) as [->|Hx2'].
  { by apply (Hhead c2 c1 cn2). }
  destruct (in_tree_parent b P nm next c1 x Hst ltac:(lia) Hc1 Hx1 Hx1')
    as (p1 & xn1 & Hxn1 & Hp1 & Hin1 & Hlt).
  destruct (in_tree_parent b P nm next c2 x Hst ltac:(lia) Hc2 Hx2 Hx2')
    as (p2 & xn2 & Hxn2 & Hp2 & Hin2 & _).
  assert (p2 = p1) as -> by congruence.
  by apply (IH p1).
Qed.

(** ** The nodes of the record *)

Lemma node_to_dict_step d nm i j :
  node_to_dict (S d) nm i = Some j →
  ∃ n cs, nm !! i = Some n ∧
          Forall2 (fun c cj => node_to_dict d nm c = Some cj) (children n) cs ∧
          jids j = node_id n :: concat (map jids cs).
Proof.
  simpl. destruct (nm !! i) as [n|]; [|done].
  destruct (mapM (node_to_dict d nm) (children n)) as [cs|] eqn:Hcs; [|done].
  intros [= <-]. exists n, cs. split; [done|]. split; [|done].
  by apply mapM_Some_1.
Qed.

Lemma elem_of_subs_1 (f : nat → option JNode) kids cs x :
  Forall2 (fun c cj => f c = Some cj) kids cs →
  x ∈ concat (map jids cs) →
  ∃ c cj, c ∈ kids ∧ f c = Some cj ∧ x ∈ jids cj.
Proof.
  induction 1 as [|c cj kids cs Hc _ IH]; simpl; intros Hx.
  - by apply elem_of_nil in Hx.
  - apply elem_of_app in Hx as [Hx|Hx].
    + exists c, cj. split; [left|done].
    + destruct (IH Hx) as (c' & cj' & ? & ? & ?). exists c', cj'.
      split; [by right|done].
Qed.

Lemma elem_of_subs_2 (f : nat → option JNode) kids cs c cj x :
  Forall2 (fun c cj => f c = Some cj) kids cs →
  c ∈ kids → f c = Some cj → x ∈ jids cj →
  x ∈ concat (map jids cs).
Proof.
  induction 1 as [|c0 cj0 kids cs Hc0 _ IH]; simpl; intros Hc Hf Hx.
  - by apply elem_of_nil in Hc.
  - apply elem_of_app. apply elem_of_cons in Hc as [->|Hc].
    + left. congruence.
    + right. by apply IH.
Qed.

Lemma nodup_subs (f : nat → option JNode) kids cs :
  Forall2 (fun c cj => f c = Some cj) kids cs →
  NoDup kids →
  (∀ c cj, c ∈ kids → f c = Some cj → NoDup (jids cj)) →
  (∀ c1 c2 cj1 cj2 x, c1 ∈ kids → c2 ∈ kids → c1 ≠ c2 →
     f c1 = Some cj1 → f c2 = Some cj2 → x ∈ jids cj1 → x ∈ jids cj2 → False) →
  NoDup (concat (map jids cs)).
Proof.
  induction 1 as [|c cj kids cs Hc Hall IH]; simpl; intros Hnd Hone Htwo.
  - constructor.
  - apply NoDup_cons in Hnd as [Hnotin Hnd].
    apply NoDup_app. split; [|split].
    + apply (Hone c); [left|done].
    + intros x Hx Hx'.
      destruct (elem_of_subs_1 f kids cs x Hall Hx') as (c' & cj' & Hc' & Hf' & Hin').
      apply (Htwo c c' cj cj' x); try done; [left|by right|].
      intros ->. done.
    + apply IH; [done| |].
      * intros c' cj' Hc'. apply Hone. by right.
      * intros c1 c2 cj1 cj2 x H1 H2. apply Htwo; by right.
Qed.

Section SavedRecord.
Variables (b : nat) (P : list (nat * string)) (nm : gmap nat TextNode) (next : nat).
Hypothesis Hst : store_ok b P nm next.

Lemma node_in_range i : b ≤ i → i < next → ∃ n, nm !! i = Some n ∧ node_id n = i ∧
  ∀ c, c ∈ children n → i < c ∧ c < next.
Proof.
  intros Hbi Hi. destruct Hst as [Hfresh Hnodes].
  destruct (Hnodes i Hbi Hi) as (n & Hn & Hok). exists n.
  split; [done|]. split; [apply (ok_id _ _ _ _ _ Hok)|].
  intros c Hc. destruct (ok_children _ _ _ _ _ Hok c Hc) as (Hlt & cn & Hcn & _).
  split; [done|]. apply Hfresh. eauto.
Qed.

Lemma record_sound d : ∀ i j,
  b ≤ i → i < next → node_to_dict d nm i = Some j →
  ∀ x, x ∈ jids j → in_tree nm i x.
Proof.
  induction d as [|d IH]; intros i j Hbi Hi Hj x Hx; [done|].
  destruct (node_to_dict_step _ _ _ _ Hj) as (n & cs & Hn & Hcs & Hids).
  destruct (node_in_range i Hbi Hi) as (n' & Hn' & Hid & Hkids).
  assert (n' = n) as -> by congruence.
  rewrite Hids, Hid in Hx. apply elem_of_cons in Hx as [->|Hx]; [constructor|].
  destruct (elem_of_subs_1 _ _ _ _ Hcs Hx) as (c & cj & Hc & Hcj & Hin).
  destruct (Hkids c Hc) as [Hic Hcn].
  apply (in_tree_graft nm i n c x Hn Hc).
  apply (IH c cj); [lia|done|done|done].
Qed.

Lemma record_head d i j :
  b ≤ i → i < next → node_to_dict d nm i = Some j → i ∈ jids j.
Proof.
  intros Hbi Hi Hj. destruct d as [|d]; [done|].
  destruct (node_to_dict_step _ _ _ _ Hj) as (n & cs & Hn & Hcs & Hids).
  destruct (node_in_range i Hbi Hi) as (n' & Hn' & Hid & Hkids).
  assert (n' = n) as -> by congruence.
  rewrite Hids, Hid. left.
Qed.

Lemma record_closed d : ∀ i j,
  b ≤ i → i < next → node_to_dict d nm i = Some j →
  ∀ p n c, p ∈ jids j → nm !! p = Some n → c ∈ children n → c ∈ jids j.
Proof.
  induction d as [|d IH]; intros i j Hbi Hi Hj p pn c Hp Hpn Hc; [done|].
  destruct (node_to_dict_step _ _ _ _ Hj) as (n & cs & Hn & Hcs & Hids).
  destruct (node_in_range i Hbi Hi) as (n' & Hn' & Hid & Hkids).
  assert (n' = n) as -> by congruence.
  rewrite Hids, Hid in *. right.
  apply elem_of_cons in Hp as [->|Hp].
  - assert (pn = n) as -> by congruence.
    destruct (Hkids c Hc) as [Hic Hcn].
    apply list_elem_of_lookup in Hc as Hk. destruct Hk as [k Hk].
    destruct (Forall2_lookup_l _ _ _ _ _ Hcs Hk) as (cj & _ & Hcj).
    apply (elem_of_subs_2 _ _ _ c cj c Hcs Hc Hcj).
    apply (record_head d c cj); [lia|done|done].
  - destruct (elem_of_subs_1 _ _ _ _ Hcs Hp) as (c' & cj' & Hc' & Hcj' & Hin').
    destruct (Hkids c' Hc') as [Hic Hcn].
    apply (elem_of_subs_2 _ _ _ c' cj' c Hcs Hc' Hcj').
    apply (IH c' cj' ltac:(lia) Hcn Hcj' p pn c); done.
Qed.

Lemma record_complete d i j :
  b ≤ i → i < next → node_to_dict d nm i = Some j →
  ∀ x, in_tree nm i x → x ∈ jids j.
Proof.
  intros Hbi Hi Hj x Hx. induction Hx as [|p n x _ IH Hn Hin].
  - by eapply record_head.
  - by eapply record_closed.
Qed.

Lemma record_nodup d : ∀ i j,
  tidy b nm next →
  b ≤ i → i < next → node_to_dict d nm i = Some j → NoDup (jids j).
Proof.
  induction d as [|d IH]; intros i j Ht Hbi Hi Hj; [done|].
  destruct (node_to_dict_step _ _ _ _ Hj) as (n & cs & Hn & Hcs & Hids).
  destruct (node_in_range i Hbi Hi) as (n' & Hn' & Hid & Hkids).
  assert (n' = n) as -> by congruence.
  destruct (Ht i n Hbi Hn) as [Hnd _].
  rewrite Hids, Hid. apply NoDup_cons. split.
  - intros Hx.
    destruct (elem_of_subs_1 _ _ _ _ Hcs Hx) as (c & cj & Hc & Hcj & Hin).
    destruct (Hkids c Hc) as [Hic Hcn].
    pose proof (record_sound d c cj ltac:(lia) Hcn Hcj i Hin) as Htree.
    destruct (in_tree_from b P nm next c i Hst ltac:(lia) Hcn Htree). lia.
  - apply (nodup_subs _ _ _ Hcs Hnd).
    + intros c cj Hc Hcj. destruct (Hkids c Hc) as [Hic Hcn].
      apply (IH c cj); [done|lia|done|done].
    + intros c1 c2 cj1 cj2 x H1 H2 Hne Hcj1 Hcj2 Hx1 Hx2.
      destruct (Hkids c1 H1) as [? ?]. destruct (Hkids c2 H2) as [? ?].
      apply (disjoint_subtrees _ _ _ _ i n c1 c2 Hst Hbi Hi Hn H1 H2 Hne x).
      * apply (record_sound d c1 cj1); [lia|done|done|done].
      * apply (record_sound d c2 cj2); [lia|done|done|done].
Qed.

End SavedRecord.

(** X11: the record [save_to_file] makes of a document just built holds
    every node made for that document, each exactly once, and no other
    node of the index. *)
Theorem record_holds_each_node_once s ttl cnt :
  fresh s →
  ∃ s' j,
    create_textbook_structure ttl cnt s = (inr (uuid_next s), s') ∧
    node_to_dict recursion_limit (node_map s') (uuid_next s) = Some j ∧
    jids j ≡ₚ seq (uuid_next s) (uuid_next s' - uuid_next s) ∧
    jsize j = uuid_next s' - uuid_next s.
Proof.
  intros Hf. destruct (create_builds s ttl cnt Hf) as (s' & Hrun & Hb).
  pose proof (bd_store _ _ _ _ _ Hb) as Hst.
  destruct (node_to_dict_built _ _ _ _ _ Hb) as [j Hj].
  exists s', j. split; [done|]. split; [done|].
  destruct (bd_root_node _ _ _ _ _ Hb) as (rn & Hrn & _).
  assert (uuid_next s < uuid_next s') as Hlt
    by (apply (so_fresh _ _ _ _ Hst); eauto).
  assert (tidy (uuid_next s) (node_map s') (uuid_next s')) as Ht.
  { rewrite (create_eq s ttl cnt Hf) in Hrun. injection Hrun as <-.
    apply tidy_read_pages, tidy_rooted, Hf. }
  assert (jids j ≡ₚ seq (uuid_next s) (uuid_next s' - uuid_next s)) as Hperm.
  { apply NoDup_Permutation.
    - by apply (record_nodup _ _ _ _ Hst recursion_limit (uuid_next s) j).
    - apply NoDup_seq.
    - intros x. rewrite elem_of_seq. split.
      + intros Hx.
        pose proof (record_sound _ _ _ _ Hst _ _ _ (Nat.le_refl _) Hlt Hj x Hx) as Hin.
        destruct (in_tree_range _ _ _ _ _ _ Hb Hin). lia.
      + intros [? ?].
        apply (record_complete _ _ _ _ Hst _ _ _ (Nat.le_refl _) Hlt Hj).
        apply (all_in_tree _ _ _ _ _ Hb); lia. }
  split; [done|].
  assert (∀ t, length (jids t) = jsize t) as Hlen.
  { fix IH 1. intros [? ? ? ? ? ? ? cs]. simpl. f_equal.
    induction cs as [|c cs IHcs]; [done|].
    simpl. by rewrite length_app, IH, IHcs. }
  rewrite <- Hlen, Hperm, length_seq. done.
Qed.

Lemma record_holds_each_node_once_witness :
  ∃ s' j,
    create_textbook_structure "Book" three_chapters (new_processor 0 [])
    = (inr 0, s') ∧
    node_to_dict recursion_limit (node_map s') 0 = Some j ∧
    jids j ≡ₚ seq 0 (uuid_next s' - 0) ∧
    jsize j = uuid_next s' - 0.
Proof.
  apply (record_holds_each_node_once (new_processor 0 []) "Book" three_chapters).
  apply fresh_new_processor.
Defined.

(** ** Headings and the end of the line *)

Section LineEnds.
Import Re ReVocab Patterns.
Variable icase : bool.

Local Abbreviation open_line := (fun s => has_char Chars.newline s = false).

Lemma many_open c k g :
  (∀ m, open_line (ahead m) → k m = None) →
  ∀ s p, open_line s → many icase c k g p s = None.
Proof.
  intros Hk. induction s as [|a s IH]; intros p Hs; simpl.
  - by apply Hk.
  - pose proof Hs as Hs'. cbn [has_char] in Hs'.
    apply orb_false_iff in Hs' as [_ Hs'].
    destruct (accepts icase c a); [|by apply Hk].
    rewrite IH by done. by apply Hk.
Qed.

Lemma few_open c k g :
  (∀ m, open_line (ahead m) → k m = None) →
  ∀ s p, open_line s → few icase c k g p s = None.
Proof.
  intros Hk. induction s as [|a s IH]; intros p Hs; simpl.
  - by rewrite Hk.
  - rewrite Hk by done. cbn [has_char] in Hs.
    apply orb_false_iff in Hs as [_ Hs].
    destruct (accepts icase c a); [|done]. by apply IH.
Qed.

(** On a text without a newline the matcher only ever hands such a text
    on to what follows. *)
Lemma run_open r : ∀ k,
  (∀ m, open_line (ahead m) → k m = None) →
  ∀ m, open_line (ahead m) → run icase r k m = None.
Proof.
  induction r as [|c|c|c|r1 IH1 r2 IH2|r1 IH1|r1 IH1|c|]; intros k Hk m Hm;
    cbn [run].
  - by apply Hk.
  - destruct (ahead m) as [|a s] eqn:Ha; [done|].
    destruct (accepts icase c a); [|done]. apply Hk. cbn [ahead].
    cbn [has_char] in Hm. by apply orb_false_iff in Hm as [_ Hm].
  - by apply many_open.
  - by apply few_open.
  - apply IH1; [|done]. intros m' Hm'. by apply IH2.
  - apply IH1; [|done]. intros m' Hm'. by apply Hk.
  - destruct (run icase r1 Some m); [by apply Hk|done].
  - destruct (before m) as [a|]; [|by apply Hk].
    destruct (accepts icase c a); [done|by apply Hk].
  - destruct (xorb _ _); [by apply Hk|done].
Qed.

Lemma only_newline a :
  accepts icase (Lit Chars.newline) a = true → a = Chars.newline.
Proof.
  unfold accepts. destruct icase.
  - destruct a as [[] [] [] [] [] [] [] []]; vm_compute; congruence.
  - by intros ->%Ascii.eqb_eq.
Qed.

Lemma newline_ahead_open k m :
  open_line (ahead m) → run icase newline_ahead k m = None.
Proof.
  intros Hm. unfold newline_ahead. cbn [run].
  destruct (ahead m) as [|a s] eqn:Ha; [done|].
  destruct (accepts icase (Lit Chars.newline) a) eqn:Hacc; [|done].
  apply only_newline in Hacc as ->. cbn [has_char] in Hm.
  by rewrite Ascii.eqb_refl in Hm.
Qed.

Lemma seq_open rs : ∀ k m,
  open_line (ahead m) → run icase (seq (rs ++ [newline_ahead])) k m = None.
Proof.
  induction rs as [|r rs IH]; intros k m Hm.
  - by apply newline_ahead_open.
  - change (seq ((r :: rs) ++ [newline_ahead]))
      with (Seq r (seq (rs ++ [newline_ahead]))).
    cbn [run]. apply run_open; [|done]. intros m' Hm'. by apply IH.
Qed.

Lemma scan_open rs : ∀ s p skip,
  open_line s → scan icase (seq (rs ++ [newline_ahead])) p s skip = [].
Proof.
  induction s as [|a s IH]; intros p skip Hs.
  - destruct skip; [|done]. cbn [scan]. unfold match_here.
    by rewrite seq_open.
  - pose proof Hs as Hs'. cbn [has_char] in Hs'.
    apply orb_false_iff in Hs' as [_ Hs'].
    destruct skip as [|n]; cbn [scan]; [|by apply IH].
    unfold match_here. rewrite seq_open by done. by apply IH.
Qed.

(** *** What a match holds *)

Lemma many_via c k g : ∀ s p res,
  many icase c k g p s = Some res → ∃ m', k m' = Some res.
Proof.
  induction s as [|a s IH]; intros p res; simpl; [eauto|].
  destruct (accepts icase c a); [|eauto].
  destruct (many icase c k g (Some a) s) as [r'|] eqn:Hm; [|eauto].
  intros [= <-]. by eapply IH.
Qed.

Lemma few_reaches c k g : ∀ s p res,
  few icase c k g p s = Some res →
  ∃ u v p', s = u +:+ v ∧ all_of (accepts icase c) u = true ∧
            k (Cursor p' v g) = Some res.
Proof.
  induction s as [|a s IH]; intros p res; simpl.
  - destruct (k (Cursor p "" g)) as [r'|] eqn:Hk; [|done].
    intros [= <-]. by exists "", "", p.
  - destruct (k (Cursor p (String a s) g)) as [r'|] eqn:Hk.
    + intros [= <-]. by exists "", (String a s), p.
    + destruct (accepts icase c a) eqn:Ha; [|done]. intros Hf.
      destruct (IH _ _ Hf) as (u & v & p' & -> & Hu & Hres).
      exists (String a u), v, p'. rewrite ReFacts.app_cons. simpl.
      by rewrite Ha, Hu.
Qed.

(** Whatever the matcher returns, it got from what follows the pattern. *)
Lemma run_via r : ∀ k m res,
  run icase r k m = Some res → ∃ m', k m' = Some res.
Proof.
  induction r as [|c|c|c|r1 IH1 r2 IH2|r1 IH1|r1 IH1|c|]; intros k m res;
    cbn [run].
  - eauto.
  - destruct (ahead m) as [|a s]; [done|].
    destruct (accepts icase c a); [eauto|done].
  - apply many_via.
  - intros Hf. destruct (few_reaches _ _ _ _ _ _ Hf) as (_ & v & p' & _ & _ & ?).
    eauto.
  - intros H. destruct (IH1 _ _ _ H) as [m1 H1]. by eapply IH2.
  - intros H. destruct (IH1 _ _ _ H) as [m1 H1]. eauto.
  - destruct (run icase r1 Some m); [eauto|done].
  - destruct (before m) as [a|]; [|eauto].
    destruct (accepts icase c a); [done|eauto].
  - destruct (xorb _ _); [eauto|done].
Qed.

Lemma seq_via rs rest : ∀ k m res,
  run icase (seq (rs ++ rest)) k m = Some res →
  ∃ m', run icase (seq rest) k m' = Some res.
Proof.
  induction rs as [|r rs IH]; intros k m res H; [eauto|].
  change (seq ((r :: rs) ++ rest)) with (Seq r (seq (rs ++ rest))) in H.
  cbn [run] in H. destruct (run_via _ _ _ _ H) as [m1 H1]. by eapply IH.
Qed.

Lemma newline_ahead_stays k m res :
  run icase newline_ahead k m = Some res → k m = Some res.
Proof.
  unfold newline_ahead. cbn [run]. destruct (ahead m) as [|a s]; [done|].
  by destruct (accepts icase (Lit Chars.newline) a).
Qed.

Lemma title_is_a_line m res :
  run icase (seq [Capture (Few Dot); newline_ahead]) Some m = Some res →
  ∃ u, group1 res = Some u ∧ all_of (accepts icase Dot) u = true.
Proof.
  change (seq [Capture (Few Dot); newline_ahead])
    with (Seq (Capture (Few Dot)) (Seq newline_ahead Eps)).
  cbn [run]. intros Hf.
  destruct (few_reaches _ _ _ _ _ _ Hf) as (u & v & p' & Hs & Hu & Hres).
  cbn [ahead before] in Hres. rewrite Hs, ReFacts.take_append in Hres.
  apply newline_ahead_stays in Hres. injection Hres as <-. by exists u.
Qed.

Lemma elem_of_scan r m : ∀ s p skip,
  m ∈ scan icase r p s skip → ∃ p' s', match_here icase r p' s' = Some m.
Proof.
  induction s as [|a s IH]; intros p skip; cbn [scan].
  - destruct skip; [|by intros ?%elem_of_nil].
    destruct (match_here icase r p "") as [m'|] eqn:Hm; [|by intros ?%elem_of_nil].
    intros ->%list_elem_of_singleton. eauto.
  - destruct skip as [|n]; [|apply IH].
    destruct (match_here icase r p (String a s)) as [m'|] eqn:Hm; [|apply IH].
    intros [->|Hin]%elem_of_cons; [eauto|]. by eapply IH.
Qed.

Lemma scan_titles rs m s :
  m ∈ scan icase (seq (rs ++ [Capture (Few Dot); newline_ahead])) None s 0 →
  ∃ u, group m = Some u ∧ all_of (accepts icase Dot) u = true.
Proof.
  intros Hin. destruct (elem_of_scan _ _ _ _ _ Hin) as (p' & s' & Hm).
  unfold match_here in Hm.
  destruct (run icase _ Some (Cursor p' s' None)) as [res|] eqn:Hrun; [|done].
  injection Hm as <-. cbn [group].
  destruct (seq_via _ _ _ _ _ Hrun) as [m' Hm'].
  by apply title_is_a_line in Hm'.
Qed.

End LineEnds.

Lemma dots_hold_no_newline icase u :
  ReVocab.all_of (Re.accepts icase Re.Dot) u = true →
  has_char Chars.newline u = false.
Proof.
  induction u as [|a u IH]; [done|]. cbn [ReVocab.all_of has_char Re.accepts].
  intros [Ha Hu]%andb_prop. rewrite (IH Hu), orb_false_r.
  apply negb_true_iff in Ha. by rewrite Ascii.eqb_sym.
Qed.

(** X12: a heading is only seen when its line is ended by a newline: in a
    page text that holds no newline the builder finds no chapter heading
    and no section heading, whatever the text says. *)
Theorem heading_needs_line_end text :
  has_char Chars.newline text = false →
  chapter_matches text = [] ∧ section_matches text = [].
Proof.
  intros Hopen. unfold chapter_matches, section_matches, Re.finditer. split.
  - apply (scan_open true
             [Re.lit "Chapter"; Re.Many1 Re.Space; Re.Many1 Re.Digit;
              Re.One (Re.OneOf ["."; ":"]%char); Re.Many Re.Space;
              Re.Capture (Re.Few Re.Dot)]). exact Hopen.
  - apply (scan_open false
             [Re.NotBehind Re.Word; Re.Many1 Re.Digit; Re.One (Re.Lit ".");
              Re.Many1 Re.Digit; Re.Many1 Re.Space;
              Re.Capture (Re.Few Re.Dot)]). exact Hopen.
Qed.

Lemma heading_needs_line_end_witness :
  chapter_matches "Chapter 5: Conclusions" = [] ∧
  section_matches "Chapter 5: Conclusions" = [].
Proof. apply heading_needs_line_end. vm_compute. reflexivity. Defined.

(** X13: every match of the chapter pattern and of the section pattern has a
    group 1, and it holds no newline: the title of a chapter or section
    node is never made from [None], and never runs over a line. *)
Theorem heading_titles_are_single_lines text m :
  m ∈ chapter_matches text ∨ m ∈ section_matches text →
  ∃ g, Re.group m = Some g ∧ fmt_group m = g ∧
       has_char Chars.newline g = false.
Proof.
  assert (∀ icase u, Re.group m = Some u →
            ReVocab.all_of (Re.accepts icase Re.Dot) u = true →
            ∃ g, Re.group m = Some g ∧ fmt_group m = g ∧
                 has_char Chars.newline g = false) as Hdone.
  { intros icase u Hg Hu. exists u. split; [done|]. split.
    - unfold fmt_group. by rewrite Hg.
    - by eapply dots_hold_no_newline. }
  unfold chapter_matches, section_matches, Re.finditer. intros [Hin|Hin].
  - destruct (scan_titles true
                [Re.lit "Chapter"; Re.Many1 Re.Space; Re.Many1 Re.Digit;
                 Re.One (Re.OneOf ["."; ":"]%char); Re.Many Re.Space] m text Hin)
      as (u & Hg & Hu). by eapply Hdone.
  - destruct (scan_titles false
                [Re.NotBehind Re.Word; Re.Many1 Re.Digit; Re.One (Re.Lit ".");
                 Re.Many1 Re.Digit; Re.Many1 Re.Space] m text Hin)
      as (u & Hg & Hu). by eapply Hdone.
Qed.

Lemma heading_titles_are_single_lines_witness :
  ∃ g, Re.group (Re.Match "Chapter 1: One" (Some "One")) = Some g ∧
       fmt_group (Re.Match "Chapter 1: One" (Some "One")) = g ∧
       has_char Chars.newline g = false.
Proof.
  apply (heading_titles_are_single_lines ("Chapter 1: One" +:+ Str.nl)).
  left.
  assert (chapter_matches ("Chapter 1: One" +:+ Str.nl)
          = [Re.Match "Chapter 1: One" (Some "One")]) as ->
    by (vm_compute; reflexivity).
  apply list_elem_of_singleton. reflexivity.
Defined.

(** ** Leaves hold trimmed paragraphs *)

Lemma last_of_default c s :
  ReVocab.last_of (Some c) s
  = match ReVocab.last_of None s with Some d => Some d | None => Some c end.
Proof.
  revert c. induction s as [|a s IH]; intros c; [done|].
  simpl. rewrite (IH a). by destruct (ReVocab.last_of None s).
Qed.

Lemma head_rev_onto s : ∀ acc,
  Re.next_char (Str.rev_onto s acc)
  = match ReVocab.last_of None s with
    | Some c => Some c
    | None => Re.next_char acc
    end.
Proof.
  induction s as [|a s IH]; intros acc; [done|].
  simpl. rewrite IH, (last_of_default a). by destruct (ReVocab.last_of None s).
Qed.

Lemma last_rev_onto s : ∀ p acc,
  ReVocab.last_of p (Str.rev_onto s acc)
  = ReVocab.last_of (match Re.next_char s with Some c => Some c | None => p end)
      acc.
Proof.
  induction s as [|a s IH]; intros p acc; [done|].
  simpl. rewrite IH. by destruct s.
Qed.

Lemma lstrip_head s : is_space_opt (Re.next_char (Str.lstrip s)) = false.
Proof.
  induction s as [|a s IH]; [done|]. simpl.
  destruct (Chars.is_space a) eqn:Ha; [done|]. simpl. exact Ha.
Qed.

(** What [lstrip] leaves of a text ends as the text does. *)
Lemma lstrip_last s :
  Str.lstrip s ≠ "" →
  ReVocab.last_of None (Str.lstrip s) = ReVocab.last_of None s.
Proof.
  induction s as [|a s IH]; [done|]. simpl.
  destruct (Chars.is_space a); [|done]. intros Hne.
  assert (is_Some (ReVocab.last_of None s)) as [d Hd].
  { rewrite <- (IH Hne). destruct (Str.lstrip s) as [|b w]; [done|].
    simpl. rewrite last_of_default. destruct (ReVocab.last_of None w); eauto. }
  by rewrite (IH Hne), (last_of_default a), Hd.
Qed.

Lemma strip_trimmed s : trimmed (Str.strip s) = true.
Proof.
  unfold trimmed, Str.strip, Str.rev.
  set (t := Str.lstrip s). set (u := Str.lstrip (Str.rev_onto t "")).
  pose proof (lstrip_head s) as Ht. fold t in Ht.
  pose proof (lstrip_head (Str.rev_onto t "")) as Hu. fold u in Hu.
  assert (is_space_opt (Re.next_char (Str.rev_onto u "")) = false) as H1.
  { rewrite head_rev_onto. destruct (ReVocab.last_of None u) as [a|] eqn:Hl; [|done].
    assert (u ≠ "") as Hne by (intros E; by rewrite E in Hl).
    unfold u in Hl. rewrite lstrip_last in Hl by done.
    rewrite last_rev_onto in Hl. cbn [ReVocab.last_of] in Hl.
    destruct (Re.next_char t) as [c|] eqn:Et; [|done].
    injection Hl as <-. exact Ht. }
  assert (is_space_opt (ReVocab.last_of None (Str.rev_onto u "")) = false) as H2.
  { rewrite last_rev_onto. cbn [ReVocab.last_of].
    destruct (Re.next_char u) as [c|] eqn:Eu; [exact Hu|done]. }
  by rewrite H1, H2.
Qed.

(** X14: every leaf of a tree just built holds a paragraph of the page it
    is numbered with: a piece of the page text between blank lines,
    stripped, longer than 100 characters after stripping, so that its
    content neither starts nor ends with whitespace. *)
Theorem leaves_hold_trimmed_paragraphs s ttl cnt :
  fresh s →
  ∃ r s',
    create_textbook_structure ttl cnt s = (inr r, s') ∧
    ∀ i n, in_tree (node_map s') r i → node_map s' !! i = Some n →
      node_type n = Leaf →
      ∃ k pc q,
        (k, pc) ∈ pages_of cnt ∧ page_number n = [k] ∧
        q ∈ Str.split (Str.nl +:+ Str.nl) (page_text_of pc) ∧
        content n = Some (Str.strip q) ∧
        100 < String.length (Str.strip q) ∧ trimmed (Str.strip q) = true.
Proof.
  intros Hf. destruct (create_builds s ttl cnt Hf) as (s' & Hrun & Hb).
  exists (uuid_next s), s'. split; [done|].
  intros i n Hi Hn Hleaf.
  pose proof (in_tree_node_ok _ _ _ _ _ _ _ Hb Hi Hn) as Hok.
  assert (node_type n ≠ Root) as Hnr by (by rewrite Hleaf).
  destruct (ok_inner _ _ _ _ _ Hok Hnr)
    as (p & pn & k & pc & _ & _ & _ & _ & _ & _ & Hpage & Hin & Horigin).
  unfold origin in Horigin. rewrite Hleaf in Horigin.
  destruct Horigin as (_ & para & Hpara & Hlong & Hcontent).
  unfold paragraphs in Hpara.
  apply list_elem_of_filter in Hpara as [_ Hpara].
  apply list_elem_of_fmap in Hpara as (q & -> & Hq).
  exists k, pc, q. repeat split; try done. apply strip_trimmed.
Qed.

Lemma leaves_hold_trimmed_paragraphs_witness :
  ∃ n, node_map after_padded_page !! 3 = Some n ∧ node_type n = Leaf ∧
       content n = Some (replicate_char 120 "x") ∧
       ∃ k pc q,
         (k, pc) ∈ pages_of padded_page ∧ page_number n = [k] ∧
         q ∈ Str.split (Str.nl +:+ Str.nl) (page_text_of pc) ∧
         content n = Some (Str.strip q) ∧
         100 < String.length (Str.strip q) ∧ trimmed (Str.strip q) = true.
Proof.
  destruct (leaves_hold_trimmed_paragraphs (new_processor 0 []) "Book"
              padded_page (fresh_new_processor 0 [])) as (r & s' & Hrun & Hall).
  assert (create_textbook_structure "Book" padded_page (new_processor 0 [])
          = (inr 0, after_padded_page)) as Hrun' by (vm_compute; reflexivity).
  rewrite Hrun' in Hrun. injection Hrun as <- <-.
  eexists. split; [vm_compute; reflexivity|]. split; [reflexivity|].
  split; [reflexivity|].
  apply (Hall 3); [|vm_compute; reflexivity|reflexivity].
  apply (in_tree_child _ 0 2 (mkTextNode "Section: Overview" None Section 2
                                (Some 1) [3] [1] []));
    [|vm_compute; reflexivity|by left].
  apply (in_tree_child _ 0 1 (mkTextNode "Chapter: Intro" None Chapter 1
                                (Some 0) [2] [1] []));
    [|vm_compute; reflexivity|by left].
  apply (in_tree_child _ 0 0 (mkTextNode "Book" None Root 0 None [1] [] []));
    [apply in_tree_root|vm_compute; reflexivity|by left].
Defined.

(** ** The extractor on a directory *)

Section ExtractorFacts.
Import PDFExtractor.
Variable w : World.

Local Ltac run_pdf :=
  cbv beta iota zeta delta
    [process_single_pdf load_file extract_content close_pdf try_except bind
     ret raise raise_str attribute_error get modify emit set_file_path
     set_pdfs set_pdf_file set_reader file_path dir_path pdfs pdf_file reader
     trace negb].

Local Ltac leaf :=
  eexists _, _, _; split; [reflexivity|];
  split; [rewrite <- ?app_assoc; reflexivity|];
  split; [reflexivity|]; cbn; auto.

(** One PDF: either it is opened, its text written and it is closed, or
    an exception comes out, nothing was written and nothing closed. *)
Lemma single_outcome s p :
  file_path s = Some p →
  ∃ res s' ev,
    process_single_pdf w s = (res, s') ∧
    trace s' = trace s ++ ev ∧ dir_path s' = dir_path s ∧
    match res with
    | inr _ => opened ev = [p] ∧ closed ev = [p] ∧
               map fst (written ev) = [text_path w p]
    | inl _ => (opened ev = [] ∨ opened ev = [p]) ∧ closed ev = [] ∧
               written ev = []
    end.
Proof.
  destruct s as [fp dp ps pf rd tr]. cbn [file_path]. intros ->. run_pdf.
  destruct (open_rb w tr p) as [e|]; run_pdf; [leaf|].
  destruct (read_pdf w (tr ++ [Opened p]) p) as [e|r]; run_pdf; [leaf|].
  destruct (reader_truth w r); run_pdf; [|leaf].
  destruct r as [e|pages]; run_pdf; [leaf|].
  destruct (page_texts pages) as [e|texts]; run_pdf; [leaf|].
  destruct (mkdir_parents w _ _) as [e|]; run_pdf; [leaf|].
  destruct (write_utf16 w _ _ _) as [e|]; run_pdf; leaf.
Qed.

Lemma directory_loop d names : ∀ s,
  dir_path s = Some d →
  ∃ res s' ev done,
    for_each names (fun pdf => bind (set_file_path (Some (joinpath w d pdf)))
                                 (fun _ => process_single_pdf w)) s
    = (res, s') ∧
    trace s' = trace s ++ ev ∧ dir_path s' = dir_path s ∧
    closed ev = map (joinpath w d) done ∧
    map fst (written ev) = map (fun n => text_path w (joinpath w d n)) done ∧
    match res with
    | inr _ => done = names ∧ opened ev = map (joinpath w d) names
    | inl _ => ∃ bad rest, names = done ++ bad :: rest ∧
                 (opened ev = map (joinpath w d) done ∨
                  opened ev = map (joinpath w d) (done ++ [bad]))
    end.
Proof.
  induction names as [|n names IH]; intros s Hd.
  - exists (inr tt), s, [], []. rewrite app_nil_r. by repeat split.
  - cbn [for_each]. unfold bind at 1. unfold bind at 1, set_file_path at 1, modify.
    set (s0 := mkExtractor (Some (joinpath w d n)) (dir_path s) (pdfs s)
                 (pdf_file s) (reader s) (trace s)).
    destruct (single_outcome s0 (joinpath w d n) eq_refl)
      as (res & s1 & ev1 & Hrun & Htr & Hdir & Hres).
    rewrite Hrun. destruct res as [e|[]].
    + destruct Hres as (Hop & Hcl & Hwr).
      exists (inl e), s1, ev1, []. split; [done|]. split; [done|]. split; [done|].
      split; [done|]. split; [by rewrite Hwr|].
      exists n, names. split; [done|]. destruct Hop as [->| ->]; auto.
    + destruct Hres as (Hop & Hcl & Hwr).
      destruct (IH s1) as (res & s' & ev & done & Hloop & Htr' & Hdir' & Hcl' & Hwr' & Hres').
      { by rewrite Hdir. }
      exists res, s', (ev1 ++ ev), (n :: done).
      split; [done|]. split; [by rewrite Htr', Htr, <- app_assoc|].
      split; [by rewrite Hdir', Hdir|].
      unfold closed, written, opened in *.
      rewrite !omap_app. split; [by rewrite Hcl, Hcl'|].
      split; [by rewrite map_app, Hwr, Hwr'|].
      destruct res as [e|[]].
      * destruct Hres' as (bad & rest & -> & Hop').
        exists bad, rest. split; [done|]. rewrite Hop.
        destruct Hop' as [->| ->]; auto.
      * destruct Hres' as [-> Hop']. split; [done|]. by rewrite Hop, Hop'.
Qed.

End ExtractorFacts.



(** X16: when the arguments do not pass [validate_arguments], [process]
    touches no file and fails; the messages [validate_arguments] builds
    are never seen, because a string is raised: with a file or a
    directory given the exception is the [TypeError] Python raises for
    that, and only with neither given it is the [ValueError] of [process]
    itself.  The exception is logged once, as "Error in processing". *)
Theorem invalid_arguments_lose_their_message w s :
  arguments_valid w s = false →
  ∃ e,
    PDFExtractor.process w s
    = (inl e, with_event s
                (PDFExtractor.Error ("Error in processing: "
                                     +:+ PDFExtractor.str_exn e))) ∧
    (e = PDFExtractor.PyExn "ValueError"
           "Either 'file_path' or 'dir_path' must be provided." ∧
     PDFExtractor.file_path s = None ∧ PDFExtractor.dir_path s = None
     ∨
     e = PDFExtractor.PyExn "TypeError"
           "exceptions must derive from BaseException" ∧
     (is_Some (PDFExtractor.file_path s) ∨ is_Some (PDFExtractor.dir_path s))).
Proof.
  destruct s as [fp dp ps pf rd tr]. unfold arguments_valid, with_event.
  cbn [PDFExtractor.file_path PDFExtractor.dir_path PDFExtractor.trace
       PDFExtractor.pdfs PDFExtractor.pdf_file PDFExtractor.reader].
  intros Hbad.
  destruct fp as [p|], dp as [d|].
  - eexists. split; [|right; split; [reflexivity|left; eauto]].
    unfold PDFExtractor.process, PDFExtractor.validate_arguments,
      PDFExtractor.try_except, PDFExtractor.bind, PDFExtractor.get,
      PDFExtractor.raise_str, PDFExtractor.raise, PDFExtractor.emit,
      PDFExtractor.modify, PDFExtractor.ret. simpl.
    destruct (PDFExtractor.is_file w tr p); simpl in *; [|reflexivity].
    rewrite Hbad. reflexivity.
  - eexists. split; [|right; split; [reflexivity|left; eauto]].
    unfold PDFExtractor.process, PDFExtractor.validate_arguments,
      PDFExtractor.try_except, PDFExtractor.bind, PDFExtractor.get,
      PDFExtractor.raise_str, PDFExtractor.raise, PDFExtractor.emit,
      PDFExtractor.modify, PDFExtractor.ret. simpl.
    destruct (PDFExtractor.is_file w tr p); simpl in *; [|reflexivity].
    rewrite Hbad. reflexivity.
  - eexists. split; [|right; split; [reflexivity|right; eauto]].
    unfold PDFExtractor.process, PDFExtractor.validate_arguments,
      PDFExtractor.try_except, PDFExtractor.bind, PDFExtractor.get,
      PDFExtractor.raise_str, PDFExtractor.raise, PDFExtractor.emit,
      PDFExtractor.modify, PDFExtractor.ret. simpl.
    rewrite Hbad. reflexivity.
  - eexists. split; [|left; done]. reflexivity.
Qed.

Lemma invalid_arguments_lose_their_message_witness :
  ∃ e,
    PDFExtractor.process demo_world
      (PDFExtractor.init demo_world None (Some "book.pdf"))
    = (inl e, with_event (PDFExtractor.init demo_world None (Some "book.pdf"))
                (PDFExtractor.Error ("Error in processing: "
                                     +:+ PDFExtractor.str_exn e))) ∧
    e = PDFExtractor.PyExn "TypeError" "exceptions must derive from BaseException".
Proof.
  destruct (invalid_arguments_lose_their_message demo_world
              (PDFExtractor.init demo_world None (Some "book.pdf")) eq_refl)
    as (e & Hrun & [(_ & Hf & _)|(He & _)]).
  - discriminate Hf.
  - exists e. split; [exact Hrun|exact He].
Defined.

(** ** Several sections on one page *)

(** X17: the paragraphs of a page are read after all its section headings:
    when a chapter is current and the page has section headings, every
    long paragraph of the page, wherever it stands in the text, becomes a
    leaf of the last section the page opens, and the sections opened
    before it on that page get no leaf. *)
Theorem leaves_hang_from_last_section r k pc s ch sms sm :
  ready r s →
  moved_to (uuid_next s) (chapter_matches (page_text_of pc)) (current_chapter s)
  = Some ch →
  section_matches (page_text_of pc) = sms ++ [sm] →
  let text := page_text_of pc in
  let b1 := uuid_next s + length (chapter_matches text) in
  let sec := b1 + length sms in
  ∃ s',
    process_page (k, pc) s = (inr tt, s') ∧
    current_chapter s' = Some ch ∧ current_section s' = Some sec ∧
    node_map s' !! sec
    = Some (append_children (seq (sec + 1) (length (substantial text)))
              (section_node ch k sec sm)) ∧
    (∀ j para, substantial text !! j = Some para →
       node_map s' !! (sec + 1 + j) = Some (leaf_node sec k (sec + 1 + j) para)) ∧
    (∀ j m, sms !! j = Some m →
       node_map s' !! (b1 + j) = Some (section_node ch k (b1 + j) m)).
Proof.
  intros Hs Hch Hsms text b1 sec.
  exists (page_effect r k text s). split; [by apply process_page_eq|].
  pose proof (ready_chapters_effect r k text s Hs) as H1.
  unfold page_effect. set (s1 := chapters_effect r k text s) in *.
  assert (current_chapter s1 = Some ch) as Hch1 by exact Hch.
  assert (uuid_next s1 = b1) as Hb1 by reflexivity.
  destruct (rd_chapter _ _ H1 ch Hch1) as [_ Hchn].
  assert (ch < b1) as Hchlt by (rewrite <- Hb1; by apply (rd_fresh _ _ H1)).
  unfold sections_effect. rewrite Hch1. fold text in Hsms. rewrite Hsms, Hb1.
  rewrite moved_to_snoc. fold sec.
  set (nm2 := attach_all (section_node ch k) ch b1 (sms ++ [sm]) (node_map s1)).
  assert (nm2 !! sec = Some (section_node ch k sec sm)) as Hsec2.
  { unfold nm2, sec. apply lookup_attach_all_new; [done|].
    rewrite lookup_app_r by done. by rewrite Nat.sub_diag. }
  unfold leaves_effect. cbn [current_section uuid_next node_map current_chapter].
  rewrite length_app. cbn [length].
  replace (b1 + (length sms + 1)) with (sec + 1) by (unfold sec; lia).
  split; [done|]. split; [done|]. split; [|split].
  - apply lookup_attach_all_parent; [lia|done].
  - intros j para Hj. apply lookup_attach_all_new; [lia|done].
  - intros j m Hj. pose proof (lookup_lt_Some _ _ _ Hj) as Hlt.
    rewrite lookup_attach_all_old by (unfold sec; lia).
    unfold nm2. apply lookup_attach_all_new; [done|]. by rewrite lookup_app_l.
Qed.

Lemma leaves_hang_from_last_section_witness :
  ∃ s',
    process_page (2, paragraph_first) in_section = (inr tt, s') ∧
    current_chapter s' = Some 1 ∧ current_section s' = Some 4 ∧
    node_map s' !! 4
    = Some (mkTextNode "Section: Second" None Section 4 (Some 1) [5] [2] []) ∧
    node_map s' !! 5 = Some (leaf_node 4 2 5 (replicate_char 120 "x")) ∧
    node_map s' !! 3
    = Some (mkTextNode "Section: First" None Section 3 (Some 1) [] [2] []).
Proof.
  assert (ready 0 in_section) as Hready.
  { split; [apply fresh_in_section|reflexivity|by eexists| |].
    - intros c [= <-]. split; [lia|by eexists].
    - intros c [= <-]. split; [lia|by eexists]. }
  assert (section_matches (page_text_of paragraph_first)
          = [Re.Match "1.1 First" (Some "First")]
            ++ [Re.Match "1.2 Second" (Some "Second")]) as Hsms
    by (vm_compute; reflexivity).
  assert (substantial (page_text_of paragraph_first) = [replicate_char 120 "x"])
    as Hsub by (vm_compute; reflexivity).
  destruct (leaves_hang_from_last_section 0 2 paragraph_first in_section 1
              [Re.Match "1.1 First" (Some "First")]
              (Re.Match "1.2 Second" (Some "Second")) Hready eq_refl Hsms)
    as (s' & Hrun & Hcc & Hcs & Hsec & Hleaves & Hsecs).
  assert (chapter_matches (page_text_of paragraph_first) = []) as Hcm
    by (vm_compute; reflexivity).
  rewrite Hsub in Hsec, Hleaves. rewrite Hcm in Hcs, Hsec, Hleaves, Hsecs.
  exists s'. split; [exact Hrun|]. split; [exact Hcc|]. split; [exact Hcs|].
  split; [exact Hsec|]. split.
  - exact (Hleaves 0 _ eq_refl).
  - exact (Hsecs 0 _ eq_refl).
Defined.
